(** * Shannon pentest pipeline: orchestration and resilience layer

    A shallow embedding of the retry-with-checkpoint executor
    ([src/ai/retry-handler.ts]), the pipeline workflow
    ([src/temporal/workflows.ts]), the Temporal bridge
    ([ui/temporal_bridge.ts]) and the WebSocket progress server
    ([ui/ws_server.ts]), with the executor that runs one attempt
    ([src/ai/claude-executor.ts]), the billing detector it calls and the
    request handler that starts a run ([ui/server.ts]), followed by the
    properties proved about them.

    Conventions of the embedding:
    - a JavaScript [number] that holds a count, a byte offset or an attempt
      index is a [nat]; a timestamp or a duration in milliseconds is a [Z];
      a fractional quantity (cost in USD, back-off delay) is an element of an
      abstract type [Num] with the addition and the zero the code uses;
    - [T | null] and optional fields are [option T];
    - an [await] on an external collaborator is a read of an oracle that gives
      the collaborator's outcome, and the effect is appended to a trace;
    - [console.log] output is not modelled. *)

From Stdlib Require Import ZArith List Lia Bool Ascii String.
From Stdlib.Strings Require Import Byte.
From stdpp Require Import base option list strings pretty gmap.

Open Scope string_scope.
Open Scope list_scope.

(** ** JavaScript values shared by all modules *)

Module Js.

(** A JS number whose arithmetic is floating point. *)
Class Number (Num : Type) := {
  nadd : Num -> Num -> Num;
  nzero : Num
}.

#[global] Instance Z_Number : Number Z := {| nadd := Z.add; nzero := 0%Z |}.

(** A thrown [Error]: [PentestError] sets [pentest] to its type tag and its
    [retryable] flag; [duration] and [cost] are the optional extra props the
    retry handler reads from a caught error. *)
Record Error {Num : Type} := mkError {
  message : string;
  pentest : option (string * bool);
  duration : option Z;
  cost : option Num
}.
Arguments Error : clear implicits.

Definition new_Error {Num} (msg : string) : Error Num :=
  {| message := msg; pentest := None; duration := None; cost := None |}.

Definition new_PentestError {Num} (msg type : string) (retryable : bool) : Error Num :=
  {| message := msg; pentest := Some (type, retryable); duration := None; cost := None |}.

(** How a promise settles: [Resolves] is also a normal return, [Rejects] a
    [throw]. *)
Inductive Settled {Num : Type} (A : Type) :=
| Resolves (a : A)
| Rejects (e : Error Num).
Arguments Settled : clear implicits.
Arguments Resolves {Num A} a.
Arguments Rejects {Num A} e.

(** [a ?? b] *)
Definition nullish {A} (a : option A) (b : A) : A :=
  match a with Some x => x | None => b end.

(** [String.prototype.toLowerCase] and [toUpperCase] on ASCII text. *)
Definition lower_ascii (c : ascii) : ascii :=
  let n := nat_of_ascii c in
  if (65 <=? n)%nat && (n <=? 90)%nat then ascii_of_nat (n + 32) else c.

Definition upper_ascii (c : ascii) : ascii :=
  let n := nat_of_ascii c in
  if (97 <=? n)%nat && (n <=? 122)%nat then ascii_of_nat (n - 32) else c.

Fixpoint map_string (f : ascii -> ascii) (s : string) : string :=
  match s with
  | EmptyString => EmptyString
  | String c s' => String (f c) (map_string f s')
  end.

Definition toLowerCase : string -> string := map_string lower_ascii.
Definition toUpperCase : string -> string := map_string upper_ascii.

(** [s.includes(p)] *)
Fixpoint includes (s p : string) : bool :=
  if String.prefix p s then true
  else match s with
       | EmptyString => false
       | String _ s' => includes s' p
       end.

End Js.

(** ** [src/constants/error-patterns.ts] *)

Module ErrorPatterns.

Definition RETRYABLE_PATTERNS : list string :=
  [ "network"; "connection"; "timeout"; "econnreset"; "enotfound";
    "econnrefused"; "rate limit"; "429"; "too many requests"; "server error";
    "5xx"; "internal server error"; "service unavailable"; "bad gateway";
    "mcp server"; "model unavailable"; "service temporarily unavailable";
    "api error"; "terminated"; "max turns"; "maximum turns" ].

Definition NON_RETRYABLE_PATTERNS : list string :=
  [ "authentication"; "invalid prompt"; "out of memory"; "permission denied";
    "session limit reached"; "invalid api key" ].

(** Modelled from the spec: [isRetryableError] of [src/error-handling.ts],
    the module the retry handler imports its classifier from.  The spec
    describes the classifier as a pure function of the error's textual
    signature driven by a static table: auth, permission, malformed-request
    and configuration signatures are non-retryable, network, timeout,
    rate-limit and server-error signatures are retryable.  The tables are the
    two above, matched against the lower-cased message; an error matching
    neither table is not retried.  The order of the two look-ups matters only
    for a message matching both tables.  The retry handler below takes its
    classifier as a parameter; this one instantiates it in examples. *)
Definition isRetryableError {Num} (err : Js.Error Num) : bool :=
  let msg := Js.toLowerCase (Js.message err) in
  if existsb (Js.includes msg) NON_RETRYABLE_PATTERNS then false
  else existsb (Js.includes msg) RETRYABLE_PATTERNS.

End ErrorPatterns.

(** ** [src/ai/retry-handler.ts]

    The git manager and the audit session are collaborators that resolve;
    the two callbacks may resolve or reject. *)

Module RetryHandler.

Section WithCollaborators.

Context {Num : Type} `{Js.Number Num}.

(** [ClaudePromptResultLike] *)
Record ClaudePromptResultLike := mkResult {
  result : option string;
  success : bool;
  duration : Z;
  turns : option Z;
  cost : option Num;
  partialCost : option Num;
  apiErrorDetected : option bool;
  error : option string;
  model : option string
}.

Abbreviation Settled := (Js.Settled Num).
Abbreviation Resolves := Js.Resolves.
Abbreviation Rejects := Js.Rejects.

(** The argument of [audit_session.endAgent]. *)
Record AgentEndInfo := mkEndInfo {
  attemptNumber : nat;
  duration_ms : Z;
  cost_usd : Num;
  end_success : bool;
  end_error : option string;
  isFinalAttempt : option bool;
  checkpoint : option string
}.

(** The effects of the handler on its collaborators, in program order. *)
Inductive Event :=
| createGitCheckpoint (description : string) (attempt : nat)
| startAgent (attempt : nat)
| runAttempt (attempt : nat)
| validateOutput (attempt : nat)
| getGitCommitHash
| endAgent (info : AgentEndInfo)
| commitGitSuccess (description : string)
| rollbackGitWorkspace (reason : string)
| sleep (delay : Num).

(** How the call ends: [return result], or [throw e] where [e] may be
    [undefined] ([None]). *)
Inductive Completion :=
| Returns (r : ClaudePromptResultLike)
| Throws (e : option (Js.Error Num)).

(** The fields of [RunWithRetryOptions] the loop reads.  [run_single_attempt]
    and [validate_output] are effectful callbacks: their outcome is given per
    attempt.  [audited] is [session_metadata && agent_name]. *)
Record RunWithRetryOptions := mkOptions {
  description : string;
  audited : bool;
  max_retries : nat;
  run_single_attempt : nat -> Settled ClaudePromptResultLike;
  validate_output : nat -> ClaudePromptResultLike -> Settled bool;
  commit_hash : option string
}.

(** Imported from [../error-handling.js]. *)
Variable isRetryableError : Js.Error Num -> bool.
Variable getRetryDelay : Js.Error Num -> nat -> Num.

Variable options : RunWithRetryOptions.

(** What one iteration of the [for] loop does to the control flow. *)
Inductive Step :=
| NextAttempt (last_error : option (Js.Error Num))
| Finish (c : Completion).

Definition when_audited (evs : list Event) : list Event :=
  if audited options then evs else [].

(** The [catch (error)] block of the iteration. *)
Definition on_catch (attempt : nat) (err : Js.Error Num) : list Event * Step :=
  let audit := when_audited
    [ endAgent {| attemptNumber := attempt;
                  duration_ms := Js.nullish (Js.duration err) 0%Z;
                  cost_usd := Js.nullish (Js.cost err) Js.nzero;
                  end_success := false;
                  end_error := Some (Js.message err);
                  isFinalAttempt := Some (attempt =? max_retries options)%nat;
                  checkpoint := None |} ] in
  if negb (isRetryableError err) then
    (audit ++ [rollbackGitWorkspace "non-retryable error cleanup"],
     Finish (Throws (Some err)))
  else if (attempt <? max_retries options)%nat then
    (audit ++ [rollbackGitWorkspace "retryable error cleanup";
               sleep (getRetryDelay err attempt)],
     NextAttempt (Some err))
  else
    (audit ++ [rollbackGitWorkspace "final failure cleanup"],
     NextAttempt (Some err)).

Definition validation_exhausted_error : Js.Error Num :=
  Js.new_PentestError
    ("Agent " +:+ description options +:+ " failed output validation after "
       +:+ pretty (max_retries options)
       +:+ " attempts. Required deliverable files were not created.")
    "validation" false.

Definition cat {A} (evs : list Event) (r : list Event * A) : list Event * A :=
  (evs ++ fst r, snd r).

(** The body of the [for] loop for one value of [attempt]. *)
Definition attempt_body (attempt : nat) (last_error : option (Js.Error Num))
  : list Event * Step :=
  cat ([createGitCheckpoint (description options) attempt]
         ++ when_audited [startAgent attempt] ++ [runAttempt attempt])
  match run_single_attempt options attempt with
  | Rejects err => on_catch attempt err
  | Resolves r =>
    if success r then
      cat [validateOutput attempt]
      match validate_output options attempt r with
      | Rejects err => on_catch attempt err
      | Resolves true =>
        (when_audited
           [ getGitCommitHash;
             endAgent {| attemptNumber := attempt;
                         duration_ms := duration r;
                         cost_usd := Js.nullish (cost r) Js.nzero;
                         end_success := true;
                         end_error := None;
                         isFinalAttempt := None;
                         checkpoint := commit_hash options |} ]
           ++ [commitGitSuccess (description options)],
         Finish (Returns r))
      | Resolves false =>
        cat (when_audited
           [ endAgent {| attemptNumber := attempt;
                         duration_ms := duration r;
                         cost_usd := Js.nullish (partialCost r)
                                       (Js.nullish (cost r) Js.nzero);
                         end_success := false;
                         end_error := Some "Output validation failed";
                         isFinalAttempt := Some (attempt =? max_retries options)%nat;
                         checkpoint := None |} ])
        (if (attempt <? max_retries options)%nat then
           ([rollbackGitWorkspace "validation failure"],
            NextAttempt (Some
              (if Js.nullish (apiErrorDetected r) false
               then Js.new_Error "API Error: terminated with validation failure"
               else Js.new_Error "Output validation failed")))
         else on_catch attempt validation_exhausted_error)
      end
    else ([], NextAttempt last_error)
  end.

(** [for (let attempt = 1; attempt <= max_retries; attempt++) { ... }]
    followed by [throw last_error]. *)
Fixpoint for_attempts (attempts : list nat) (last_error : option (Js.Error Num))
  : list Event * Completion :=
  match attempts with
  | [] => ([], Throws last_error)
  | attempt :: rest =>
    match attempt_body attempt last_error with
    | (evs, Finish c) => (evs, c)
    | (evs, NextAttempt last_error') => cat evs (for_attempts rest last_error')
    end
  end.

Definition run_claude_prompt_with_retry : list Event * Completion :=
  for_attempts (seq 1 (max_retries options)) None.

(** The two failures of an attempt the handler retries: the runner throws
    an error classified as retryable, or it reports success and the
    validator rejects the output. *)
Definition throws_retryable (attempt : nat) : Prop :=
  exists err, run_single_attempt options attempt = Rejects err
              /\ isRetryableError err = true.

Definition fails_validation (attempt : nat) : Prop :=
  exists r, run_single_attempt options attempt = Resolves r
            /\ success r = true
            /\ validate_output options attempt r = Resolves false.

(** The runner resolves with [success: false]. *)
Definition reports_failure (attempt : nat) : Prop :=
  exists r, run_single_attempt options attempt = Resolves r /\ success r = false.

(** The error of an attempt that failed in one of the two retried ways. *)
Definition attempt_error (attempt : nat) : Js.Error Num :=
  match run_single_attempt options attempt with
  | Js.Rejects err => err
  | Js.Resolves _ => validation_exhausted_error
  end.

End WithCollaborators.

(** Counting effects in a trace. *)
Definition is_checkpoint {Num} (e : @Event Num) : bool :=
  match e with createGitCheckpoint _ _ => true | _ => false end.
Definition is_rollback {Num} (e : @Event Num) : bool :=
  match e with rollbackGitWorkspace _ => true | _ => false end.
Definition is_commit {Num} (e : @Event Num) : bool :=
  match e with commitGitSuccess _ => true | _ => false end.
Definition is_run {Num} (e : @Event Num) : bool :=
  match e with runAttempt _ => true | _ => false end.
Definition is_sleep {Num} (e : @Event Num) : bool :=
  match e with sleep _ => true | _ => false end.

Definition count {Num} (p : @Event Num -> bool) (t : list (@Event Num)) : nat :=
  length (List.filter p t).

(** The back-off delays waited during a run, in order. *)
Definition delays {Num} (t : list (@Event Num)) : list Num :=
  omap (fun e => match e with sleep d => Some d | _ => None end) t.

End RetryHandler.

(** ** [src/temporal/shared.ts], as the workflow and the bridge use it *)

Module Shared.

Inductive Status := running | completed | failed.

#[global] Instance Status_eq_dec : EqDecision Status.
Proof. solve_decision. Defined.

Record AgentMetrics {Num : Type} := mkMetrics {
  durationMs : Z;
  inputTokens : option Z;
  outputTokens : option Z;
  costUsd : option Num;
  numTurns : option Z;
  model : option string
}.
Arguments AgentMetrics : clear implicits.

Record PipelineSummary {Num : Type} := mkSummary {
  totalCostUsd : Num;
  totalDurationMs : Z;
  totalTurns : Z;
  agentCount : nat
}.
Arguments PipelineSummary : clear implicits.

(** A [Record<string, V>] whose keys are agent names: the entries in
    insertion order, which is the order of [Object.values]. *)
Fixpoint assign {V} (key : string) (v : V) (o : list (string * V)) : list (string * V) :=
  match o with
  | [] => [(key, v)]
  | (k, v') :: o' =>
    if decide (k = key) then (k, v) :: o' else (k, v') :: assign key v o'
  end.

(** [PipelineProgress]: the fields of the run state, [workflowId] and
    [elapsedMs]. *)
Record PipelineProgress {Num : Type} := mkProgress {
  status : Status;
  currentPhase : option string;
  currentAgent : option string;
  completedAgents : list string;
  failedAgent : option string;
  error : option string;
  startTime : Z;
  agentMetrics : list (string * AgentMetrics Num);
  summary : option (PipelineSummary Num);
  workflowId : string;
  elapsedMs : Z
}.
Arguments PipelineProgress : clear implicits.

End Shared.

(** ** [src/temporal/workflows.ts]

    Activities are called through the proxy, which retries them by its own
    policy: the outcome of an activity below is what the proxy finally
    resolves or rejects with.  A thrown value is an [Error]. *)

Module Workflows.

Export Shared(Status, running, completed, failed).

Inductive VulnType := injection | xss | auth | ssrf | authz.

#[global] Instance VulnType_eq_dec : EqDecision VulnType.
Proof. solve_decision. Defined.

Definition vulnTypes : list VulnType := [injection; xss; auth; ssrf; authz].

Definition vulnType_name (v : VulnType) : string :=
  match v with
  | injection => "injection"
  | xss => "xss"
  | auth => "auth"
  | ssrf => "ssrf"
  | authz => "authz"
  end.

Section WithNumbers.

Context {Num : Type} `{Js.Number Num}.

Abbreviation Settled := (Js.Settled Num).
Abbreviation Resolves := Js.Resolves.
Abbreviation Rejects := Js.Rejects.
Abbreviation AgentMetrics := (Shared.AgentMetrics Num).
Abbreviation PipelineSummary := (Shared.PipelineSummary Num).

Record PipelineState := mkState {
  status : Status;
  currentPhase : option string;
  currentAgent : option string;
  completedAgents : list string;
  failedAgent : option string;
  error : option string;
  startTime : Z;
  agentMetrics : list (string * AgentMetrics);
  summary : option PipelineSummary
}.

(** Assignments to the fields of the shared [state] object. *)
Definition set_status (v : Status) (s : PipelineState) : PipelineState :=
  mkState v (currentPhase s) (currentAgent s) (completedAgents s) (failedAgent s)
    (error s) (startTime s) (agentMetrics s) (summary s).
Definition set_currentPhase (v : option string) (s : PipelineState) : PipelineState :=
  mkState (status s) v (currentAgent s) (completedAgents s) (failedAgent s)
    (error s) (startTime s) (agentMetrics s) (summary s).
Definition set_currentAgent (v : option string) (s : PipelineState) : PipelineState :=
  mkState (status s) (currentPhase s) v (completedAgents s) (failedAgent s)
    (error s) (startTime s) (agentMetrics s) (summary s).
Definition push_completedAgents (name : string) (s : PipelineState) : PipelineState :=
  mkState (status s) (currentPhase s) (currentAgent s) (completedAgents s ++ [name])
    (failedAgent s) (error s) (startTime s) (agentMetrics s) (summary s).
Definition set_failedAgent (v : option string) (s : PipelineState) : PipelineState :=
  mkState (status s) (currentPhase s) (currentAgent s) (completedAgents s) v
    (error s) (startTime s) (agentMetrics s) (summary s).
Definition set_error (v : option string) (s : PipelineState) : PipelineState :=
  mkState (status s) (currentPhase s) (currentAgent s) (completedAgents s) (failedAgent s)
    v (startTime s) (agentMetrics s) (summary s).
Definition set_agentMetrics (name : string) (m : AgentMetrics) (s : PipelineState)
  : PipelineState :=
  mkState (status s) (currentPhase s) (currentAgent s) (completedAgents s) (failedAgent s)
    (error s) (startTime s) (Shared.assign name m (agentMetrics s)) (summary s).
Definition set_summary (v : option PipelineSummary) (s : PipelineState) : PipelineState :=
  mkState (status s) (currentPhase s) (currentAgent s) (completedAgents s) (failedAgent s)
    (error s) (startTime s) (agentMetrics s) v.

(** [computeSummary]; [now] is the value of [Date.now()]. *)
Definition computeSummary (now : Z) (state : PipelineState) : PipelineSummary :=
  let metrics := map snd (agentMetrics state) in
  {| Shared.totalCostUsd :=
       fold_left (fun sum m => Js.nadd sum (Js.nullish (Shared.costUsd m) Js.nzero))
         metrics Js.nzero;
     Shared.totalDurationMs := (now - startTime state)%Z;
     Shared.totalTurns :=
       fold_left (fun sum m => (sum + Js.nullish (Shared.numTurns m) 0)%Z) metrics 0%Z;
     Shared.agentCount := length (completedAgents state) |}.

Record ExploitationDecision := mkDecision {
  shouldExploit : bool;
  vulnerabilityCount : Z
}.

Record VulnExploitPipelineResult := mkPipelineResult {
  vulnType : VulnType;
  vulnMetrics : AgentMetrics;
  exploitMetrics : option AgentMetrics;
  exploitDecision : ExploitationDecision;
  pipeline_error : option string
}.

(** The argument of [logWorkflowComplete], built by [build_workflow_summary]. *)
Record WorkflowSummary := mkWorkflowSummary {
  ws_status : Status;
  ws_totalDurationMs : Z;
  ws_totalCostUsd : Num;
  ws_completedAgents : list string;
  ws_agentMetrics : list (string * (Z * option Num));
  ws_error : option string
}.

(** The activities of the proxy [a], indexed by what they resolve to.  The
    five [run*VulnAgent] and the five [run*ExploitAgent] activities are
    [runVulnAgent] and [runExploitAgent] at the five vulnerability types. *)
Inductive Activity : Type -> Type :=
| logPhaseTransition (phase event : string) : Activity unit
| runPreReconAgent : Activity AgentMetrics
| runReconAgent : Activity AgentMetrics
| runVulnAgent (v : VulnType) : Activity AgentMetrics
| checkExploitationQueue (v : VulnType) : Activity ExploitationDecision
| runExploitAgent (v : VulnType) : Activity AgentMetrics
| assembleReportActivity : Activity unit
| runReportAgent : Activity AgentMetrics
| injectReportMetadataActivity : Activity unit
| logWorkflowComplete (summary : WorkflowSummary) : Activity unit.

Definition Call : Type := sigT Activity.
Definition call {T} (a : Activity T) : Call := existT T a.

(** The three places where the workflow reads [Date.now()]. *)
Inductive ClockRead := AtStart | AtCompleted | AtFailed.

(** What the workflow does not decide: how each activity settles (after the
    proxy's own retries), what the clock reads, and the order in which the
    pending activities of the parallel phase settle. *)
Record Env := mkEnv {
  outcome : forall T, Activity T -> Settled T;
  now : ClockRead -> Z;
  schedule : list VulnType
}.

(** The run as the workflow sees it: the [state] object, the snapshots of
    [state] at every point where the workflow is suspended (the points at which
    the query handler can run), the activities invoked so far, and the
    failure lists printed by the parallel phase.  A snapshot is taken at
    every [await] and after every resumption of a sub-pipeline, so
    [suspended] holds every state a query can see (and, where several
    completions reach the workflow in one batch, some it cannot). *)
Record World := mkWorld {
  state : PipelineState;
  suspended : list PipelineState;
  calls : list Call;
  warnings : list (list string)
}.

(** *** The workflow as a computation over [World] *)

Variable env : Env.

Definition M (A : Type) : Type := World -> World * Settled A.

#[global] Instance M_ret : MRet M := fun A a w => (w, Resolves a).

#[global] Instance M_bind : MBind M := fun A B k m w =>
  match m w with
  | (w', Js.Resolves a) => k a w'
  | (w', Js.Rejects e) => (w', Rejects e)
  end.

Definition throw {A} (e : Js.Error Num) : M A := fun w => (w, Rejects e).

(** [try { body } catch (error) { handler }] *)
Definition try_catch {A} (body : M A) (handler : Js.Error Num -> M A) : M A :=
  fun w =>
    match body w with
    | (w', Js.Rejects e) => handler e w'
    | r => r
    end.

Definition get : M PipelineState := fun w => (w, Resolves (state w)).

Definition update (f : PipelineState -> PipelineState) : M unit :=
  fun w => (mkWorld (f (state w)) (suspended w) (calls w) (warnings w), Resolves tt).

(** Starting an activity. *)
Definition invoke {T} (a : Activity T) : M unit :=
  fun w => (mkWorld (state w) (suspended w) (calls w ++ [call a]) (warnings w), Resolves tt).

(** The workflow yields: [state] is what a query sees until it resumes. *)
Definition suspend : M unit :=
  fun w => (mkWorld (state w) (suspended w ++ [state w]) (calls w) (warnings w), Resolves tt).

(** The pending activity settles. *)
Definition settle {T} (a : Activity T) : M T := fun w => (w, outcome env T a).

(** [await a.activity(...)] *)
Definition await {T} (a : Activity T) : M T :=
  invoke a ;; suspend ;; settle a.

Definition warn (failedPipelines : list string) : M unit :=
  fun w => (mkWorld (state w) (suspended w) (calls w) (warnings w ++ [failedPipelines]),
            Resolves tt).

Definition execute_pre_recon_phase : M unit :=
  update (set_currentPhase (Some "pre-recon")) ;;
  update (set_currentAgent (Some "pre-recon")) ;;
  await (logPhaseTransition "pre-recon" "start") ;;
  m ← await runPreReconAgent;
  update (set_agentMetrics "pre-recon" m) ;;
  update (push_completedAgents "pre-recon") ;;
  await (logPhaseTransition "pre-recon" "complete").

Definition execute_recon_phase : M unit :=
  update (set_currentPhase (Some "recon")) ;;
  update (set_currentAgent (Some "recon")) ;;
  await (logPhaseTransition "recon" "start") ;;
  m ← await runReconAgent;
  update (set_agentMetrics "recon" m) ;;
  update (push_completedAgents "recon") ;;
  await (logPhaseTransition "recon" "complete").

(** A call of [run_vuln_exploit_pipeline] between two resumptions: the
    activity it awaits, or how its promise settled. *)
Inductive Pipeline :=
| AwaitVuln
| AwaitQueue (vulnMetrics : AgentMetrics)
| AwaitExploit (vulnMetrics : AgentMetrics) (decision : ExploitationDecision)
| Done (r : Settled VulnExploitPipelineResult).

Definition pipeline_result (v : VulnType) (vulnMetrics : AgentMetrics)
  (exploitMetrics : option AgentMetrics) (decision : ExploitationDecision)
  : VulnExploitPipelineResult :=
  {| vulnType := v;
     vulnMetrics := vulnMetrics;
     exploitMetrics := exploitMetrics;
     exploitDecision := {| shouldExploit := shouldExploit decision;
                           vulnerabilityCount := vulnerabilityCount decision |};
     pipeline_error := None |}.

(** [run_vuln_exploit_pipeline] from the activity it awaits to its next
    [await] or to its end.  A rejection settles the pipeline's own promise
    and is not thrown into the workflow. *)
Definition resume (v : VulnType) (p : Pipeline) : M Pipeline :=
  match p with
  | AwaitVuln =>
    match outcome env _ (runVulnAgent v) with
    | Js.Rejects e => suspend ;; mret (Done (Rejects e))
    | Js.Resolves vulnMetrics =>
      update (set_agentMetrics (vulnType_name v +:+ "-vuln") vulnMetrics) ;;
      update (push_completedAgents (vulnType_name v +:+ "-vuln")) ;;
      invoke (checkExploitationQueue v) ;;
      suspend ;;
      mret (AwaitQueue vulnMetrics)
    end
  | AwaitQueue vulnMetrics =>
    match outcome env _ (checkExploitationQueue v) with
    | Js.Rejects e => suspend ;; mret (Done (Rejects e))
    | Js.Resolves decision =>
      if shouldExploit decision then
        invoke (runExploitAgent v) ;;
        suspend ;;
        mret (AwaitExploit vulnMetrics decision)
      else
        suspend ;;
        mret (Done (Resolves (pipeline_result v vulnMetrics None decision)))
    end
  | AwaitExploit vulnMetrics decision =>
    match outcome env _ (runExploitAgent v) with
    | Js.Rejects e => suspend ;; mret (Done (Rejects e))
    | Js.Resolves exploitMetrics =>
      update (set_agentMetrics (vulnType_name v +:+ "-exploit") exploitMetrics) ;;
      update (push_completedAgents (vulnType_name v +:+ "-exploit")) ;;
      suspend ;;
      mret (Done (Resolves
        (pipeline_result v vulnMetrics (Some exploitMetrics) decision)))
    end
  | Done r => mret (Done r)
  end.

Definition Pipelines : Type := VulnType -> Pipeline.

Definition set_pipeline (v : VulnType) (p : Pipeline) (ps : Pipelines) : Pipelines :=
  fun v' => if decide (v' = v) then p else ps v'.

(** The five calls in the array literal: each runs to its first [await]. *)
Definition launch : M Pipelines :=
  invoke (runVulnAgent injection) ;;
  invoke (runVulnAgent xss) ;;
  invoke (runVulnAgent auth) ;;
  invoke (runVulnAgent ssrf) ;;
  invoke (runVulnAgent authz) ;;
  suspend ;;
  mret (fun _ => AwaitVuln).

Fixpoint resume_each (order : list VulnType) (ps : Pipelines) : M Pipelines :=
  match order with
  | [] => mret ps
  | v :: rest =>
    p ← resume v (ps v);
    resume_each rest (set_pipeline v p ps)
  end.

(** The pipelines are resumed in the order in which their activities settle,
    [schedule env]; an entry for a finished pipeline changes nothing.  Every
    pending activity settles eventually: three more rounds over the five
    pipelines finish whatever the schedule left pending. *)
Definition settlement_order : list VulnType :=
  schedule env ++ vulnTypes ++ vulnTypes ++ vulnTypes.

(** The elements of the array [Promise.allSettled] resolves to. *)
Definition pipelineResults (ps : Pipelines) : list (Settled VulnExploitPipelineResult) :=
  omap (fun v => match ps v with Done r => Some r | _ => None end) vulnTypes.

(** [await Promise.allSettled([...])] *)
Definition allSettled : M (list (Settled VulnExploitPipelineResult)) :=
  ps ← launch;
  ps' ← resume_each settlement_order ps;
  mret (pipelineResults ps').

Definition failedPipelines (results : list (Settled VulnExploitPipelineResult))
  : list string :=
  omap (fun r => match r with
                 | Js.Rejects e => Some (Js.message e)
                 | Js.Resolves _ => None
                 end) results.

Definition execute_vulnerability_exploitation_phase : M unit :=
  update (set_currentPhase (Some "vulnerability-exploitation")) ;;
  update (set_currentAgent (Some "pipelines")) ;;
  await (logPhaseTransition "vulnerability-exploitation" "start") ;;
  results ← allSettled;
  (if (0 <? length (failedPipelines results))%nat
   then warn (failedPipelines results) else mret tt) ;;
  update (set_currentPhase (Some "exploitation")) ;;
  update (set_currentAgent None) ;;
  await (logPhaseTransition "vulnerability-exploitation" "complete").

Definition execute_reporting_phase : M unit :=
  update (set_currentPhase (Some "reporting")) ;;
  update (set_currentAgent (Some "report")) ;;
  await (logPhaseTransition "reporting" "start") ;;
  await assembleReportActivity ;;
  m ← await runReportAgent;
  update (set_agentMetrics "report" m) ;;
  update (push_completedAgents "report") ;;
  await injectReportMetadataActivity ;;
  await (logPhaseTransition "reporting" "complete").

(** [build_workflow_summary]: [state.summary!] throws a [TypeError] when the
    summary is [null]. *)
Definition build_workflow_summary (st : PipelineState) (status : Status)
  (error : option string) : M WorkflowSummary :=
  match summary st with
  | None => throw (Js.new_Error "Cannot read properties of null")
  | Some sm =>
    mret {| ws_status := status;
            ws_totalDurationMs := Shared.totalDurationMs sm;
            ws_totalCostUsd := Shared.totalCostUsd sm;
            ws_completedAgents := completedAgents st;
            ws_agentMetrics :=
              map (fun '(name, m) => (name, (Shared.durationMs m, Shared.costUsd m)))
                (agentMetrics st);
            ws_error := error |}
  end.

Definition initial_state : PipelineState :=
  {| status := running;
     currentPhase := None;
     currentAgent := None;
     completedAgents := [];
     failedAgent := None;
     error := None;
     startTime := now env AtStart;
     agentMetrics := [];
     summary := None |}.

(** The [try] block of [pentestPipelineWorkflow]. *)
Definition run_phases : M unit :=
  execute_pre_recon_phase ;;
  execute_recon_phase ;;
  execute_vulnerability_exploitation_phase ;;
  execute_reporting_phase.

Definition complete_run : M PipelineState :=
  update (set_status completed) ;;
  update (set_currentPhase None) ;;
  update (set_currentAgent None) ;;
  update (fun st => set_summary (Some (computeSummary (now env AtCompleted) st)) st) ;;
  st ← get;
  ws ← build_workflow_summary st completed None;
  await (logWorkflowComplete ws) ;;
  get.

(** The [catch (error)] block of [pentestPipelineWorkflow]. *)
Definition fail_run (err : Js.Error Num) : M PipelineState :=
  update (set_status failed) ;;
  update (fun st => set_failedAgent (currentAgent st) st) ;;
  update (set_error (Some (Js.message err))) ;;
  update (fun st => set_summary (Some (computeSummary (now env AtFailed) st)) st) ;;
  st ← get;
  ws ← build_workflow_summary st failed (error st);
  await (logWorkflowComplete ws) ;;
  throw err.

Definition initial_world : World :=
  {| state := initial_state; suspended := []; calls := []; warnings := [] |}.

(** [pentestPipelineWorkflow]: the world at the end of the run and how the
    workflow's promise settles. *)
Definition pentestPipelineWorkflow : World * Settled PipelineState :=
  try_catch (run_phases ;; complete_run) fail_run initial_world.

(** What a sub-pipeline's promise settles to, read off the activities'
    outcomes: primary unit, gating decision, conditional unit. *)
Definition pipeline_outcome (v : VulnType) : Settled VulnExploitPipelineResult :=
  match outcome env _ (runVulnAgent v) with
  | Js.Rejects e => Rejects e
  | Js.Resolves vulnMetrics =>
    match outcome env _ (checkExploitationQueue v) with
    | Js.Rejects e => Rejects e
    | Js.Resolves decision =>
      if shouldExploit decision then
        match outcome env _ (runExploitAgent v) with
        | Js.Rejects e => Rejects e
        | Js.Resolves exploitMetrics =>
          Resolves (pipeline_result v vulnMetrics (Some exploitMetrics) decision)
        end
      else Resolves (pipeline_result v vulnMetrics None decision)
    end
  end.

(** The run-state invariant of the data model. *)
Definition summary_iff_terminal (st : PipelineState) : Prop :=
  summary st <> None <-> status st <> running.

(** The run has not reached a terminal transition, and nothing a query
    could see so far breaks the invariant. *)
Definition still_running (w : World) : Prop :=
  status (state w) = running /\ summary (state w) = None
  /\ Forall summary_iff_terminal (suspended w).

(** The phases that run one unit at a time. *)
Definition ordered_phase (phase : option string) : Prop :=
  phase = Some "pre-recon" \/ phase = Some "recon" \/ phase = Some "reporting".

(** The unit an ordered phase runs. *)
Definition unit_of_phase (phase : option string) : option string :=
  if decide (phase = Some "reporting") then Some "report" else phase.

(** While an ordered phase is current, the current agent is its unit. *)
Definition unit_in_progress (w : World) : Prop :=
  ordered_phase (currentPhase (state w)) ->
  currentAgent (state w) = unit_of_phase (currentPhase (state w)).

(** How far a sub-pipeline is from its end, in resumptions. *)
Definition rank (p : Pipeline) : nat :=
  match p with
  | AwaitVuln => 3
  | AwaitQueue _ => 2
  | AwaitExploit _ _ => 1
  | Done _ => 0
  end.

(** [p] is a point on the way of sub-pipeline [v] to [pipeline_outcome v]. *)
Definition on_track (v : VulnType) (p : Pipeline) : Prop :=
  match p with
  | AwaitVuln => True
  | AwaitQueue vulnMetrics => outcome env _ (runVulnAgent v) = Resolves vulnMetrics
  | AwaitExploit vulnMetrics decision =>
    outcome env _ (runVulnAgent v) = Resolves vulnMetrics
    /\ outcome env _ (checkExploitationQueue v) = Resolves decision
    /\ shouldExploit decision = true
  | Done r => r = pipeline_outcome v
  end.

(** The units sub-pipeline [v] has finished by point [p] are listed in
    [completedAgents]. *)
Definition recorded (v : VulnType) (p : Pipeline) (st : PipelineState) : Prop :=
  match p with
  | AwaitVuln | Done (Js.Rejects _) => True
  | AwaitQueue _ | AwaitExploit _ _ =>
    In (vulnType_name v +:+ "-vuln") (completedAgents st)
  | Done (Js.Resolves r) =>
    In (vulnType_name v +:+ "-vuln") (completedAgents st)
    /\ (is_Some (exploitMetrics r) ->
        In (vulnType_name v +:+ "-exploit") (completedAgents st))
  end.

(** [w] with [f] applied to the state object. *)
Definition with_state (f : PipelineState -> PipelineState) (w : World) : World :=
  mkWorld (f (state w)) (suspended w) (calls w) (warnings w).

(** A property of the world that [m] keeps, however [m] ends. *)
Definition keeps {A} (I : World -> Prop) (m : M A) : Prop :=
  forall w, I w -> I (fst (m w)).

(** The handler [setHandler(getProgress, ...)] installs, called when the
    clock reads [now]. *)
Definition getProgress (workflowId : string) (now : Z) (st : PipelineState)
  : Shared.PipelineProgress Num :=
  {| Shared.status := status st;
     Shared.currentPhase := currentPhase st;
     Shared.currentAgent := currentAgent st;
     Shared.completedAgents := completedAgents st;
     Shared.failedAgent := failedAgent st;
     Shared.error := error st;
     Shared.startTime := startTime st;
     Shared.agentMetrics := agentMetrics st;
     Shared.summary := summary st;
     Shared.workflowId := workflowId;
     Shared.elapsedMs := (now - startTime st)%Z |}.

(** The names under which the two units of a sub-pipeline are recorded, and
    the thirteen units of a run. *)
Definition vuln_unit (v : VulnType) : string := vulnType_name v +:+ "-vuln".
Definition exploit_unit (v : VulnType) : string := vulnType_name v +:+ "-exploit".

Definition units : list string :=
  ["pre-recon"; "recon"] ++ map vuln_unit vulnTypes ++ map exploit_unit vulnTypes
    ++ ["report"].

(** The bookkeeping of finished units in a state: no unit is listed twice,
    the metrics are keyed by the finished units in the order in which they
    finished, and only units of the pipeline are listed. *)
Definition well_kept (st : PipelineState) : Prop :=
  NoDup (completedAgents st)
  /\ map fst (agentMetrics st) = completedAgents st
  /\ Forall (fun name => In name units) (completedAgents st).

(** Every state of the run a query can see, oldest first, and the state at
    the end. *)
Definition observable (w : World) : list PipelineState :=
  suspended w ++ [state w].

(** The activities behind a unit have resolved: the agent of the unit, and,
    for the conditional unit of a sub-pipeline, the primary unit and the
    gating decision before it. *)
Definition vuln_done (v : VulnType) : Prop :=
  exists m, outcome env _ (runVulnAgent v) = Resolves m.

Definition exploit_done (v : VulnType) : Prop :=
  exists m d em,
    outcome env _ (runVulnAgent v) = Resolves m
    /\ outcome env _ (checkExploitationQueue v) = Resolves d
    /\ shouldExploit d = true
    /\ outcome env _ (runExploitAgent v) = Resolves em.

Definition done_unit (name : string) : Prop :=
  (name = "pre-recon" /\ exists m, outcome env _ runPreReconAgent = Resolves m)
  \/ (name = "recon" /\ exists m, outcome env _ runReconAgent = Resolves m)
  \/ (name = "report" /\ exists m, outcome env _ runReportAgent = Resolves m)
  \/ (exists v, name = vuln_unit v /\ vuln_done v)
  \/ (exists v, name = exploit_unit v /\ exploit_done v).

(** The state lists exactly [l] as finished, with metrics for each, and
    every state a query could see so far is well kept. *)
Definition kept_as (l : list string) (w : World) : Prop :=
  NoDup l
  /\ Forall done_unit l
  /\ completedAgents (state w) = l
  /\ map fst (agentMetrics (state w)) = l
  /\ Forall (fun st => well_kept st /\ Forall done_unit (completedAgents st)) (suspended w).

Definition kept (w : World) : Prop := exists l, kept_as l w.

(** The units the sub-pipelines have recorded when they stand at [ps]. *)
Definition pipeline_unit_of (ps : Pipelines) (name : string) : Prop :=
  (exists v, name = vuln_unit v /\ ps v <> AwaitVuln /\ vuln_done v)
  \/ (exists v, name = exploit_unit v /\ rank (ps v) = 0 /\ exploit_done v).

(** The activity resolves; the activity has been started in [w]. *)
Definition resolved {T} (a : Activity T) : Prop :=
  exists t, outcome env _ a = Resolves t.

Definition started (w : World) {T} (a : Activity T) : Prop :=
  In (call a) (calls w).

(** What an activity waits for: the activities that must have resolved
    before the workflow starts it. *)
Definition justified (c : Call) : Prop :=
  match projT2 c with
  | runReconAgent => exists m, outcome env _ runPreReconAgent = Resolves m
  | runVulnAgent _ | assembleReportActivity =>
    (exists m, outcome env _ runPreReconAgent = Resolves m)
    /\ (exists m, outcome env _ runReconAgent = Resolves m)
  | checkExploitationQueue v => vuln_done v
  | runExploitAgent v =>
    exists m d,
      outcome env _ (runVulnAgent v) = Resolves m
      /\ outcome env _ (checkExploitationQueue v) = Resolves d
      /\ shouldExploit d = true
  | runReportAgent => exists u, outcome env _ assembleReportActivity = Resolves u
  | injectReportMetadataActivity => exists m, outcome env _ runReportAgent = Resolves m
  | _ => True
  end.

(** Every activity started so far was started in its turn. *)
Definition gated (w : World) : Prop := Forall justified (calls w).

(** The agents a failure can be put down to. *)
Definition phase_units : list (option string) :=
  [None; Some "pre-recon"; Some "recon"; Some "pipelines"; Some "report"].

(** What the sub-pipelines have recorded once all have settled. *)
Definition settled_units (ls : list string) : Prop :=
  forall name, In name ls <->
    (exists v, name = vuln_unit v /\ vuln_done v)
    \/ (exists v, name = exploit_unit v /\ exploit_done v).

(** [m] run from a world where [P] holds leaves [Q a] if it resolves with
    [a] and [R] if it rejects. *)
Definition leads {A} (P : World -> Prop) (m : M A) (Q : A -> World -> Prop)
  (R : World -> Prop) : Prop :=
  forall w, P w ->
    match m w with
    | (w', Js.Resolves a) => Q a w'
    | (w', Js.Rejects _) => R w'
    end.

(** The lists of finished units in the states seen so far and in the
    current state. *)
Definition history (w : World) : list (list string) :=
  map completedAgents (suspended w) ++ [completedAgents (state w)].

(** The lists of finished units a query has seen are in ascending order
    when each is a prefix of all that come after it. *)
Definition ascending (lists : list (list string)) : Prop :=
  forall i j a b, i <= j -> lists !! i = Some a -> lists !! j = Some b -> a `prefix_of` b.

End WithNumbers.

End Workflows.

(** ** [ui/temporal_bridge.ts] *)

Module TemporalBridge.

Export Shared(Status, running, completed, failed).

Section WithNumbers.

Context {Num : Type}.

Abbreviation Settled := (Js.Settled Num).
Abbreviation Resolves := Js.Resolves.
Abbreviation Rejects := Js.Rejects.
Abbreviation PipelineProgress := (Shared.PipelineProgress Num).

(** What [handle.describe()] resolves to, as far as [getProgress] reads it:
    [description.status?.name] and [description.startTime?.getTime()]. *)
Record WorkflowDescription := mkDescription {
  status_name : option string;
  startTime : option Z
}.

Definition to_progress_status (status_name : option string) : Status :=
  let normalized_status := Js.toUpperCase (Js.nullish status_name "") in
  if decide (normalized_status = "RUNNING") then running
  else if decide (normalized_status = "COMPLETED") then completed
  else failed.

Definition is_query_unavailable_error (error : Js.Error Num) : bool :=
  let normalized_message := Js.toLowerCase (Js.message error) in
  Js.includes normalized_message "failed_precondition"
  || Js.includes normalized_message "failed to query workflow"
  || Js.includes normalized_message "workflow task in failed state"
  || Js.includes normalized_message "no poller seen for task queue recently".

(** [`Workflow is ${description.status?.name?.toLowerCase() || 'not running'}`] *)
Definition reconciliation_note (description : WorkflowDescription) : string :=
  "Workflow is " +:+
  match status_name description with
  | None => "not running"
  | Some name =>
    if decide (Js.toLowerCase name = "") then "not running" else Js.toLowerCase name
  end.

(** The object literal [{ ...progress, status, startTime, elapsedMs, error }]. *)
Definition reconciled (progress : PipelineProgress) (description : WorkflowDescription)
  (now : Z) : PipelineProgress :=
  let runtime_status := to_progress_status (status_name description) in
  let start_time_ms := Js.nullish (startTime description) (Shared.startTime progress) in
  {| Shared.status := runtime_status;
     Shared.currentPhase := Shared.currentPhase progress;
     Shared.currentAgent := Shared.currentAgent progress;
     Shared.completedAgents := Shared.completedAgents progress;
     Shared.failedAgent := Shared.failedAgent progress;
     Shared.error :=
       Some (Js.nullish (Shared.error progress) (reconciliation_note description));
     Shared.startTime := start_time_ms;
     Shared.agentMetrics := Shared.agentMetrics progress;
     Shared.summary := Shared.summary progress;
     Shared.workflowId := Shared.workflowId progress;
     Shared.elapsedMs :=
       Z.max (Shared.elapsedMs progress) (Z.max 0 (now - start_time_ms)) |}.

(** The snapshot built from [describe()] alone when the query is unavailable;
    [now] and [now'] are the two successive reads of [Date.now()]. *)
Definition fallback (workflowId : string) (error : Js.Error Num)
  (description : WorkflowDescription) (now now' : Z) : PipelineProgress :=
  let start_time_ms := Js.nullish (startTime description) now in
  let status := to_progress_status (status_name description) in
  {| Shared.status := status;
     Shared.currentPhase := None;
     Shared.currentAgent := None;
     Shared.completedAgents := [];
     Shared.failedAgent := None;
     Shared.error :=
       if decide (status = running) then None
       else Some ("Workflow query unavailable: " +:+ Js.message error);
     Shared.startTime := start_time_ms;
     Shared.agentMetrics := [];
     Shared.summary := None;
     Shared.workflowId := workflowId;
     Shared.elapsedMs := Z.max 0 (now' - start_time_ms) |}.

(** What the Temporal client answers during one call of [getProgress]. *)
Record Temporal := mkTemporal {
  connect : Settled unit;
  query : Settled PipelineProgress;
  describe : Settled WorkflowDescription;
  now : Z;
  now' : Z
}.

(** [TemporalBridge.getProgress] *)
Definition getProgress (t : Temporal) (workflowId : string) : Settled PipelineProgress :=
  match connect t with
  | Js.Rejects e => Rejects e
  | Js.Resolves _ =>
    match query t with
    | Js.Resolves progress =>
      match describe t with
      | Js.Resolves description =>
        if decide (to_progress_status (status_name description) <> running)
        then Resolves (reconciled progress description (now t))
        else Resolves progress
      | Js.Rejects _ => Resolves progress
      end
    | Js.Rejects error =>
      if is_query_unavailable_error error then
        match describe t with
        | Js.Resolves description =>
          Resolves (fallback workflowId error description (now t) (now' t))
        | Js.Rejects _ => Rejects error
        end
      else Rejects error
    end
  end.

(** [TemporalBridge.listWorkflows] *)

(** An element of the array [listWorkflows] resolves to. *)
Record WorkflowInfo := mkWorkflowInfo {
  info_workflowId : string;
  info_status : string;
  info_startTime : Z
}.

(** What the async iterator of [client.workflow.list] does: the workflows it
    yields, in order, and the error it throws after them if the listing
    breaks off. *)
Record Listing := mkListing {
  yielded : list WorkflowInfo;
  breaks_off : option (Js.Error Num)
}.

(** The [for await] loop, entered with [results] collected so far; [limit] is
    [None] when it is [NaN]. *)
Fixpoint collect (limit : option Z) (results rest : list WorkflowInfo)
  (breaks_off : option (Js.Error Num)) : Settled (list WorkflowInfo) :=
  match rest with
  | [] =>
    match breaks_off with
    | Some e => Rejects e
    | None => Resolves results
    end
  | workflow :: rest' =>
    let results' := results ++ [workflow] in
    if match limit with
       | Some n => (n <=? Z.of_nat (length results'))%Z
       | None => false
       end
    then Resolves results'
    else collect limit results' rest' breaks_off
  end.

(** All that is yielded, unless the listing breaks off. *)
Definition all_or_error (listing : Listing) : Settled (list WorkflowInfo) :=
  match breaks_off listing with
  | Some e => Rejects e
  | None => Resolves (yielded listing)
  end.

Definition listWorkflows (connect : Settled unit) (listing : Listing) (limit : option Z)
  : Settled (list WorkflowInfo) :=
  match connect with
  | Js.Rejects e => Rejects e
  | Js.Resolves _ => collect limit [] (yielded listing) (breaks_off listing)
  end.

End WithNumbers.

End TemporalBridge.

(** ** [ui/ws_server.ts]

    [ws.send] is assumed not to throw, and what [temporal.getProgress]
    rejects with is an [Error].  A WebSocket is identified by a number; the
    messages the server sends are collected in program order. *)

Module WsServer.

Export Shared(Status, running, completed, failed).

#[global] Instance byte_eq_decision : EqDecision byte := byte_eq_dec.

(** The byte ['\n']. *)
Definition newline : byte := x0a.

(** [text.split('\n')] on the bytes of the text: never empty. *)
Fixpoint split_newline (text : list byte) : list (list byte) :=
  match text with
  | [] => [[]]
  | c :: text' =>
    if decide (c = newline) then [] :: split_newline text'
    else match split_newline text' with
         | line :: lines => (c :: line) :: lines
         | [] => [[c]]
         end
  end.

(** The newline-terminated lines of a text, and the bytes after its last
    newline. *)
Definition complete_lines (text : list byte) : list (list byte) :=
  removelast (split_newline text).

Definition pending (text : list byte) : list byte :=
  List.last (split_newline text) [].

Section WithNumbers.

Context {Num : Type}.

Abbreviation Settled := (Js.Settled Num).
Abbreviation PipelineProgress := (Shared.PipelineProgress Num).

Record ClientSubscription := mkSubscription {
  ws : nat;
  workflowId : string;
  lastProgress : option PipelineProgress;
  logPosition : nat
}.

Record PollError := mkPollError {
  message : string;
  timestampMs : Z
}.

(** The fields of [ShannonWebSocketServer] that change.  A [Set] of
    subscriptions is the list of its elements in insertion order.

    [pollIntervals] is the [Map] of that name: a run has an entry when a
    timer handle is on record for it, and the entry holds the delay that
    timer was set with.  The timers of the event loop themselves are not
    part of the state.  The [Map] keeps one handle per run, the last one
    set: when [subscribe] starts a poll loop while a poll of the run is
    still in flight, each loop sets timers of its own and their handles
    overwrite each other, so a run without an entry can still have a timer
    armed, and [stopPolling] clears none but the one on record. *)
Record Server := mkServer {
  subscriptions : gmap string (list ClientSubscription);
  pollIntervals : gmap string Z;
  lastPollErrors : gmap string PollError
}.

Definition pollInterval : Z := 5000.
Definition pollErrorBackoff : Z := 10000.

Inductive Message :=
| subscribed (workflowId : string)
| unsubscribed (workflowId : string)
| phase_change (phase agent : option string)
| progress (data : PipelineProgress)
| log (line : list byte)
| complete_or_failed (status : Status) (workflowId : string) (error : option string)
| error (message : string).

(** A message and the socket it is sent on. *)
Definition Sent : Type := nat * Message.

Definition with_subscriptions (v : gmap string (list ClientSubscription)) (srv : Server)
  : Server := mkServer v (pollIntervals srv) (lastPollErrors srv).
Definition with_pollIntervals (v : gmap string Z) (srv : Server) : Server :=
  mkServer (subscriptions srv) v (lastPollErrors srv).
Definition with_lastPollErrors (v : gmap string PollError) (srv : Server) : Server :=
  mkServer (subscriptions srv) (pollIntervals srv) v.

(** [stopPolling]: the handle on record is cleared and taken off the
    record, with the recorded polling error. *)
Definition stopPolling (workflowId : string) (srv : Server) : Server :=
  mkServer (subscriptions srv) (delete workflowId (pollIntervals srv))
    (delete workflowId (lastPollErrors srv)).

(** [subscribe]: the flag tells whether [startPolling] was called, which is
    when no handle is on record for the run, whether or not one of its
    polls is in flight. *)
Definition subscribe (socket : nat) (workflowId : string) (srv : Server)
  : Server * bool * list Sent :=
  let subscription :=
    {| ws := socket; workflowId := workflowId; lastProgress := None; logPosition := 0 |} in
  let subs := Js.nullish (subscriptions srv !! workflowId) [] in
  (with_subscriptions (<[workflowId := subs ++ [subscription]]> (subscriptions srv)) srv,
   bool_decide (pollIntervals srv !! workflowId = None),
   [(socket, subscribed workflowId)]).

(** [subs.delete(sub)] for the first subscription of the socket. *)
Fixpoint delete_first (socket : nat) (subs : list ClientSubscription)
  : list ClientSubscription :=
  match subs with
  | [] => []
  | sub :: subs' =>
    if decide (ws sub = socket) then subs' else sub :: delete_first socket subs'
  end.

Definition unsubscribe (socket : nat) (workflowId : string) (srv : Server)
  : Server * list Sent :=
  (match subscriptions srv !! workflowId with
   | None => srv
   | Some subs =>
     match delete_first socket subs with
     | [] => with_subscriptions (delete workflowId (subscriptions srv))
               (stopPolling workflowId srv)
     | subs' => with_subscriptions (<[workflowId := subs']> (subscriptions srv)) srv
     end
   end,
   [(socket, unsubscribed workflowId)]).

(** [shouldBroadcastPollingError], with [now] the value of [Date.now()]. *)
Definition shouldBroadcastPollingError (workflowId : string) (now : Z)
  (errorMessage : string) (srv : Server) : bool * Server :=
  let record :=
    with_lastPollErrors
      (<[workflowId := {| message := errorMessage; timestampMs := now |}]>
         (lastPollErrors srv)) srv in
  match lastPollErrors srv !! workflowId with
  | None => (true, record)
  | Some previous =>
    let messageChanged := negb (bool_decide (message previous = errorMessage)) in
    let cooldownElapsed := (30000 <? now - timestampMs previous)%Z in
    if messageChanged || cooldownElapsed then (true, record) else (false, srv)
  end.

Definition broadcast (workflowId : string) (msg : Message) (srv : Server) : list Sent :=
  match subscriptions srv !! workflowId with
  | None => []
  | Some subs => map (fun sub => (ws sub, msg)) subs
  end.

(** The body of the loop of [broadcastProgress] for one subscription. *)
Definition send_progress (data : PipelineProgress) (sub : ClientSubscription)
  : ClientSubscription * list Sent :=
  (mkSubscription (ws sub) (workflowId sub) (Some data) (logPosition sub),
   match lastProgress sub with
   | Some last =>
     if decide (Shared.currentPhase last = Shared.currentPhase data) then []
     else [(ws sub, phase_change (Shared.currentPhase data) (Shared.currentAgent data))]
   | None => []
   end ++ [(ws sub, progress data)]).

Definition for_each_subscription
  (body : ClientSubscription -> ClientSubscription * list Sent)
  (workflowId : string) (srv : Server) : Server * list Sent :=
  match subscriptions srv !! workflowId with
  | None => (srv, [])
  | Some subs =>
    (with_subscriptions (<[workflowId := map (fun sub => fst (body sub)) subs]>
                           (subscriptions srv)) srv,
     concat (map (fun sub => snd (body sub)) subs))
  end.

Definition broadcastProgress (workflowId : string) (data : PipelineProgress)
  (srv : Server) : Server * list Sent :=
  for_each_subscription (send_progress data) workflowId srv.

(** The log file as one poll sees it: [stats.size] from [fs.statSync] and the
    bytes the read streams deliver, which are the bytes of the file from the
    start offset to its end. *)
Record LogFile := mkLogFile {
  size : nat;
  contents : list byte
}.

(** [!line.trim()], on the bytes of the line. *)
Variable blank : list byte -> bool.

(** How a read stream cuts the bytes it delivers into ['data'] chunks. *)
Variable chunks : list byte -> list (list byte).

(** The ['data'] listener: the state is [buffer] and the lines sent so far. *)
Definition on_data (st : list byte * list (list byte)) (chunk : list byte)
  : list byte * list (list byte) :=
  let lines := split_newline (fst st ++ chunk) in
  (List.last lines [], snd st ++ List.filter (fun line => negb (blank line)) (removelast lines)).

(** The stream of one subscription from [start] to the end of the file: the
    lines sent as [log] events. *)
Definition read_stream (start : nat) (file : LogFile) : list (list byte) :=
  snd (fold_left on_data (chunks (drop start (contents file))) ([], [])).

(** The body of the loop of [streamLogs] for one subscription, with the
    listeners of its stream. *)
Definition tail_log (file : LogFile) (sub : ClientSubscription)
  : ClientSubscription * list Sent :=
  if (logPosition sub <? size file)%nat then
    (mkSubscription (ws sub) (workflowId sub) (lastProgress sub) (size file),
     map (fun line => (ws sub, log line)) (read_stream (logPosition sub) file))
  else (sub, []).

(** The file as a poll sees it when nothing is appended between
    [fs.statSync] and the end of the read. *)
Definition at_rest (text : list byte) : LogFile :=
  {| size := length text; contents := text |}.

(** The loop body of [streamLogs] for one subscription over successive
    polls. *)
Fixpoint tail_logs (files : list LogFile) (sub : ClientSubscription)
  : ClientSubscription * list (list Sent) :=
  match files with
  | [] => (sub, [])
  | file :: rest =>
    let sub1 := fst (tail_log file sub) in
    (fst (tail_logs rest sub1), snd (tail_log file sub) :: snd (tail_logs rest sub1))
  end.

(** [streamLogs]; [file] is [None] when [findLogFile] finds no log. *)
Definition streamLogs (workflowId : string) (file : option LogFile) (srv : Server)
  : Server * list Sent :=
  match file with
  | None => (srv, [])
  | Some f => for_each_subscription (tail_log f) workflowId srv
  end.

(** The end of [poll]: if the run still has subscriptions a timer is set
    for the next poll and its handle put on record, in the place of the
    handle that was there, which is not cleared. *)
Definition schedule_next (workflowId : string) (nextDelay : Z) (srv : Server) : Server :=
  match subscriptions srv !! workflowId with
  | None => stopPolling workflowId srv
  | Some _ => with_pollIntervals (<[workflowId := nextDelay]> (pollIntervals srv)) srv
  end.

(** One run of [poll] for [workflowId], of whichever poll loop of the run,
    from the moment [temporal.getProgress] settles: [answer] is how it
    settles, [now] what the clock reads in the [catch] block, [file] the log
    as [streamLogs] finds it.  The listeners of the log streams run after
    the rest of the poll. *)
Definition poll (workflowId : string) (answer : Settled PipelineProgress) (now : Z)
  (file : option LogFile) (srv : Server) : Server * list Sent :=
  match answer with
  | Js.Resolves data =>
    let '(srv1, sent1) := broadcastProgress workflowId data srv in
    if decide (Shared.status data = running) then
      let '(srv2, sent2) := streamLogs workflowId file (schedule_next workflowId pollInterval srv1) in
      (srv2, sent1 ++ sent2)
    else
      let srv2 := stopPolling workflowId srv1 in
      let sent2 := broadcast workflowId
        (complete_or_failed (Shared.status data) workflowId (Shared.error data)) srv2 in
      let '(srv3, sent3) := streamLogs workflowId file srv2 in
      (srv3, sent1 ++ sent2 ++ sent3)
  | Js.Rejects e =>
    let errorMessage := "Failed to query workflow: " +:+ Js.message e in
    let '(should, srv1) := shouldBroadcastPollingError workflowId now errorMessage srv in
    (schedule_next workflowId pollErrorBackoff srv1,
     if should then broadcast workflowId (error errorMessage) srv1 else [])
  end.

(** Successive runs of [poll] for one run, each with its own answer, clock
    reading and view of the log. *)
Fixpoint polls (workflowId : string)
  (inputs : list (Settled PipelineProgress * Z * option LogFile)) (srv : Server)
  : Server * list (list Sent) :=
  match inputs with
  | [] => (srv, [])
  | (answer, now, file) :: rest =>
    let '(srv1, sent) := poll workflowId answer now file srv in
    let '(srv2, sents) := polls workflowId rest srv1 in
    (srv2, sent :: sents)
  end.

(** The [log] events among the messages sent: the socket and the line of
    each. *)
Definition logs_sent (sent : list Sent) : list (nat * list byte) :=
  omap (fun m : Sent =>
          match snd m with
          | log line => Some (fst m, line)
          | _ => None
          end) sent.

(** The log that holds [prefix] before what [file] holds, measured and read
    alike. *)
Definition behind (prefix : list byte) (file : LogFile) : LogFile :=
  {| size := length prefix + size file; contents := prefix ++ contents file |}.

(** A subscription whose offset lies [n] bytes further. *)
Definition further (n : nat) (sub : ClientSubscription) : ClientSubscription :=
  mkSubscription (ws sub) (workflowId sub) (lastProgress sub) (n + logPosition sub).

(** Two servers that differ at most in the offsets of the subscriptions to
    the run, which lie [n] bytes further in the first. *)
Definition ahead (n : nat) (workflowId : string) (srv srv' : Server) : Prop :=
  pollIntervals srv = pollIntervals srv'
  /\ lastPollErrors srv = lastPollErrors srv'
  /\ subscriptions srv !! workflowId = map (further n) <$> subscriptions srv' !! workflowId.

(** The log as successive polls see it when the [pieces] are appended to
    [text] one after the other, each poll finding the file at rest. *)
Fixpoint growing (text : list byte) (pieces : list (list byte)) : list LogFile :=
  match pieces with
  | [] => []
  | piece :: rest => at_rest (text ++ piece) :: growing (text ++ piece) rest
  end.

(** [removeClient]: every subscription of the socket is deleted, and a run
    left without subscriptions is forgotten. *)
Definition remaining (socket : nat) (subs : list ClientSubscription)
  : list ClientSubscription :=
  List.filter (fun sub => negb (bool_decide (ws sub = socket))) subs.

Definition emptied (socket : nat) (srv : Server) (workflowId : string) : bool :=
  match subscriptions srv !! workflowId with
  | Some subs => match remaining socket subs with [] => true | _ => false end
  | None => false
  end.

Definition removeClient (socket : nat) (srv : Server) : Server :=
  {| subscriptions :=
       omap (fun subs => match remaining socket subs with
                         | [] => None
                         | subs' => Some subs'
                         end) (subscriptions srv);
     pollIntervals :=
       filter (fun entry => emptied socket srv (fst entry) = false) (pollIntervals srv);
     lastPollErrors :=
       filter (fun entry => emptied socket srv (fst entry) = false) (lastPollErrors srv) |}.

(** [close]: the loop over the keys of [pollIntervals]. *)
Definition close (srv : Server) : Server :=
  map_fold (fun workflowId _ srv' => stopPolling workflowId srv') srv (pollIntervals srv).

(** What makes the server change its state: a [subscribe] or an
    [unsubscribe] message of a client, the [close] of a socket, or the
    answer to the query of a poll, of any run and of any of its poll loops,
    whether it was started by [subscribe], by the timer on record or by a
    timer that is no longer on record. *)
Inductive ServerEvent :=
| on_subscribe (socket : nat) (workflowId : string)
| on_unsubscribe (socket : nat) (workflowId : string)
| on_close (socket : nat)
| on_poll (workflowId : string) (answer : Settled PipelineProgress) (now : Z)
    (file : option LogFile).

Definition react (srv : Server) (ev : ServerEvent) : Server :=
  match ev with
  | on_subscribe socket workflowId => fst (fst (subscribe socket workflowId srv))
  | on_unsubscribe socket workflowId => fst (unsubscribe socket workflowId srv)
  | on_close socket => removeClient socket srv
  | on_poll workflowId answer now file => fst (poll workflowId answer now file srv)
  end.

(** The server when it is constructed. *)
Definition new_server : Server :=
  {| subscriptions := ∅; pollIntervals := ∅; lastPollErrors := ∅ |}.

(** No run is kept without a subscriber, every subscription is filed under
    its own run, and only runs with a subscriber have a timer handle or a
    polling error on record. *)
Definition tidy (srv : Server) : Prop :=
  (forall workflowId' subs,
     subscriptions srv !! workflowId' = Some subs ->
     subs <> [] /\ Forall (fun sub => workflowId sub = workflowId') subs)
  /\ (forall workflowId', is_Some (pollIntervals srv !! workflowId') ->
        is_Some (subscriptions srv !! workflowId'))
  /\ (forall workflowId', is_Some (lastPollErrors srv !! workflowId') ->
        is_Some (subscriptions srv !! workflowId')).

End WithNumbers.

End WsServer.

(** ** [ui/server.ts]: starting a run, and the display of durations *)

Module Server.

(** [formatDuration] *)
Definition formatDuration (ms : Z) : string :=
  let seconds := (ms / 1000)%Z in
  let minutes := (seconds / 60)%Z in
  let hours := (minutes / 60)%Z in
  if (0 <? hours)%Z then pretty hours +:+ "h " +:+ pretty (Z.rem minutes 60) +:+ "m"
  else if (0 <? minutes)%Z then pretty minutes +:+ "m " +:+ pretty (Z.rem seconds 60) +:+ "s"
  else pretty seconds +:+ "s".

(** A field of the request body, as far as the handler tells values apart:
    [null], a boolean, a number, a string, an array or an object. *)
Inductive Json :=
| JNull
| JBool (b : bool)
| JNumber (n : Z)
| JString (s : string)
| JStructured.

(** What [c.req.json()] gives: it throws, or it resolves to [null], or to a
    value whose properties can be read.  Reading [body.url] of [null] throws
    a [TypeError]; its message is worded by the JavaScript engine the server
    runs on, and comes with the payload. *)
Inductive Payload :=
| Unparsable
| NullPayload (type_error : string)
| Fields (field : string -> option Json).

Section WithNumbers.

Context {Num : Type}.

Abbreviation Settled := (Js.Settled Num).

(** The argument of [temporal.startPentest]. *)
Record PentestConfig := mkConfig {
  url : string;
  repoPath : option string;
  configPath : option string;
  mode : string
}.

(** The Temporal bridge as the handler uses it: [listWorkflows] by its
    connection and the listing of the cluster, [startPentest] by its
    outcome. *)
Record Bridge := mkBridge {
  connect : Settled unit;
  listing : @TemporalBridge.Listing Num;
  startPentest : PentestConfig -> Settled string
}.

Inductive Response :=
| bad_request (error : string)
| conflict (runningWorkflows : list string)
| started (workflowId mode browserProfile : string)
| server_error (message : string).

(** What the handler leaves behind: the response, the workflows tracked for
    the emergency stop, the browser profile it put in the environment, and
    the configuration it started a workflow with. *)
Record Handled := mkHandled {
  response : Response;
  active_workflows : list string;
  browser_profile : option string;
  started_with : option PentestConfig
}.

Definition string_field (field : string -> option Json) (name : string) : option string :=
  match field name with
  | Some (JString s) => Some s
  | _ => None
  end.

(** [active_workflows.add(workflowId)] *)
Definition add (workflowId : string) (set : list string) : list string :=
  if bool_decide (workflowId ∈ set) then set else set ++ [workflowId].

(** The handler of [POST /api/pentest/start]; [environment] is
    [process.env.SHANNON_BROWSER_PROFILE] before the request. *)
Definition start_pentest (payload : Payload) (bridge : Bridge)
  (active : list string) (environment : option string) : Handled :=
  match payload with
  | Unparsable => mkHandled (bad_request "Invalid JSON payload") active environment None
  | NullPayload type_error =>
    mkHandled (server_error type_error) active environment None
  | Fields field =>
    let url := Js.nullish (string_field field "url") "" in
    let repoPath := string_field field "repoPath" in
    let config := string_field field "config" in
    let mode :=
      match field "mode" with
      | Some (JString s) =>
        if decide (s = "white_box" \/ s = "black_box") then Some s else None
      | _ => None
      end in
    let browserProfile := string_field field "browserProfile" in
    let allow_parallel :=
      match field "allowParallel" with Some (JBool true) => true | _ => false end in
    let start :=
      let execution_mode :=
        Js.nullish mode
          (if decide (Js.nullish repoPath "" = "") then "black_box" else "white_box") in
      let environment' :=
        if decide (Js.nullish browserProfile "" = "") then environment else browserProfile in
      let config' := mkConfig url repoPath config execution_mode in
      match startPentest bridge config' with
      | Js.Resolves workflowId =>
        mkHandled (started workflowId execution_mode (Js.nullish browserProfile "red_team"))
          (add workflowId active) environment' (Some config')
      | Js.Rejects e =>
        mkHandled (server_error (Js.message e)) active environment' (Some config')
      end in
    if decide (url = "") then
      mkHandled (bad_request "Missing required field: url") active environment None
    else if allow_parallel then start
    else
      match TemporalBridge.listWorkflows (connect bridge) (listing bridge) (Some 50%Z) with
      | Js.Rejects e => mkHandled (server_error (Js.message e)) active environment None
      | Js.Resolves workflows =>
        let running_workflow_ids :=
          map TemporalBridge.info_workflowId
            (List.filter (fun workflow =>
               bool_decide (TemporalBridge.info_status workflow = "RUNNING")) workflows) in
        if (0 <? length running_workflow_ids)%nat
        then mkHandled (conflict running_workflow_ids) active environment None
        else start
      end
  end.

End WithNumbers.

End Server.

(** ** [src/utils/billing-detector.ts] and [src/constants/billing-patterns.ts] *)

Module BillingDetector.

Definition BILLING_KEYWORDS : list string :=
  [ "spending"; "cap"; "limit"; "budget"; "resets" ].

Definition BILLING_PATTERNS : list string :=
  [ "spending cap"; "spending limit"; "cap reached"; "budget exceeded";
    "usage limit" ].

(** [is_billing_error]: the empty string is falsy. *)
Definition is_billing_error (text : string) : bool :=
  if decide (text = "") then false
  else existsb (Js.includes (Js.toLowerCase text)) BILLING_KEYWORDS.

End BillingDetector.

(** ** [src/ai/claude-executor.ts]

    [runClaudePrompt] from [progress.start()] on: the set-up before the [try]
    block does not throw, and the timer, the progress display, the audit
    logger and the error log do not throw either.  The conversation with the
    SDK is [processMessageStream], whose outcome is given. *)

Module ClaudeExecutor.

Section WithCollaborators.

Context {Num : Type} `{Js.Number Num}.

Abbreviation Settled := (Js.Settled Num).
Abbreviation ClaudePromptResultLike := (@RetryHandler.ClaudePromptResultLike Num).

(** [MessageLoopResult] *)
Record MessageLoopResult := mkLoopResult {
  turnCount : Z;
  loop_result : option string;
  loop_apiErrorDetected : bool;
  loop_cost : Num;
  loop_model : option string
}.

(** [ClaudePromptResult]: the fields the retry handler reads, and the three
    it does not. *)
Record ClaudePromptResult := mkPromptResult {
  base : ClaudePromptResultLike;
  errorType : option string;
  prompt : option string;
  retryable : option bool
}.

(** Imported from [../error-handling.js]. *)
Variable isRetryableError : Js.Error Num -> bool.
Variable getRetryDelay : Js.Error Num -> nat -> Num.

(** [totalCost === 0] and [error.name]. *)
Variable is_zero : Num -> bool.
Variable error_name : Js.Error Num -> string.

(** [validateAgentOutput]; [validator] is how
    [AGENT_VALIDATORS[agentName](sourceDir)] settles, [None] when [agentName]
    is [null] or has no validator. *)
Definition validateAgentOutput (validator : option (Settled bool))
  (result : ClaudePromptResultLike) : bool :=
  if negb (RetryHandler.success result)
     || negb (bool_decide (Js.nullish (RetryHandler.result result) "" <> ""))
  then false
  else match validator with
       | None => true
       | Some (Js.Resolves validationResult) => validationResult
       | Some (Js.Rejects _) => false
       end.

(** The error of the spending-cap safeguard. *)
Definition spending_cap_error (loop : MessageLoopResult) : Js.Error Num :=
  Js.new_PentestError
    ("Spending cap likely reached (turns=" +:+ pretty (turnCount loop)
       +:+ ", cost=$0): "
       +:+ match loop_result loop with
           | Some text => String.substring 0 100 text
           | None => "undefined"
           end)
    "billing" true.

(** What the [try] block throws, if it throws. *)
Definition thrown (stream : Settled MessageLoopResult) : option (Js.Error Num) :=
  match stream with
  | Js.Rejects err => Some err
  | Js.Resolves loop =>
    if (turnCount loop <=? 2)%Z && is_zero (loop_cost loop)
       && BillingDetector.is_billing_error (Js.nullish (loop_result loop) "")
    then Some (spending_cap_error loop)
    else None
  end.

(** [totalCost] as the [catch] block reads it: assigned once the stream has
    resolved. *)
Definition totalCost (stream : Settled MessageLoopResult) : Num :=
  match stream with
  | Js.Resolves loop => loop_cost loop
  | Js.Rejects _ => Js.nzero
  end.

(** [runClaudePrompt]: [timedOut] is the flag the abort timer sets,
    [duration] what [timer.stop()] returns. *)
Definition runClaudePrompt (fullPrompt : string) (agentTimeoutMs : Z)
  (stream : Settled MessageLoopResult) (timedOut : bool) (duration : Z)
  : ClaudePromptResult :=
  match thrown stream, stream with
  | None, Js.Resolves loop =>
    {| base := {| RetryHandler.result := loop_result loop;
                  RetryHandler.success := true;
                  RetryHandler.duration := duration;
                  RetryHandler.turns := Some (turnCount loop);
                  RetryHandler.cost := Some (loop_cost loop);
                  RetryHandler.partialCost := Some (loop_cost loop);
                  RetryHandler.apiErrorDetected := Some (loop_apiErrorDetected loop);
                  RetryHandler.error := None;
                  RetryHandler.model := loop_model loop |};
       errorType := None;
       prompt := None;
       retryable := None |}
  | Some err, _ | None, Js.Rejects err =>
    let effectiveErr :=
      if timedOut
      then Js.new_Error ("Agent timed out after "
                           +:+ pretty (agentTimeoutMs / 1000)%Z +:+ "s")
      else err in
    {| base := {| RetryHandler.result := None;
                  RetryHandler.success := false;
                  RetryHandler.duration := duration;
                  RetryHandler.turns := None;
                  RetryHandler.cost := Some (totalCost stream);
                  RetryHandler.partialCost := None;
                  RetryHandler.apiErrorDetected := None;
                  RetryHandler.error := Some (Js.message effectiveErr);
                  RetryHandler.model := None |};
       errorType := Some (if timedOut then "AgentTimeoutError" else error_name err);
       prompt := Some (String.substring 0 100 fullPrompt +:+ "...");
       retryable := Some (isRetryableError effectiveErr) |}
  end.

(** What [runClaudePromptWithRetry] does not decide: per attempt, how the
    stream settles, whether the abort timer fired, what the timer reads and
    how the agent's validator settles. *)
Record Attempts := mkAttempts {
  stream : nat -> Settled MessageLoopResult;
  timedOut : nat -> bool;
  elapsed : nat -> Z;
  validator : option (nat -> Settled bool)
}.

(** The options [runClaudePromptWithRetry] passes to the retry handler. *)
Definition retry_options (fullPrompt description : string) (audited : bool)
  (commit_hash : option string) (agentTimeoutMs : Z) (a : Attempts)
  : @RetryHandler.RunWithRetryOptions Num :=
  {| RetryHandler.description := description;
     RetryHandler.audited := audited;
     RetryHandler.max_retries := 3;
     RetryHandler.run_single_attempt := fun attempt =>
       Js.Resolves (base (runClaudePrompt fullPrompt agentTimeoutMs
                            (stream a attempt) (timedOut a attempt) (elapsed a attempt)));
     RetryHandler.validate_output := fun attempt result =>
       Js.Resolves (validateAgentOutput
                      (option_map (fun v => v attempt) (validator a)) result);
     RetryHandler.commit_hash := commit_hash |}.

Definition runClaudePromptWithRetry (fullPrompt description : string) (audited : bool)
  (commit_hash : option string) (agentTimeoutMs : Z) (a : Attempts)
  : list (@RetryHandler.Event Num) * @RetryHandler.Completion Num :=
  RetryHandler.run_claude_prompt_with_retry isRetryableError getRetryDelay
    (retry_options fullPrompt description audited commit_hash agentTimeoutMs a).

End WithCollaborators.

(** The errors the retry loop can hold or throw when the runner never throws
    and the validator never rejects: none, or an error the loop makes
    itself. *)
Definition handler_error {Num} (options : @RetryHandler.RunWithRetryOptions Num)
  (e : option (Js.Error Num)) : Prop :=
  e = None
  \/ e = Some (Js.new_Error "Output validation failed")
  \/ e = Some (Js.new_Error "API Error: terminated with validation failure")
  \/ e = Some (RetryHandler.validation_exhausted_error options).

End ClaudeExecutor.

(** ** What the retry handler is expected to wait for *)

Module RetryBackoff.

Section WithCollaborators.

Context {Num : Type}.
Variable getRetryDelay : Js.Error Num -> nat -> Num.
Variable options : @RetryHandler.RunWithRetryOptions Num.

(** The back-off delays of the attempts in [attempts] at which the runner
    throws: [getRetryDelay] of the error thrown and of the attempt number. *)
Definition backoff_of (attempts : list nat) : list Num :=
  omap (fun attempt =>
          match RetryHandler.run_single_attempt options attempt with
          | Js.Rejects err => Some (getRetryDelay err attempt)
          | Js.Resolves _ => None
          end) attempts.

End WithCollaborators.

End RetryBackoff.

(** ** Concrete runs *)

Module Examples.

(** *** Retry handler *)

(** Modelled from the spec: [getRetryDelay] of [src/error-handling.ts], the
    module the retry handler imports its back-off from.  The spec asks for a
    numeric delay computed from the error and the attempt number, growing
    with the attempt until it is capped; here one second per attempt, at
    most thirty.  The retry handler takes the function as a parameter; this
    one instantiates it in examples. *)
Definition getRetryDelay (err : Js.Error Z) (attempt : nat) : Z :=
  Z.min (1000 * Z.of_nat attempt) 30000.

Definition network_timeout : Js.Error Z := Js.new_Error "network timeout".
Definition invalid_api_key : Js.Error Z := Js.new_Error "invalid api key".

Definition successful_result : @RetryHandler.ClaudePromptResultLike Z :=
  {| RetryHandler.result := Some "analysis complete";
     RetryHandler.success := true;
     RetryHandler.duration := 1200;
     RetryHandler.turns := Some 7%Z;
     RetryHandler.cost := Some 3%Z;
     RetryHandler.partialCost := Some 3%Z;
     RetryHandler.apiErrorDetected := Some false;
     RetryHandler.error := None;
     RetryHandler.model := None |}.

(** What [runClaudePrompt] resolves to when the SDK call fails. *)
Definition failed_result : @RetryHandler.ClaudePromptResultLike Z :=
  {| RetryHandler.result := None;
     RetryHandler.success := false;
     RetryHandler.duration := 900;
     RetryHandler.turns := None;
     RetryHandler.cost := Some 0%Z;
     RetryHandler.partialCost := None;
     RetryHandler.apiErrorDetected := None;
     RetryHandler.error := Some "network timeout";
     RetryHandler.model := None |}.

Definition retry_options
  (max_retries : nat)
  (run_single_attempt : nat -> Js.Settled Z (@RetryHandler.ClaudePromptResultLike Z))
  (passes : bool) : @RetryHandler.RunWithRetryOptions Z :=
  {| RetryHandler.description := "Recon agent";
     RetryHandler.audited := true;
     RetryHandler.max_retries := max_retries;
     RetryHandler.run_single_attempt := run_single_attempt;
     RetryHandler.validate_output := fun _ _ => Js.Resolves passes;
     RetryHandler.commit_hash := Some "4f2a9c1" |}.

(** Three attempts, each resolving with [success: false]. *)
Definition reports_failure_thrice :=
  retry_options 3 (fun _ => Js.Resolves failed_result) true.

(** Three attempts allowed; the first throws ["invalid api key"]. *)
Definition throws_invalid_api_key :=
  retry_options 3 (fun _ => Js.Rejects invalid_api_key) true.

(** Two attempts allowed; the runner succeeds, the validator rejects. *)
Definition fails_validation_twice :=
  retry_options 2 (fun _ => Js.Resolves successful_result) false.

(** Three attempts allowed; the first two time out, the third succeeds and
    is accepted. *)
Definition succeeds_on_third_attempt :=
  retry_options 3
    (fun attempt => if (attempt <? 3)%nat then Js.Rejects network_timeout
                    else Js.Resolves successful_result) true.

(** Three attempts allowed; every one times out. *)
Definition always_times_out :=
  retry_options 3 (fun _ => Js.Rejects network_timeout) true.

(** *** Workflow *)

Definition metrics (durationMs : Z) : Shared.AgentMetrics Z :=
  {| Shared.durationMs := durationMs;
     Shared.inputTokens := Some 1000%Z;
     Shared.outputTokens := Some 200%Z;
     Shared.costUsd := Some 2%Z;
     Shared.numTurns := Some 5%Z;
     Shared.model := None |}.

Definition exploit_decision : @Workflows.ExploitationDecision :=
  {| Workflows.shouldExploit := true; Workflows.vulnerabilityCount := 2 |}.

Definition clock (r : Workflows.ClockRead) : Z :=
  match r with
  | Workflows.AtStart => 1000
  | Workflows.AtCompleted => 9000
  | Workflows.AtFailed => 5000
  end.

(** The reconnaissance agent fails for good; everything else resolves. *)
Definition recon_rejects : @Workflows.Env Z :=
  {| Workflows.outcome := fun T (a : Workflows.Activity T) =>
       match a in Workflows.Activity T return Js.Settled Z T with
       | Workflows.runReconAgent => Js.Rejects invalid_api_key
       | Workflows.logPhaseTransition _ _ => Js.Resolves tt
       | Workflows.runPreReconAgent => Js.Resolves (metrics 100)
       | Workflows.runVulnAgent _ => Js.Resolves (metrics 300)
       | Workflows.checkExploitationQueue _ => Js.Resolves exploit_decision
       | Workflows.runExploitAgent _ => Js.Resolves (metrics 400)
       | Workflows.assembleReportActivity => Js.Resolves tt
       | Workflows.runReportAgent => Js.Resolves (metrics 500)
       | Workflows.injectReportMetadataActivity => Js.Resolves tt
       | Workflows.logWorkflowComplete _ => Js.Resolves tt
       end;
     Workflows.now := clock;
     Workflows.schedule := [] |}.

(** The XSS vulnerability agent fails for good; everything else resolves,
    and the activities settle in an order that interleaves the pipelines. *)
Definition xss_rejects : @Workflows.Env Z :=
  {| Workflows.outcome := fun T (a : Workflows.Activity T) =>
       match a in Workflows.Activity T return Js.Settled Z T with
       | Workflows.runVulnAgent v =>
         if decide (v = Workflows.xss) then Js.Rejects network_timeout
         else Js.Resolves (metrics 300)
       | Workflows.logPhaseTransition _ _ => Js.Resolves tt
       | Workflows.runPreReconAgent => Js.Resolves (metrics 100)
       | Workflows.runReconAgent => Js.Resolves (metrics 200)
       | Workflows.checkExploitationQueue _ => Js.Resolves exploit_decision
       | Workflows.runExploitAgent _ => Js.Resolves (metrics 400)
       | Workflows.assembleReportActivity => Js.Resolves tt
       | Workflows.runReportAgent => Js.Resolves (metrics 500)
       | Workflows.injectReportMetadataActivity => Js.Resolves tt
       | Workflows.logWorkflowComplete _ => Js.Resolves tt
       end;
     Workflows.now := clock;
     Workflows.schedule :=
       [ Workflows.authz; Workflows.xss; Workflows.injection; Workflows.authz;
         Workflows.injection; Workflows.ssrf ] |}.

(** The states a query can see at the first two suspension points of that
    run. *)
Definition first_suspended_state : @Workflows.PipelineState Z :=
  default (Workflows.initial_state xss_rejects)
    (Workflows.suspended (fst (Workflows.pentestPipelineWorkflow xss_rejects)) !! 0).

Definition second_suspended_state : @Workflows.PipelineState Z :=
  default (Workflows.initial_state xss_rejects)
    (Workflows.suspended (fst (Workflows.pentestPipelineWorkflow xss_rejects)) !! 1).

Definition suspended_twice_on_same_state : Prop :=
  length (Workflows.suspended (fst (Workflows.pentestPipelineWorkflow xss_rejects))) > 2
  /\ first_suspended_state = second_suspended_state.

(** *** Bridge *)

Definition running_progress : Shared.PipelineProgress Z :=
  {| Shared.status := Shared.running;
     Shared.currentPhase := Some "recon";
     Shared.currentAgent := Some "recon";
     Shared.completedAgents := ["pre-recon"];
     Shared.failedAgent := None;
     Shared.error := None;
     Shared.startTime := 1000;
     Shared.agentMetrics := [("pre-recon", metrics 100)];
     Shared.summary := None;
     Shared.workflowId := "shannon-1";
     Shared.elapsedMs := 500 |}.

(** The query still answers [running]; [describe()] says the workflow was
    terminated and started a little before the state was created. *)
Definition terminated_out_of_band : @TemporalBridge.Temporal Z :=
  {| TemporalBridge.connect := Js.Resolves tt;
     TemporalBridge.query := Js.Resolves running_progress;
     TemporalBridge.describe :=
       Js.Resolves {| TemporalBridge.status_name := Some "TERMINATED";
                      TemporalBridge.startTime := Some 990%Z |};
     TemporalBridge.now := 4000;
     TemporalBridge.now' := 4000 |}.

(** *** WebSocket server *)

(** [!line.trim()] for a line of ASCII text. *)
Definition blank (line : list byte) : bool :=
  forallb (fun c => bool_decide (c ∈ [x20; x09; x0a; x0b; x0c; x0d])) line.

(** A stream that delivers the first four bytes it reads as one chunk and
    the rest as another. *)
Definition chunks (data : list byte) : list (list byte) :=
  if (length data <=? 4)%nat then [data] else [take 4 data; drop 4 data].

Definition empty_server : @WsServer.Server Z :=
  {| WsServer.subscriptions := ∅;
     WsServer.pollIntervals := ∅;
     WsServer.lastPollErrors := ∅ |}.

(** Socket 7 has just subscribed to the run. *)
Definition one_subscriber : @WsServer.Server Z :=
  fst (fst (WsServer.subscribe 7 "shannon-1" empty_server)).

Definition connection_refused : Js.Error Z := Js.new_Error "connect ECONNREFUSED".

Definition fresh_subscription : @WsServer.ClientSubscription Z :=
  {| WsServer.ws := 7;
     WsServer.workflowId := "shannon-1";
     WsServer.lastProgress := None;
     WsServer.logPosition := 0 |}.

(** *** Executor *)

(** [totalCost === 0] and [error.name] for integer costs and plain
    [Error]s. *)
Definition is_zero (cost : Z) : bool := (cost =? 0)%Z.
Definition error_name (err : Js.Error Z) : string := "Error".

(** The SDK conversation fails with a network time-out at every attempt. *)
Definition sdk_always_fails : @ClaudeExecutor.Attempts Z :=
  {| ClaudeExecutor.stream := fun _ => Js.Rejects network_timeout;
     ClaudeExecutor.timedOut := fun _ => false;
     ClaudeExecutor.elapsed := fun _ => 900%Z;
     ClaudeExecutor.validator := None |}.

(** *** Runs that reach the end *)

(** Every activity resolves; the SSRF queue holds nothing to exploit. *)
Definition all_resolve : @Workflows.Env Z :=
  {| Workflows.outcome := fun T (a : Workflows.Activity T) =>
       match a in Workflows.Activity T return Js.Settled Z T with
       | Workflows.checkExploitationQueue v =>
         Js.Resolves
           {| Workflows.shouldExploit := negb (bool_decide (v = Workflows.ssrf));
              Workflows.vulnerabilityCount := 2 |}
       | Workflows.logPhaseTransition _ _ => Js.Resolves tt
       | Workflows.runPreReconAgent => Js.Resolves (metrics 100)
       | Workflows.runReconAgent => Js.Resolves (metrics 200)
       | Workflows.runVulnAgent _ => Js.Resolves (metrics 300)
       | Workflows.runExploitAgent _ => Js.Resolves (metrics 400)
       | Workflows.assembleReportActivity => Js.Resolves tt
       | Workflows.runReportAgent => Js.Resolves (metrics 500)
       | Workflows.injectReportMetadataActivity => Js.Resolves tt
       | Workflows.logWorkflowComplete _ => Js.Resolves tt
       end;
     Workflows.now := clock;
     Workflows.schedule := [ Workflows.xss; Workflows.authz; Workflows.xss ] |}.

(** Every activity resolves but the notice that the run completed. *)
Definition completion_notice_rejects : @Workflows.Env Z :=
  {| Workflows.outcome := fun T (a : Workflows.Activity T) =>
       match a in Workflows.Activity T return Js.Settled Z T with
       | Workflows.logWorkflowComplete ws =>
         if decide (Workflows.ws_status ws = Shared.completed)
         then Js.Rejects connection_refused else Js.Resolves tt
       | Workflows.logPhaseTransition _ _ => Js.Resolves tt
       | Workflows.runPreReconAgent => Js.Resolves (metrics 100)
       | Workflows.runReconAgent => Js.Resolves (metrics 200)
       | Workflows.runVulnAgent _ => Js.Resolves (metrics 300)
       | Workflows.checkExploitationQueue _ => Js.Resolves exploit_decision
       | Workflows.runExploitAgent _ => Js.Resolves (metrics 400)
       | Workflows.assembleReportActivity => Js.Resolves tt
       | Workflows.runReportAgent => Js.Resolves (metrics 500)
       | Workflows.injectReportMetadataActivity => Js.Resolves tt
       end;
     Workflows.now := clock;
     Workflows.schedule := [] |}.

(** The reconnaissance agent fails for good, and then the notice that the
    run failed cannot be delivered. *)
Definition recon_and_notice_reject : @Workflows.Env Z :=
  {| Workflows.outcome := fun T (a : Workflows.Activity T) =>
       match a in Workflows.Activity T return Js.Settled Z T with
       | Workflows.runReconAgent => Js.Rejects invalid_api_key
       | Workflows.logWorkflowComplete _ => Js.Rejects connection_refused
       | Workflows.logPhaseTransition _ _ => Js.Resolves tt
       | Workflows.runPreReconAgent => Js.Resolves (metrics 100)
       | Workflows.runVulnAgent _ => Js.Resolves (metrics 300)
       | Workflows.checkExploitationQueue _ => Js.Resolves exploit_decision
       | Workflows.runExploitAgent _ => Js.Resolves (metrics 400)
       | Workflows.assembleReportActivity => Js.Resolves tt
       | Workflows.runReportAgent => Js.Resolves (metrics 500)
       | Workflows.injectReportMetadataActivity => Js.Resolves tt
       end;
     Workflows.now := clock;
     Workflows.schedule := [] |}.

(** *** The log as a poll finds it *)

(** A line and the beginning of the next one. *)
Definition partial_log : list byte := list_byte_of_string "recon started
inje".

(** The poll measures the file when it holds the first line, and reads it
    when the beginning of the second line has been appended. *)
Definition grown_before_the_read : @WsServer.LogFile :=
  {| WsServer.size := 14; WsServer.contents := partial_log |}.

(** The poll measures the file when the second line has been begun, and
    reads it when two more bytes have been appended. *)
Definition grown_within_the_line : @WsServer.LogFile :=
  {| WsServer.size := 16; WsServer.contents := partial_log |}.

(** *** The query is unavailable *)

(** The worker is gone: the query fails, [describe()] says the workflow
    completed. *)
Definition query_unavailable : @TemporalBridge.Temporal Z :=
  {| TemporalBridge.connect := Js.Resolves tt;
     TemporalBridge.query :=
       Js.Rejects (Js.new_Error "9 FAILED_PRECONDITION: no poller seen for task queue recently");
     TemporalBridge.describe :=
       Js.Resolves {| TemporalBridge.status_name := Some "COMPLETED";
                      TemporalBridge.startTime := Some 990%Z |};
     TemporalBridge.now := 4000;
     TemporalBridge.now' := 4001 |}.

(** *** Snapshots to broadcast *)

Definition reporting_progress : Shared.PipelineProgress Z :=
  {| Shared.status := Shared.running;
     Shared.currentPhase := Some "reporting";
     Shared.currentAgent := Some "report";
     Shared.completedAgents := ["pre-recon"; "recon"];
     Shared.failedAgent := None;
     Shared.error := None;
     Shared.startTime := 1000;
     Shared.agentMetrics := [("pre-recon", metrics 100); ("recon", metrics 200)];
     Shared.summary := None;
     Shared.workflowId := "shannon-1";
     Shared.elapsedMs := 2500 |}.

Definition failed_progress : Shared.PipelineProgress Z :=
  {| Shared.status := Shared.failed;
     Shared.currentPhase := Some "recon";
     Shared.currentAgent := Some "recon";
     Shared.completedAgents := ["pre-recon"];
     Shared.failedAgent := Some "recon";
     Shared.error := Some "invalid api key";
     Shared.startTime := 1000;
     Shared.agentMetrics := [("pre-recon", metrics 100)];
     Shared.summary := None;
     Shared.workflowId := "shannon-1";
     Shared.elapsedMs := 4000 |}.

(** *** Listings of the cluster *)

Definition finished_workflow (n : nat) : TemporalBridge.WorkflowInfo :=
  {| TemporalBridge.info_workflowId := "shannon-" +:+ pretty n;
     TemporalBridge.info_status := "COMPLETED";
     TemporalBridge.info_startTime := 1000 |}.

Definition running_workflow : TemporalBridge.WorkflowInfo :=
  {| TemporalBridge.info_workflowId := "shannon-running";
     TemporalBridge.info_status := "RUNNING";
     TemporalBridge.info_startTime := 2000 |}.

(** Fifty finished workflows are listed before the one that is running. *)
Definition busy_cluster : @Server.Bridge Z :=
  {| Server.connect := Js.Resolves tt;
     Server.listing :=
       {| TemporalBridge.yielded := map finished_workflow (seq 1 50) ++ [running_workflow];
          TemporalBridge.breaks_off := None |};
     Server.startPentest := fun _ => Js.Resolves "shannon-1700000000000" |}.

(** The body [{"url": "https://target.example"}]. *)
Definition url_only (name : string) : option Server.Json :=
  if decide (name = "url") then Some (Server.JString "https://target.example") else None.

End Examples.

(** * Properties *)

(** ** The retry handler *)

Section RetryHandlerProperties.

Import RetryHandler.

Context {Num : Type} `{Js.Number Num}.
Variable isRetryableError : Js.Error Num -> bool.
Variable getRetryDelay : Js.Error Num -> nat -> Num.
Variable options : @RunWithRetryOptions Num.

Local Abbreviation on_catch := (on_catch isRetryableError getRetryDelay options).
Local Abbreviation attempt_body := (attempt_body isRetryableError getRetryDelay options).
Local Abbreviation for_attempts := (for_attempts isRetryableError getRetryDelay options).
Local Abbreviation run := (run_claude_prompt_with_retry isRetryableError getRetryDelay options).

Lemma count_app (p : @Event Num -> bool) (t1 t2 : list Event) :
  count p (t1 ++ t2) = count p t1 + count p t2.
Proof. unfold count. by rewrite List.filter_app, length_app. Qed.

Lemma count_when_audited (p : @Event Num -> bool) (evs : list Event) :
  (forall e, In e evs -> p e = false) -> count p (when_audited options evs) = 0.
Proof.
  intros Hp. unfold when_audited. destruct (audited options); [|done].
  unfold count. induction evs as [|e evs IH]; [done|].
  simpl. rewrite (Hp e) by (by left). apply IH. intros e' He'. apply Hp. by right.
Qed.

Lemma delays_app (t1 t2 : list (@Event Num)) :
  delays (t1 ++ t2) = delays t1 ++ delays t2.
Proof. unfold delays. apply omap_app. Qed.

Lemma delays_when_audited (evs : list Event) :
  (forall e, In e evs -> is_sleep e = false) -> delays (when_audited options evs) = [].
Proof.
  intros Hp. unfold when_audited. destruct (audited options); [|done].
  induction evs as [|e evs IH]; [done|].
  unfold delays in *. simpl. pose proof (Hp e (or_introl eq_refl)) as He.
  destruct e; try discriminate He; simpl; apply IH; intros e' He'; apply Hp; by right.
Qed.

(** Tactic: the audit events of a trace count for nothing. *)
Ltac audit_free :=
  intros ? Hin; simpl in Hin;
  repeat (destruct Hin as [<-|Hin]; [reflexivity|]); destruct Hin.

Lemma count_cons (p : @Event Num -> bool) (e : Event) (t : list Event) :
  count p (e :: t) = (if p e then 1 else 0) + count p t.
Proof. unfold count. simpl. by destruct (p e). Qed.

Lemma delays_cons (e : @Event Num) (t : list Event) :
  delays (e :: t) = match e with sleep d => [d] | _ => [] end ++ delays t.
Proof. by destruct e. Qed.

Ltac count_trace :=
  unfold cat; cbn [fst snd];
  repeat (rewrite ?count_app, ?delays_app, ?count_cons, ?delays_cons,
            ?count_when_audited, ?delays_when_audited by audit_free);
  try reflexivity.

(** The [catch] block rolls the workspace back exactly once, whatever the
    error and the attempt. *)
Lemma on_catch_rollback attempt err :
  count is_rollback (fst (on_catch attempt err)) = 1.
Proof.
  unfold RetryHandler.on_catch.
  destruct (negb (isRetryableError err)); [|destruct (attempt <? max_retries options)%nat];
    simpl; count_trace.
Qed.

Lemma on_catch_no_checkpoint attempt err :
  count is_checkpoint (fst (on_catch attempt err)) = 0
  /\ count is_run (fst (on_catch attempt err)) = 0
  /\ count is_commit (fst (on_catch attempt err)) = 0.
Proof.
  unfold RetryHandler.on_catch.
  destruct (negb (isRetryableError err)); [|destruct (attempt <? max_retries options)%nat];
    simpl; repeat split; count_trace.
Qed.

Lemma attempt_body_reports_failure attempt last_error :
  reports_failure options attempt ->
  exists evs, attempt_body attempt last_error = (evs, NextAttempt last_error)
    /\ count is_checkpoint evs = 1 /\ count is_rollback evs = 0
    /\ count is_commit evs = 0 /\ delays evs = [].
Proof.
  intros (r & Hrun & Hr). unfold RetryHandler.attempt_body. rewrite Hrun, Hr.
  eexists. split; [reflexivity|]. simpl. repeat split; count_trace.
Qed.

Lemma for_attempts_report_failure attempts last_error :
  (forall attempt, In attempt attempts -> reports_failure options attempt) ->
  snd (for_attempts attempts last_error) = Throws last_error
  /\ count is_checkpoint (fst (for_attempts attempts last_error)) = length attempts
  /\ count is_rollback (fst (for_attempts attempts last_error)) = 0
  /\ count is_commit (fst (for_attempts attempts last_error)) = 0
  /\ delays (fst (for_attempts attempts last_error)) = [].
Proof.
  induction attempts as [|attempt rest IH]; intros Hall; [done|].
  destruct (attempt_body_reports_failure attempt last_error) as (evs & Hbody & Hc & Hr & Hm & Hd).
  { apply Hall. by left. }
  destruct IH as (IH1 & IH2 & IH3 & IH4 & IH5).
  { intros a Ha. apply Hall. by right. }
  cbn [RetryHandler.for_attempts]. rewrite Hbody. unfold cat. cbn [fst snd].
  rewrite !count_app, delays_app, Hc, Hr, Hm, Hd, IH2, IH3, IH4, IH5.
  by rewrite IH1.
Qed.

(** C2 (the defect).  When every attempt of the runner resolves with
    [success: false], which is how [runClaudePrompt] reports every failure,
    retryable ones included, the handler takes a checkpoint before each of
    the [max_retries] attempts, never rolls the workspace back, waits for no
    back-off, and ends with [throw last_error] where [last_error] is still
    [undefined]. *)
Theorem reported_failures_are_never_rolled_back :
  (forall attempt, reports_failure options attempt) ->
  snd run = Throws None
  /\ count is_checkpoint (fst run) = max_retries options
  /\ count is_rollback (fst run) = 0
  /\ count is_commit (fst run) = 0
  /\ delays (fst run) = [].
Proof.
  intros Hall. unfold run_claude_prompt_with_retry.
  destruct (for_attempts_report_failure (seq 1 (max_retries options)) None)
    as (H1 & H2 & H3 & H4 & H5); [auto|].
  by rewrite length_seq in H2.
Qed.

Lemma attempt_body_throws_retryable attempt last_error err :
  run_single_attempt options attempt = Js.Rejects err ->
  isRetryableError err = true ->
  exists evs, attempt_body attempt last_error = (evs, NextAttempt (Some err))
    /\ count is_checkpoint evs = 1 /\ count is_rollback evs = 1
    /\ count is_commit evs = 0
    /\ delays evs = if (attempt <? max_retries options)%nat
                    then [getRetryDelay err attempt] else [].
Proof.
  intros Hrun Hre. unfold RetryHandler.attempt_body, RetryHandler.on_catch.
  rewrite Hrun, Hre. cbn [negb].
  destruct (attempt <? max_retries options)%nat;
    (eexists; split; [reflexivity|]); simpl; repeat split; count_trace.
Qed.

Lemma attempt_body_fails_validation attempt last_error r :
  run_single_attempt options attempt = Js.Resolves r ->
  success r = true ->
  validate_output options attempt r = Js.Resolves false ->
  (attempt <? max_retries options)%nat = true ->
  exists evs,
    attempt_body attempt last_error =
      (evs, NextAttempt (Some
         (if Js.nullish (apiErrorDetected r) false
          then Js.new_Error "API Error: terminated with validation failure"
          else Js.new_Error "Output validation failed")))
    /\ count is_checkpoint evs = 1 /\ count is_rollback evs = 1
    /\ count is_commit evs = 0 /\ delays evs = []
    /\ last evs = Some (rollbackGitWorkspace "validation failure").
Proof.
  intros Hrun Hr Hval Hlt. unfold RetryHandler.attempt_body.
  rewrite Hrun, Hr, Hval, Hlt.
  eexists. split; [reflexivity|]. repeat split; count_trace.
  unfold cat. cbn [fst snd]. rewrite !app_assoc. by rewrite last_snoc.
Qed.

Lemma attempt_body_validation_exhausted attempt last_error r :
  run_single_attempt options attempt = Js.Resolves r ->
  success r = true ->
  validate_output options attempt r = Js.Resolves false ->
  (attempt <? max_retries options)%nat = false ->
  exists evs step,
    attempt_body attempt last_error = (evs, step)
    /\ (step = Finish (Throws (Some (validation_exhausted_error options)))
        \/ step = NextAttempt (Some (validation_exhausted_error options)))
    /\ count is_checkpoint evs = 1 /\ count is_rollback evs = 1
    /\ count is_commit evs = 0 /\ delays evs = [].
Proof.
  intros Hrun Hr Hval Hlt. unfold RetryHandler.attempt_body, RetryHandler.on_catch.
  rewrite Hrun, Hr, Hval, Hlt.
  destruct (negb (isRetryableError (validation_exhausted_error options)));
    (eexists; eexists; split; [reflexivity|]); simpl;
    (split; [by auto|]); repeat split; count_trace.
Qed.

(** When every attempt throws a retryable error or fails validation, each
    of the [n] remaining attempts takes one checkpoint and ends in one
    rollback, nothing is committed, and the call throws the error of the
    last attempt. *)
Lemma for_attempts_exhausted n : forall first last_error,
  first + n = S (max_retries options) ->
  (forall attempt, first <= attempt <= max_retries options ->
     throws_retryable isRetryableError options attempt
     \/ fails_validation options attempt) ->
  count is_checkpoint (fst (for_attempts (seq first n) last_error)) = n
  /\ count is_rollback (fst (for_attempts (seq first n) last_error)) = n
  /\ count is_commit (fst (for_attempts (seq first n) last_error)) = 0
  /\ (0 < n -> snd (for_attempts (seq first n) last_error)
               = Throws (Some (attempt_error options (max_retries options)))).
Proof.
  induction n as [|n IH]; intros first last_error Hlen Hall.
  { repeat split; try reflexivity. lia. }
  cbn [seq RetryHandler.for_attempts].
  destruct (Hall first) as [(err & Hrun & Hre)|(r & Hrun & Hr & Hval)]; [lia| |].
  - destruct (attempt_body_throws_retryable first last_error err Hrun Hre)
      as (evs & -> & Hc & Hb & Hm & _).
    destruct (IH (S first) (Some err)) as (IH1 & IH2 & IH3 & IH4);
      [lia|intros; apply Hall; lia|].
    unfold cat. cbn [fst snd]. rewrite !count_app, Hc, Hb, Hm, IH1, IH2, IH3.
    repeat split; try reflexivity. intros _.
    destruct n as [|n]; [|apply IH4; lia].
    cbn. unfold attempt_error. replace (max_retries options) with first by lia.
    by rewrite Hrun.
  - destruct (first <? max_retries options)%nat eqn:Hlt.
    + destruct (attempt_body_fails_validation first last_error r Hrun Hr Hval Hlt)
        as (evs & -> & Hc & Hb & Hm & _).
      apply Nat.ltb_lt in Hlt.
      match goal with
      | |- context [for_attempts _ (Some ?e)] =>
        destruct (IH (S first) (Some e)) as (IH1 & IH2 & IH3 & IH4);
          [lia|intros; apply Hall; lia|]
      end.
      unfold cat. cbn [fst snd]. rewrite !count_app, Hc, Hb, Hm, IH1, IH2, IH3.
      repeat split; try reflexivity. intros _. apply IH4. lia.
    + destruct (attempt_body_validation_exhausted first last_error r Hrun Hr Hval Hlt)
        as (evs & step & -> & Hstep & Hc & Hb & Hm & _).
      apply Nat.ltb_ge in Hlt. assert (n = 0) as -> by lia.
      assert (first = max_retries options) as Hfirst by lia.
      destruct Hstep as [-> | ->]; cbn [seq RetryHandler.for_attempts cat fst snd];
        rewrite ?app_nil_r, Hc, Hb, Hm; repeat split; try reflexivity;
        intros _; unfold attempt_error; rewrite <- Hfirst, Hrun; reflexivity.
Qed.

(** The behaviour C2 describes holds on the two failure paths the handler
    retries: with a budget of [max_retries >= 1] attempts that all throw a
    retryable error or fail validation, the handler takes [max_retries]
    checkpoints, rolls back [max_retries] times, commits nothing and throws
    the error of the last attempt. *)
Lemma retried_failures_roll_back_every_attempt :
  1 <= max_retries options ->
  (forall attempt, 1 <= attempt <= max_retries options ->
     throws_retryable isRetryableError options attempt
     \/ fails_validation options attempt) ->
  snd run = Throws (Some (attempt_error options (max_retries options)))
  /\ count is_checkpoint (fst run) = max_retries options
  /\ count is_rollback (fst run) = max_retries options
  /\ count is_commit (fst run) = 0.
Proof.
  intros Hmax Hall. unfold run_claude_prompt_with_retry.
  destruct (for_attempts_exhausted (max_retries options) 1 None) as (H1 & H2 & H3 & H4);
    [lia|done|].
  repeat split; try done. apply H4. lia.
Qed.

(** C5.  If the runner throws on attempt 1 an error the classifier holds
    non-retryable, then whatever the attempt budget the handler throws that
    very error, having taken exactly one checkpoint, rolled the workspace
    back exactly once, run the unit exactly once and waited for no back-off:
    no further attempt is made. *)
Theorem non_retryable_error_is_rethrown_at_once err :
  1 <= max_retries options ->
  run_single_attempt options 1 = Js.Rejects err ->
  isRetryableError err = false ->
  snd run = Throws (Some err)
  /\ count is_checkpoint (fst run) = 1
  /\ count is_rollback (fst run) = 1
  /\ count is_run (fst run) = 1
  /\ count is_commit (fst run) = 0
  /\ delays (fst run) = [].
Proof.
  intros Hmax Hrun Hre. unfold run_claude_prompt_with_retry.
  destruct (max_retries options) as [|n] eqn:Hn; [lia|].
  cbn [seq RetryHandler.for_attempts].
  unfold RetryHandler.attempt_body, RetryHandler.on_catch. rewrite Hrun, Hre.
  simpl. repeat split; count_trace.
Qed.


End RetryHandlerProperties.

(** ** The pipeline workflow *)

Section WorkflowProperties.

Import Workflows.

Context {Num : Type} `{Js.Number Num}.
Variable env : @Env Num.

Local Abbreviation M := (@M Num).
Local Abbreviation World := (@World Num).
Local Abbreviation PipelineState := (@PipelineState Num).

Lemma keeps_ret {A} (I : World -> Prop) (a : A) : keeps I (mret a : M A).
Proof. by intros w. Qed.

Lemma keeps_settle {T} (I : World -> Prop) (a : Activity T) : keeps I (settle env a).
Proof. by intros w. Qed.

Lemma keeps_bind {A B} (I : World -> Prop) (m : M A) (k : A -> M B) :
  keeps I m -> (forall a, keeps I (k a)) -> keeps I (m ≫= k).
Proof.
  intros Hm Hk w Hw. unfold mbind, M_bind. specialize (Hm w Hw).
  destruct (m w) as [w' [a|e]]; [by apply Hk | done].
Qed.

Lemma keeps_await {T} (I : World -> Prop) (a : Activity T) :
  keeps I (invoke a) -> keeps I suspend -> keeps I (await env a).
Proof.
  intros Hi Hs. unfold await.
  apply keeps_bind; [done|intros _].
  apply keeps_bind; [done|intros _]. apply keeps_settle.
Qed.

(** *** Properties closed under the steps of the phases *)

Section PhaseInvariant.

Variable I : World -> Prop.

Hypothesis I_metrics : forall name m w, I w -> I (with_state (set_agentMetrics name m) w).
Hypothesis I_push : forall name w, I w -> I (with_state (push_completedAgents name) w).
Hypothesis I_invoke : forall T (a : Activity T), keeps I (invoke a).
Hypothesis I_suspend : keeps I suspend.

Lemma keeps_resume v p : keeps I (resume env v p).
Proof.
  unfold resume. destruct p as [|m|m d|r].
  - destruct (outcome env _ (runVulnAgent v)).
    + apply keeps_bind; [intros w Hw; by apply I_metrics|intros _].
      apply keeps_bind; [intros w Hw; by apply I_push|intros _].
      apply keeps_bind; [apply I_invoke|intros _].
      apply keeps_bind; [apply I_suspend|intros _]. apply keeps_ret.
    + apply keeps_bind; [apply I_suspend|intros _]. apply keeps_ret.
  - destruct (outcome env _ (checkExploitationQueue v)) as [d|e].
    + destruct (shouldExploit d).
      * apply keeps_bind; [apply I_invoke|intros _].
        apply keeps_bind; [apply I_suspend|intros _]. apply keeps_ret.
      * apply keeps_bind; [apply I_suspend|intros _]. apply keeps_ret.
    + apply keeps_bind; [apply I_suspend|intros _]. apply keeps_ret.
  - destruct (outcome env _ (runExploitAgent v)).
    + apply keeps_bind; [intros w Hw; by apply I_metrics|intros _].
      apply keeps_bind; [intros w Hw; by apply I_push|intros _].
      apply keeps_bind; [apply I_suspend|intros _]. apply keeps_ret.
    + apply keeps_bind; [apply I_suspend|intros _]. apply keeps_ret.
  - apply keeps_ret.
Qed.

Lemma keeps_resume_each order : forall ps, keeps I (resume_each env order ps).
Proof.
  induction order as [|v order IH]; intros ps; cbn [resume_each].
  - apply keeps_ret.
  - apply keeps_bind; [apply keeps_resume|intros p]. apply IH.
Qed.

Lemma keeps_allSettled : keeps I (allSettled env).
Proof.
  unfold allSettled. apply keeps_bind.
  - unfold launch. repeat (apply keeps_bind; [apply I_invoke|intros _]).
    apply keeps_bind; [apply I_suspend|intros _]. apply keeps_ret.
  - intros ps. apply keeps_bind; [apply keeps_resume_each|intros ps']. apply keeps_ret.
Qed.

Hypothesis I_header : forall phase agent w,
  In (phase, agent)
     [ (Some "pre-recon", Some "pre-recon"); (Some "recon", Some "recon");
       (Some "vulnerability-exploitation", Some "pipelines");
       (Some "exploitation", None); (Some "reporting", Some "report") ] ->
  I w -> I (with_state (set_currentAgent agent) (with_state (set_currentPhase phase) w)).
Hypothesis I_warn : forall failed, keeps I (warn failed).

Lemma keeps_header {A} phase agent (rest : M A) :
  In (phase, agent)
     [ (Some "pre-recon", Some "pre-recon"); (Some "recon", Some "recon");
       (Some "vulnerability-exploitation", Some "pipelines");
       (Some "exploitation", None); (Some "reporting", Some "report") ] ->
  keeps I rest ->
  keeps I (update (set_currentPhase phase) ;; update (set_currentAgent agent) ;; rest).
Proof.
  intros Hin Hrest w Hw. unfold mbind, M_bind, update. cbn.
  apply Hrest. by apply (I_header phase agent w).
Qed.

Ltac keeps_steps :=
  repeat first
    [ apply keeps_ret
    | apply keeps_await; [apply I_invoke | apply I_suspend]
    | apply I_warn
    | apply keeps_allSettled
    | apply keeps_bind; [|intros ?]
    | (intros w Hw; by apply I_metrics)
    | (intros w Hw; by apply I_push) ].

Lemma keeps_pre_recon : keeps I (execute_pre_recon_phase env).
Proof.
  unfold execute_pre_recon_phase.
  apply keeps_header; [set_solver|]. keeps_steps.
Qed.

Lemma keeps_recon : keeps I (execute_recon_phase env).
Proof.
  unfold execute_recon_phase.
  apply keeps_header; [set_solver|]. keeps_steps.
Qed.

Lemma keeps_vulnerability_exploitation :
  keeps I (execute_vulnerability_exploitation_phase env).
Proof.
  unfold execute_vulnerability_exploitation_phase.
  apply keeps_header; [set_solver|].
  apply keeps_bind; [keeps_steps|intros _].
  apply keeps_bind; [keeps_steps|intros results].
  apply keeps_bind; [destruct (0 <? _)%nat; keeps_steps|intros _].
  apply keeps_header; [set_solver|]. keeps_steps.
Qed.

Lemma keeps_reporting : keeps I (execute_reporting_phase env).
Proof.
  unfold execute_reporting_phase.
  apply keeps_header; [set_solver|]. keeps_steps.
Qed.

Lemma keeps_run_phases : keeps I (run_phases env).
Proof.
  unfold run_phases.
  apply keeps_bind; [apply keeps_pre_recon|intros _].
  apply keeps_bind; [apply keeps_recon|intros _].
  apply keeps_bind; [apply keeps_vulnerability_exploitation|intros _].
  apply keeps_reporting.
Qed.

End PhaseInvariant.

(** *** The terminal transitions *)

Ltac run_monad :=
  repeat progress
    (unfold mbind, mret, M_bind, M_ret, update, get, throw, build_workflow_summary,
       await, invoke, suspend, settle;
     cbn [state suspended calls warnings summary status set_status set_summary
          set_failedAgent set_error set_currentPhase set_currentAgent fst snd
          completedAgents failedAgent error currentAgent currentPhase]).

Lemma terminal_consistent (st : PipelineState) :
  status st <> running -> summary st <> None -> summary_iff_terminal st.
Proof. intros Hs Hm. by split. Qed.

Lemma running_consistent (st : PipelineState) :
  status st = running -> summary st = None -> summary_iff_terminal st.
Proof. intros Hs Hm. unfold summary_iff_terminal. rewrite Hs, Hm. by split. Qed.

(** The [catch] block, from any state: what it leaves behind. *)
Lemma fail_run_spec e w :
  let st' :=
    set_summary (Some (computeSummary (now env AtFailed)
                   (set_error (Some (Js.message e))
                      (set_failedAgent (currentAgent (state w))
                         (set_status failed (state w))))))
      (set_error (Some (Js.message e))
         (set_failedAgent (currentAgent (state w)) (set_status failed (state w)))) in
  exists ws,
    fail_run env e w
    = (mkWorld st' (suspended w ++ [st']) (calls w ++ [call (logWorkflowComplete ws)])
         (warnings w),
       match outcome env _ (logWorkflowComplete ws) with
       | Js.Resolves _ => Js.Rejects e
       | Js.Rejects e' => Js.Rejects e'
       end)
    /\ ws_status ws = failed
    /\ ws_error ws = Some (Js.message e)
    /\ ws_completedAgents ws = completedAgents (state w).
Proof.
  intros st'. unfold fail_run. run_monad.
  match goal with
  | |- context [outcome env _ (logWorkflowComplete ?x)] =>
    exists x; destruct (outcome env _ (logWorkflowComplete x))
  end; done.
Qed.

Lemma fail_run_terminal e w :
  Forall summary_iff_terminal (suspended w) ->
  Forall summary_iff_terminal (suspended (fst (fail_run env e w)))
  /\ status (state (fst (fail_run env e w))) = failed
  /\ summary (state (fst (fail_run env e w))) <> None.
Proof.
  intros Hw. destruct (fail_run_spec e w) as (ws & -> & _). cbn.
  repeat split; try done.
  apply Forall_app. split; [done|]. apply Forall_cons. split; [|done].
  by apply terminal_consistent.
Qed.

Lemma complete_run_terminal w :
  still_running w ->
  Forall summary_iff_terminal (suspended (fst (complete_run env w)))
  /\ status (state (fst (complete_run env w))) = completed
  /\ summary (state (fst (complete_run env w))) <> None.
Proof.
  intros (Hs & Hm & Hw). unfold complete_run. run_monad.
  destruct (outcome env _ _); cbn; repeat split; try done;
    (apply Forall_app; split; [done|]); (apply Forall_cons; split; [|done]);
    by apply terminal_consistent.
Qed.

Lemma still_running_phase_invariant :
  keeps still_running (run_phases env).
Proof.
  apply keeps_run_phases.
  - by intros name m w (? & ? & ?).
  - by intros name w (? & ? & ?).
  - by intros T a w (? & ? & ?).
  - intros w (Hs & Hm & Hw). repeat split; try done. cbn.
    apply Forall_app. split; [done|]. apply Forall_cons. split; [|done].
    by apply running_consistent.
  - by intros phase agent w _ (? & ? & ?).
  - by intros failed w (? & ? & ?).
Qed.

Lemma initial_world_running : still_running (initial_world env).
Proof. repeat split. apply Forall_nil. done. Qed.

(** C1.  The run state is created with status [running] and a [null]
    summary; at every point where the workflow is suspended, and in the
    state the run ends with, the summary is non-null if and only if the
    status is not [running]; and the run always ends in a terminal status
    with its summary set. *)
Theorem summary_is_set_iff_status_is_terminal :
  (status (initial_state env) = running /\ summary (initial_state env) = None)
  /\ Forall summary_iff_terminal (suspended (fst (pentestPipelineWorkflow env)))
  /\ summary_iff_terminal (state (fst (pentestPipelineWorkflow env)))
  /\ status (state (fst (pentestPipelineWorkflow env))) <> running
  /\ summary (state (fst (pentestPipelineWorkflow env))) <> None.
Proof.
  split; [done|].
  assert (Forall summary_iff_terminal (suspended (fst (pentestPipelineWorkflow env)))
          /\ status (state (fst (pentestPipelineWorkflow env))) <> running
          /\ summary (state (fst (pentestPipelineWorkflow env))) <> None) as (H1 & H2 & H3).
  { unfold pentestPipelineWorkflow, try_catch, mbind, M_bind.
    pose proof (still_running_phase_invariant _ initial_world_running) as Hrun.
    destruct (run_phases env (initial_world env)) as [w1 [[]|e]]; cbn [fst] in Hrun.
    - pose proof (complete_run_terminal w1 Hrun) as (Hc1 & Hc2 & Hc3).
      destruct (complete_run env w1) as [w2 [st|e]]; cbn [fst] in *.
      + repeat split; try done; by rewrite Hc2.
      + destruct (fail_run_terminal e w2 Hc1) as (Hf1 & Hf2 & Hf3).
        repeat split; try done; by rewrite Hf2.
    - destruct Hrun as (_ & _ & Hw1).
      destruct (fail_run_terminal e w1 Hw1) as (Hf1 & Hf2 & Hf3).
      repeat split; try done; by rewrite Hf2. }
  repeat split; try done; by apply terminal_consistent.
Qed.

Lemma unit_in_progress_phase_invariant : keeps unit_in_progress (run_phases env).
Proof.
  apply keeps_run_phases.
  1: by intros name m w Hw.
  1: by intros name w Hw.
  1: by intros T a w Hw.
  1: by intros w Hw.
  2: by intros failed w Hw.
  intros phase agent w Hin _ Hord. cbn in Hord |- *.
  unfold ordered_phase in Hord. unfold unit_of_phase.
  repeat (destruct Hin as [[= <- <-]|Hin]; [by destruct Hord as [?|[?|?]]|]).
  destruct Hin.
Qed.

(** C3 (amended).  When a step of an ordered phase makes the [try] block throw [e],
    the workflow ends with status [failed], [failedAgent] the unit of that
    phase (the current agent), [error] the message of [e], the summary
    computed over the state at the failure, and [completedAgents] exactly as
    it stood at the failure.  The last activity invoked is
    [logWorkflowComplete] with a [failed] summary carrying the error and the
    completed units, the failed state is what a query sees while that
    activity is pending, and the workflow's promise rejects: with [e] itself
    when the notification resolves, with the notification's own error when
    it does not. *)
Theorem ordered_phase_failure_is_recorded_and_rethrown w1 e :
  run_phases env (initial_world env) = (w1, Js.Rejects e) ->
  ordered_phase (currentPhase (state w1)) ->
  exists ws e',
    snd (pentestPipelineWorkflow env) = Js.Rejects e'
    /\ (forall u, outcome env _ (logWorkflowComplete ws) = Js.Resolves u -> e' = e)
    /\ (forall e'', outcome env _ (logWorkflowComplete ws) = Js.Rejects e'' -> e' = e'')
    /\ status (state (fst (pentestPipelineWorkflow env))) = failed
    /\ failedAgent (state (fst (pentestPipelineWorkflow env)))
       = unit_of_phase (currentPhase (state w1))
    /\ failedAgent (state (fst (pentestPipelineWorkflow env))) = currentAgent (state w1)
    /\ is_Some (failedAgent (state (fst (pentestPipelineWorkflow env))))
    /\ error (state (fst (pentestPipelineWorkflow env))) = Some (Js.message e)
    /\ (exists sm, summary (state (fst (pentestPipelineWorkflow env))) = Some sm
                   /\ Shared.agentCount sm = length (completedAgents (state w1)))
    /\ completedAgents (state (fst (pentestPipelineWorkflow env)))
       = completedAgents (state w1)
    /\ calls (fst (pentestPipelineWorkflow env))
       = calls w1 ++ [call (logWorkflowComplete ws)]
    /\ suspended (fst (pentestPipelineWorkflow env))
       = suspended w1 ++ [state (fst (pentestPipelineWorkflow env))]
    /\ ws_status ws = failed
    /\ ws_error ws = Some (Js.message e)
    /\ ws_completedAgents ws = completedAgents (state w1).
Proof.
  intros Hrun Hord.
  assert (unit_in_progress w1) as Hunit.
  { pose proof (unit_in_progress_phase_invariant (initial_world env)) as Hk.
    rewrite Hrun in Hk. apply Hk. intros [?|[?|?]]; discriminate. }
  specialize (Hunit Hord).
  assert (pentestPipelineWorkflow env = fail_run env e w1) as ->.
  { unfold pentestPipelineWorkflow, try_catch, mbind, M_bind. by rewrite Hrun. }
  destruct (fail_run_spec e w1) as (ws & -> & Hws1 & Hws2 & Hws3).
  exists ws.
  exists (match outcome env _ (logWorkflowComplete ws) with
          | Js.Resolves _ => e
          | Js.Rejects e' => e'
          end).
  cbn. repeat split; try done.
  - by destruct (outcome env _ (logWorkflowComplete ws)).
  - by intros u ->.
  - by intros e'' ->.
  - rewrite Hunit. unfold unit_of_phase. destruct Hord as [-> | [-> | ->]]; by eexists.
  - by eexists.
Qed.

(** *** The parallel phase *)

Lemma recorded_mono v p (st st' : PipelineState) l :
  completedAgents st' = completedAgents st ++ l ->
  recorded v p st -> recorded v p st'.
Proof.
  intros Heq. destruct p as [|m|m d|[r|e]]; cbn; rewrite ?Heq, ?in_app_iff; tauto.
Qed.

(** One resumption moves a sub-pipeline one step along its way, never
    throws into the workflow, and only appends to [completedAgents]. *)
Lemma resume_spec v p w :
  on_track env v p ->
  exists w' p',
    resume env v p w = (w', Js.Resolves p')
    /\ on_track env v p'
    /\ rank p' <= pred (rank p)
    /\ (exists l, completedAgents (state w') = completedAgents (state w) ++ l)
    /\ (recorded v p (state w) -> recorded v p' (state w')).
Proof.
  intros Htrack. unfold resume.
  destruct p as [|m|m d|r]; cbn [on_track rank] in *.
  - destruct (outcome env _ (runVulnAgent v)) as [m|e] eqn:Hv; run_monad.
    + do 2 eexists. split; [reflexivity|]. cbn. repeat split; try done; try lia.
      * by eexists.
      * intros _. apply in_app_iff. right. by left.
    + do 2 eexists. split; [reflexivity|]. cbn. repeat split; try done; try lia.
      * unfold pipeline_outcome. by rewrite Hv.
      * exists []. by rewrite app_nil_r.
  - destruct (outcome env _ (checkExploitationQueue v)) as [d|e] eqn:Hq;
      [destruct (shouldExploit d) eqn:Hd|]; run_monad;
      (do 2 eexists; split; [reflexivity|]); cbn; repeat split; try done; try lia;
      try (exists []; by rewrite app_nil_r).
    + unfold pipeline_outcome. by rewrite Htrack, Hq, Hd.
    + unfold pipeline_outcome. by rewrite Htrack, Hq.
  - destruct Htrack as (Hv & Hq & Hd).
    destruct (outcome env _ (runExploitAgent v)) as [em|e] eqn:He; run_monad;
      (do 2 eexists; split; [reflexivity|]); cbn; repeat split; try done; try lia.
    + unfold pipeline_outcome. by rewrite Hv, Hq, Hd, He.
    + by eexists.
    + apply in_app_iff. by left.
    + intros _. apply in_app_iff. right. by left.
    + unfold pipeline_outcome. by rewrite Hv, Hq, Hd, He.
    + exists []. by rewrite app_nil_r.
  - do 2 eexists. split; [reflexivity|]. cbn. repeat split; try done.
    exists []. by rewrite app_nil_r.
Qed.

Lemma resume_each_spec order : forall ps w,
  (forall v, on_track env v (ps v) /\ recorded v (ps v) (state w)) ->
  exists w' ps',
    resume_each env order ps w = (w', Js.Resolves ps')
    /\ (forall v, on_track env v (ps' v) /\ recorded v (ps' v) (state w'))
    /\ (forall v, rank (ps' v) <= rank (ps v) - count_occ VulnType_eq_dec order v).
Proof.
  induction order as [|v order IH]; intros ps w Hps; cbn [resume_each].
  - exists w, ps. repeat split; try apply Hps. cbn. lia.
  - destruct (resume_spec v (ps v) w) as (w1 & p1 & Hres & Ht1 & Hr1 & (l & Hl) & Hrec1);
      [apply Hps|].
    destruct (IH (set_pipeline v p1 ps) w1) as (w' & ps' & Heach & Hps' & Hrank).
    { intros v2. unfold set_pipeline. destruct (decide (v2 = v)) as [->|Hne].
      - split; [done|]. apply Hrec1, Hps.
      - split; [apply Hps|]. eapply recorded_mono; [exact Hl|apply Hps]. }
    exists w', ps'. unfold mbind, M_bind. rewrite Hres. split; [done|]. split; [done|].
    intros v2. specialize (Hrank v2). unfold set_pipeline in Hrank. cbn [count_occ].
    destruct (decide (v2 = v)) as [->|Hne].
    + destruct (VulnType_eq_dec v v); [lia|done].
    + destruct (VulnType_eq_dec v v2); [by subst|lia].
Qed.

Lemma settlement_order_covers v :
  3 <= count_occ VulnType_eq_dec (settlement_order env) v.
Proof.
  unfold settlement_order. rewrite !count_occ_app.
  assert (count_occ VulnType_eq_dec vulnTypes v = 1) as -> by (by destruct v).
  lia.
Qed.

(** Whatever the order in which the activities settle, [Promise.allSettled]
    resolves, and to the five sub-pipelines' own outcomes in the order of the
    array literal; the units of a fulfilled sub-pipeline are then listed in
    [completedAgents]. *)
Lemma allSettled_spec w :
  exists w',
    allSettled env w = (w', Js.Resolves (map (pipeline_outcome env) vulnTypes))
    /\ forall v r, pipeline_outcome env v = Js.Resolves r ->
         In (vulnType_name v +:+ "-vuln") (completedAgents (state w')).
Proof.
  unfold allSettled, launch. run_monad.
  match goal with
  | |- context [resume_each env _ ?ps ?w0] =>
    destruct (resume_each_spec (settlement_order env) ps w0) as (w' & ps' & -> & Hps & Hrank);
      [done|]
  end.
  exists w'.
  assert (forall v, ps' v = Done (pipeline_outcome env v)) as Hdone.
  { intros v. specialize (Hrank v). pose proof (settlement_order_covers v).
    destruct (Hps v) as [Ht _]. destruct (ps' v); cbn in *; try lia. by subst. }
  split.
  - unfold pipelineResults, vulnTypes. cbn. by rewrite !Hdone.
  - intros v r Hv. destruct (Hps v) as [_ Hrec]. rewrite Hdone, Hv in Hrec. apply Hrec.
Qed.

(** What the parallel phase leaves alone. *)
Lemma parallel_phase_keeps_terminal_fields st0 :
  keeps (fun w => status (state w) = status st0 /\ failedAgent (state w) = failedAgent st0
                  /\ error (state w) = error st0 /\ summary (state w) = summary st0)
    (execute_vulnerability_exploitation_phase env).
Proof.
  apply keeps_vulnerability_exploitation.
  1: by intros name m w Hw.
  1: by intros name w Hw.
  1: by intros T a w Hw.
  1: by intros w Hw.
  1: by intros phase agent w _ Hw.
  by intros failed w Hw.
Qed.

Lemma allSettled_keeps_warnings W : keeps (fun w => warnings w = W) (allSettled env).
Proof.
  apply keeps_allSettled.
  1: by intros name m w Hw.
  1: by intros name w Hw.
  1: by intros T a w Hw.
  by intros w Hw.
Qed.


(** *** The query handler *)

(** C9 (amended).  Two calls of the [getProgress] handler on the same run
    state return snapshots that agree on every field copied from the state
    and on [workflowId]; [elapsedMs] is the clock reading of the call minus
    [startTime], so the two snapshots are equal exactly when the clock reads
    the same at both calls. *)
Theorem query_snapshots_agree_up_to_elapsed_time workflowId (now1 now2 : Z)
  (st : PipelineState) :
  (getProgress workflowId now1 st = getProgress workflowId now2 st <-> now1 = now2)
  /\ Shared.elapsedMs (getProgress workflowId now1 st) = (now1 - startTime st)%Z
  /\ Shared.status (getProgress workflowId now1 st)
     = Shared.status (getProgress workflowId now2 st)
  /\ Shared.currentPhase (getProgress workflowId now1 st)
     = Shared.currentPhase (getProgress workflowId now2 st)
  /\ Shared.currentAgent (getProgress workflowId now1 st)
     = Shared.currentAgent (getProgress workflowId now2 st)
  /\ Shared.completedAgents (getProgress workflowId now1 st)
     = Shared.completedAgents (getProgress workflowId now2 st)
  /\ Shared.failedAgent (getProgress workflowId now1 st)
     = Shared.failedAgent (getProgress workflowId now2 st)
  /\ Shared.error (getProgress workflowId now1 st)
     = Shared.error (getProgress workflowId now2 st)
  /\ Shared.startTime (getProgress workflowId now1 st)
     = Shared.startTime (getProgress workflowId now2 st)
  /\ Shared.agentMetrics (getProgress workflowId now1 st)
     = Shared.agentMetrics (getProgress workflowId now2 st)
  /\ Shared.summary (getProgress workflowId now1 st)
     = Shared.summary (getProgress workflowId now2 st)
  /\ Shared.workflowId (getProgress workflowId now1 st)
     = Shared.workflowId (getProgress workflowId now2 st).
Proof.
  repeat split; try reflexivity.
  - intros Heq. apply (f_equal Shared.elapsedMs) in Heq. cbn in Heq. lia.
  - by intros ->.
Qed.

End WorkflowProperties.

(** ** The Temporal bridge *)

Section TemporalBridgeProperties.

Import TemporalBridge.

Context {Num : Type}.

(** C7 (amended).  When the query resolves and [describe()] reports a
    status other than running, [getProgress] resolves to a snapshot whose
    status is the authoritative one; whose [currentPhase], [currentAgent],
    [completedAgents], [failedAgent], [agentMetrics], summary and
    [workflowId] are the query's; whose [error] is the query's when it has
    one and the reconciliation note otherwise; whose [startTime] is the
    authoritative start time when [describe()] gives one (the query's
    otherwise); and whose [elapsedMs] is the larger of the query's and the
    time since that start. *)
Theorem reconciliation_trusts_the_authoritative_status
  (t : @Temporal Num) workflowId progress description :
  connect t = Js.Resolves tt ->
  query t = Js.Resolves progress ->
  describe t = Js.Resolves description ->
  to_progress_status (status_name description) <> running ->
  exists p,
    getProgress t workflowId = Js.Resolves p
    /\ Shared.status p = to_progress_status (status_name description)
    /\ Shared.currentPhase p = Shared.currentPhase progress
    /\ Shared.currentAgent p = Shared.currentAgent progress
    /\ Shared.completedAgents p = Shared.completedAgents progress
    /\ Shared.failedAgent p = Shared.failedAgent progress
    /\ Shared.agentMetrics p = Shared.agentMetrics progress
    /\ Shared.summary p = Shared.summary progress
    /\ Shared.workflowId p = Shared.workflowId progress
    /\ (Shared.error progress = None ->
        Shared.error p = Some (reconciliation_note description))
    /\ (forall msg, Shared.error progress = Some msg -> Shared.error p = Some msg)
    /\ Shared.startTime p
       = Js.nullish (startTime description) (Shared.startTime progress)
    /\ Shared.elapsedMs p
       = Z.max (Shared.elapsedMs progress) (Z.max 0 (now t - Shared.startTime p)).
Proof.
  intros Hc Hq Hd Hterminal. exists (reconciled progress description (now t)).
  unfold getProgress. rewrite Hc, Hq, Hd. rewrite decide_True by done.
  cbn. repeat split; try done.
  - by intros ->.
  - by intros msg ->.
Qed.

End TemporalBridgeProperties.

(** ** The WebSocket server *)

Section WsServerProperties.

Import WsServer.

Context {Num : Type}.

Variable blank : list byte -> bool.
Variable chunks : list byte -> list (list byte).

Local Abbreviation Server := (@Server Num).
Local Abbreviation ClientSubscription := (@ClientSubscription Num).
Local Abbreviation poll := (@poll Num blank chunks).
Local Abbreviation tail_log := (@tail_log Num blank chunks).
Local Abbreviation tail_logs := (@tail_logs Num blank chunks).
Local Abbreviation read_stream := (read_stream blank chunks).
Local Abbreviation streamLogs := (@streamLogs Num blank chunks).
Local Abbreviation Sent := (@Sent Num).
Local Abbreviation logs_sent := (@logs_sent Num).

(** *** Repeated polling errors *)

(** A failed poll: who is told, and what is remembered of the error. *)
Lemma poll_failure workflowId (e : Js.Error Num) now file (srv : Server) :
  let msg := "Failed to query workflow: " +:+ Js.message e in
  let should := fst (shouldBroadcastPollingError workflowId now msg srv) in
  subscriptions (fst (poll workflowId (Js.Rejects e) now file srv)) = subscriptions srv
  /\ snd (poll workflowId (Js.Rejects e) now file srv)
     = (if should
        then map (fun sub => (ws sub, error msg))
               (Js.nullish (subscriptions srv !! workflowId) [])
        else [])
  /\ (should = true -> is_Some (subscriptions srv !! workflowId) ->
      lastPollErrors (fst (poll workflowId (Js.Rejects e) now file srv)) !! workflowId
      = Some {| message := msg; timestampMs := now |}).
Proof.
  intros msg should. subst should. unfold poll. fold msg.
  unfold shouldBroadcastPollingError, schedule_next, broadcast, stopPolling.
  destruct (lastPollErrors srv !! workflowId) as [previous|];
    [destruct (negb _ || _)|]; cbn;
    destruct (subscriptions srv !! workflowId) as [subs|]; cbn;
    repeat split; try done;
    try (intros _ _; by rewrite lookup_insert_eq);
    by intros _ [? ?].
Qed.

(** C8 (amended).  Take two successive failed polls of a run whose errors
    carry the same text, the second at most 30000 ms after the first.  If
    the first failure is broadcast, every subscription of the run is sent
    that one [error] message and the second failure sends nothing.  If the
    first failure is itself suppressed it sends nothing.  So the two
    failures never both reach the subscribers; and the first is broadcast
    whenever no polling error is on record for the run. *)
Theorem repeated_polling_error_is_sent_at_most_once
  workflowId (e1 e2 : Js.Error Num) (now1 now2 : Z) file1 file2 (srv : Server) :
  Js.message e1 = Js.message e2 ->
  (now2 - now1 <= 30000)%Z ->
  let msg := "Failed to query workflow: " +:+ Js.message e1 in
  let first_is_sent := fst (shouldBroadcastPollingError workflowId now1 msg srv) in
  let srv1 := fst (poll workflowId (Js.Rejects e1) now1 file1 srv) in
  let sent1 := snd (poll workflowId (Js.Rejects e1) now1 file1 srv) in
  let sent2 := snd (poll workflowId (Js.Rejects e2) now2 file2 srv1) in
  (first_is_sent = true ->
     sent1 = map (fun sub => (ws sub, error msg))
               (Js.nullish (subscriptions srv !! workflowId) [])
     /\ sent2 = [])
  /\ (first_is_sent = false -> sent1 = [])
  /\ (lastPollErrors srv !! workflowId = None -> first_is_sent = true).
Proof.
  intros Hmsg Hnow. cbv zeta.
  pose proof (poll_failure workflowId e1 now1 file1 srv) as H1. cbv zeta in H1.
  destruct H1 as (Hsubs & Hsent1 & Hlast).
  pose proof (poll_failure workflowId e2 now2 file2
                (fst (poll workflowId (Js.Rejects e1) now1 file1 srv))) as H2.
  cbv zeta in H2. destruct H2 as (_ & Hsent2 & _).
  rewrite <- Hmsg in Hsent2. rewrite Hsubs in Hsent2.
  set (msg := "Failed to query workflow: " +:+ Js.message e1) in *.
  split; [|split].
  - intros Hfirst. rewrite Hfirst in Hsent1. split; [done|].
    rewrite Hsent2.
    destruct (subscriptions srv !! workflowId) as [subs|] eqn:Hlookup;
      [|destruct (fst (shouldBroadcastPollingError workflowId now2 _ _)); reflexivity].
    unfold shouldBroadcastPollingError. rewrite (Hlast Hfirst) by by eexists.
    cbn. rewrite bool_decide_eq_true_2 by done. cbn.
    by replace (30000 <? now2 - now1)%Z with false by (symmetry; apply Z.ltb_ge; lia).
  - intros Hfirst. by rewrite Hfirst in Hsent1.
  - intros Hnone. unfold shouldBroadcastPollingError. by rewrite Hnone.
Qed.

(** *** Tailing the log *)

Lemma split_newline_nonempty text : split_newline text <> [].
Proof.
  destruct text as [|c text]; cbn; [done|].
  destruct (decide (c = newline)); [done|]. by destruct (split_newline text).
Qed.

Lemma split_newline_cons c text :
  c <> newline ->
  complete_lines (c :: text) =
    match complete_lines text with
    | [] => []
    | line :: lines => (c :: line) :: lines
    end
  /\ pending (c :: text) =
     match complete_lines text with
     | [] => c :: pending text
     | _ => pending text
     end.
Proof.
  intros Hc. unfold complete_lines, pending. cbn [split_newline].
  rewrite decide_False by done.
  pose proof (split_newline_nonempty text) as Hne.
  destruct (split_newline text) as [|line [|line' lines]]; done.
Qed.

(** Splitting a text that arrives in two pieces: the complete lines of the
    first piece, then the split of what was pending followed by the second
    piece. *)
Lemma split_newline_app a b :
  split_newline (a ++ b) = complete_lines a ++ split_newline (pending a ++ b).
Proof.
  induction a as [|c a IH]; [done|].
  destruct (decide (c = newline)) as [->|Hc].
  - unfold complete_lines, pending in *. cbn [app split_newline].
    rewrite decide_True by done. rewrite IH.
    pose proof (split_newline_nonempty a) as Hne.
    by destruct (split_newline a).
  - destruct (split_newline_cons c a Hc) as [-> ->].
    cbn [app split_newline]. rewrite decide_False by done. rewrite IH.
    destruct (complete_lines a) as [|line lines]; cbn [app]; [|done].
    cbn [split_newline]. by rewrite decide_False by done.
Qed.

Lemma complete_lines_app a b :
  complete_lines (a ++ b) = complete_lines a ++ complete_lines (pending a ++ b).
Proof.
  unfold complete_lines at 1. rewrite split_newline_app.
  by rewrite removelast_app by apply split_newline_nonempty.
Qed.

Lemma last_app_nonempty {A} (l1 l2 : list A) (d : A) :
  l2 <> [] -> List.last (l1 ++ l2) d = List.last l2 d.
Proof.
  intros Hne. induction l1 as [|x l1 IH]; [done|].
  cbn [app]. rewrite <- IH. cbn. destruct (l1 ++ l2) eqn:Happ; [|done].
  by destruct l1, l2.
Qed.

Lemma pending_app a b : pending (a ++ b) = pending (pending a ++ b).
Proof.
  change (List.last (split_newline (a ++ b)) []
          = List.last (split_newline (pending a ++ b)) []).
  rewrite split_newline_app. apply last_app_nonempty, split_newline_nonempty.
Qed.

Lemma split_newline_terminated rest more :
  newline ∉ rest ->
  split_newline (rest ++ newline :: more) = rest :: split_newline more.
Proof.
  induction rest as [|c rest IH]; intros Hnl.
  - cbn. by rewrite decide_True.
  - cbn [app split_newline]. rewrite decide_False by set_solver.
    rewrite IH by set_solver. done.
Qed.

(** The ['data'] listener over any sequence of chunks keeps as buffer the
    pending bytes of all it has read and has sent the non-blank complete
    lines. *)
Lemma on_data_fold cs : forall text sent,
  fold_left (on_data blank) cs
    (pending text, sent ++ List.filter (fun line => negb (blank line)) (complete_lines text))
  = (pending (text ++ concat cs),
     sent ++ List.filter (fun line => negb (blank line))
               (complete_lines (text ++ concat cs))).
Proof.
  induction cs as [|chunk cs IH]; intros text sent; cbn [fold_left concat].
  - by rewrite app_nil_r.
  - unfold on_data at 2. cbn [fst snd]. fold (pending (pending text ++ chunk)).
    fold (complete_lines (pending text ++ chunk)).
    rewrite <- pending_app, <- app_assoc, <- List.filter_app, <- complete_lines_app.
    rewrite IH. by rewrite <- app_assoc.
Qed.

Hypothesis chunks_concat : forall data, concat (chunks data) = data.

(** However the stream is cut into chunks, it sends the non-blank complete
    lines of what it reads. *)
Lemma read_stream_lines start file :
  read_stream start file
  = List.filter (fun line => negb (blank line))
      (complete_lines (drop start (contents file))).
Proof.
  unfold WsServer.read_stream.
  pose proof (on_data_fold (chunks (drop start (contents file))) [] []) as Hfold.
  cbn in Hfold. rewrite Hfold. by rewrite chunks_concat.
Qed.

(** A text is its complete lines, each with its newline, and then its
    pending bytes, which hold no newline. *)
Lemma split_newline_join text :
  concat (map (fun line => line ++ [newline]) (complete_lines text)) ++ pending text = text
  /\ newline ∉ pending text.
Proof.
  induction text as [|c text [IHtext IHnl]]; [split; [done|by apply not_elem_of_nil]|].
  destruct (decide (c = newline)) as [->|Hc].
  - assert (complete_lines (newline :: text) = [] :: complete_lines text
            /\ pending (newline :: text) = pending text) as [-> ->].
    { unfold complete_lines, pending. cbn [split_newline]. rewrite decide_True by done.
      pose proof (split_newline_nonempty text) as Hne.
      by destruct (split_newline text). }
    split; [|done]. cbn [map concat app]. by rewrite IHtext.
  - destruct (split_newline_cons c text Hc) as [-> ->].
    destruct (complete_lines text) as [|line lines]; cbn [map concat app] in *.
    + split; [by rewrite IHtext|]. apply not_elem_of_cons. by split.
    + split; [|done]. by rewrite IHtext.
Qed.

(** *** What a poll reads of the log *)

Lemma for_each_lookup body workflowId (srv : Server) subs :
  subscriptions srv !! workflowId = Some subs ->
  subscriptions (fst (for_each_subscription body workflowId srv)) !! workflowId
    = Some (map (fun sub => fst (body sub)) subs)
  /\ snd (for_each_subscription body workflowId srv)
     = concat (map (fun sub => snd (body sub)) subs).
Proof.
  intros Hlookup. unfold for_each_subscription. rewrite Hlookup. cbn.
  by rewrite lookup_insert_eq.
Qed.

Lemma streamLogs_lookup workflowId file (srv : Server) subs :
  subscriptions srv !! workflowId = Some subs ->
  subscriptions (fst (streamLogs workflowId file srv)) !! workflowId
    = Some (match file with
            | Some f => map (fun sub => fst (tail_log f sub)) subs
            | None => subs
            end)
  /\ snd (streamLogs workflowId file srv)
     = match file with
       | Some f => concat (map (fun sub => snd (tail_log f sub)) subs)
       | None => []
       end.
Proof.
  intros Hlookup. destruct file as [f|]; [|done]. by apply for_each_lookup.
Qed.

(** [poll] on an answered query, step by step. *)
Lemma poll_resolves workflowId data now file (srv : Server) :
  let srv1 := fst (broadcastProgress workflowId data srv) in
  let sent1 := snd (broadcastProgress workflowId data srv) in
  poll workflowId (Js.Resolves data) now file srv
  = if decide (Shared.status data = running) then
      (fst (streamLogs workflowId file (schedule_next workflowId pollInterval srv1)),
       sent1 ++ snd (streamLogs workflowId file (schedule_next workflowId pollInterval srv1)))
    else
      (fst (streamLogs workflowId file (stopPolling workflowId srv1)),
       sent1
         ++ broadcast workflowId
              (complete_or_failed (Shared.status data) workflowId (Shared.error data))
              (stopPolling workflowId srv1)
         ++ snd (streamLogs workflowId file (stopPolling workflowId srv1))).
Proof.
  cbn zeta. unfold WsServer.poll.
  destruct (broadcastProgress workflowId data srv) as [srv1 sent1]. cbn [fst snd].
  destruct (decide (Shared.status data = running));
    by destruct (WsServer.streamLogs _ _ _ _ _).
Qed.

Lemma logs_sent_app (a b : list Sent) : logs_sent (a ++ b) = logs_sent a ++ logs_sent b.
Proof. apply omap_app. Qed.

Lemma logs_sent_concat (l : list (list Sent)) :
  logs_sent (concat l) = concat (map logs_sent l).
Proof.
  induction l as [|a l IH]; [done|]. cbn [concat map]. by rewrite logs_sent_app, IH.
Qed.

Lemma logs_sent_lines socket (lines : list (list byte)) :
  logs_sent (map (fun line => (socket, log line)) lines)
  = map (fun line => (socket, line)) lines.
Proof. induction lines as [|line lines IH]; [done|]. cbn. by f_equal. Qed.

Lemma logs_sent_none (sent : list Sent) :
  Forall (fun m : Sent => forall line, snd m <> log line) sent -> logs_sent sent = [].
Proof.
  induction 1 as [|[socket msg] sent Hm _ IH]; [done|].
  change (logs_sent ([(socket, msg)] ++ sent) = []). rewrite logs_sent_app, IH.
  destruct msg; try done. by destruct (Hm line).
Qed.

Lemma broadcastProgress_sends_no_log workflowId data (srv : Server) :
  logs_sent (snd (broadcastProgress workflowId data srv)) = [].
Proof.
  apply logs_sent_none. unfold broadcastProgress, for_each_subscription.
  destruct (subscriptions srv !! workflowId) as [subs|]; [|by constructor].
  cbn. apply Forall_concat, Forall_map, Forall_forall. intros sub _.
  unfold send_progress. cbn. apply Forall_app. split; [|by repeat constructor].
  destruct (lastProgress sub) as [last|]; [|by constructor].
  destruct (decide _); by repeat constructor.
Qed.

(** Whatever the answer says of the run, a poll whose query is answered
    tails the log for every subscription from the offset the subscription
    stands at, and sends no other [log] event. *)
Lemma poll_tails workflowId data now file (srv : Server) subs :
  subscriptions srv !! workflowId = Some subs ->
  subscriptions (fst (poll workflowId (Js.Resolves data) now (Some file) srv)) !! workflowId
    = Some (map (fun sub => fst (tail_log file (fst (send_progress data sub)))) subs)
  /\ logs_sent (snd (poll workflowId (Js.Resolves data) now (Some file) srv))
     = concat (map (fun sub => logs_sent (snd (tail_log file sub))) subs).
Proof.
  intros Hlookup. rewrite poll_resolves. cbv zeta. unfold broadcastProgress.
  pose proof (broadcastProgress_sends_no_log workflowId data srv) as Hnone.
  unfold broadcastProgress in Hnone.
  destruct (for_each_lookup (send_progress data) workflowId srv subs Hlookup) as [Hsubs1 _].
  set (srv1 := fst (for_each_subscription (send_progress data) workflowId srv)) in *.
  assert (forall srv2 : Server,
            subscriptions srv2 !! workflowId
            = Some (map (fun sub => fst (send_progress data sub)) subs) ->
            subscriptions (fst (streamLogs workflowId (Some file) srv2)) !! workflowId
            = Some (map (fun sub => fst (tail_log file (fst (send_progress data sub)))) subs)
            /\ logs_sent (snd (streamLogs workflowId (Some file) srv2))
               = concat (map (fun sub => logs_sent (snd (tail_log file sub))) subs))
    as Hstream.
  { intros srv2 Hsubs2.
    destruct (streamLogs_lookup workflowId (Some file) srv2 _ Hsubs2) as [-> ->].
    rewrite !map_map. split; [done|]. rewrite logs_sent_concat, map_map.
    f_equal. apply map_ext. intros sub. unfold WsServer.tail_log, send_progress.
    cbn [fst logPosition ws]. by destruct (logPosition sub <? size file)%nat. }
  destruct (decide (Shared.status data = running)); cbn [fst snd].
  - destruct (Hstream (schedule_next workflowId pollInterval srv1)) as [-> Hlogs].
    { unfold schedule_next. rewrite Hsubs1. cbn. exact Hsubs1. }
    by rewrite logs_sent_app, Hnone, Hlogs.
  - destruct (Hstream (stopPolling workflowId srv1)) as [-> Hlogs]; [exact Hsubs1|].
    rewrite !logs_sent_app, Hnone, Hlogs. rewrite logs_sent_none; [done|].
    unfold broadcast. cbn [subscriptions stopPolling]. rewrite Hsubs1.
    apply Forall_map, Forall_forall. by intros sub _ line.
Qed.

(** *** Polls do not look behind the offsets *)

Lemma tail_log_behind prefix file (sub : ClientSubscription) :
  tail_log (behind prefix file) (further (length prefix) sub)
  = (further (length prefix) (fst (tail_log file sub)), snd (tail_log file sub)).
Proof.
  unfold WsServer.tail_log, behind, further. cbn [size contents logPosition ws workflowId
    lastProgress].
  replace (length prefix + logPosition sub <? length prefix + size file)%nat
    with (logPosition sub <? size file)%nat
    by (destruct (Nat.ltb_spec (logPosition sub) (size file));
        symmetry; [apply Nat.ltb_lt|apply Nat.ltb_ge]; lia).
  destruct (logPosition sub <? size file)%nat; cbn [fst snd]; [|done].
  unfold WsServer.read_stream. cbn [contents].
  rewrite drop_app_ge by lia.
  by replace (length prefix + logPosition sub - length prefix) with (logPosition sub) by lia.
Qed.

Lemma for_each_ahead n workflowId body body' (a b : Server) :
  (forall sub : ClientSubscription,
     body (further n sub) = (further n (fst (body' sub)), snd (body' sub))) ->
  ahead n workflowId a b ->
  ahead n workflowId (fst (for_each_subscription body workflowId a))
    (fst (for_each_subscription body' workflowId b))
  /\ snd (for_each_subscription body workflowId a)
     = snd (for_each_subscription body' workflowId b).
Proof.
  intros Hbody Hab. pose proof Hab as (Hpoll & Herr & Hsubs).
  unfold for_each_subscription. rewrite Hsubs.
  destruct (subscriptions b !! workflowId) as [subs|] eqn:Hb; cbn; [|done].
  split.
  - split; [done|]. split; [done|]. cbn. rewrite !lookup_insert_eq. cbn.
    f_equal. rewrite !map_map. apply map_ext. intros sub. by rewrite Hbody.
  - f_equal. rewrite map_map. apply map_ext. intros sub. by rewrite Hbody.
Qed.

Lemma ahead_is_Some n workflowId (a b : Server) :
  ahead n workflowId a b ->
  subscriptions a !! workflowId = None <-> subscriptions b !! workflowId = None.
Proof. intros (_ & _ & ->). by destruct (subscriptions b !! workflowId). Qed.

Lemma stopPolling_ahead n workflowId (a b : Server) :
  ahead n workflowId a b -> ahead n workflowId (stopPolling workflowId a) (stopPolling workflowId b).
Proof. intros (Hpoll & Herr & Hsubs). split; [|split]; cbn; congruence. Qed.

Lemma schedule_next_ahead n workflowId delay (a b : Server) :
  ahead n workflowId a b ->
  ahead n workflowId (schedule_next workflowId delay a) (schedule_next workflowId delay b).
Proof.
  intros Hab. pose proof (ahead_is_Some _ _ _ _ Hab) as Hnone.
  unfold schedule_next.
  destruct (subscriptions a !! workflowId) as [subs_a|],
           (subscriptions b !! workflowId) as [subs_b|] eqn:Hb.
  - destruct Hab as (Hpoll & Herr & Hsubs). split; [|split]; cbn; [congruence|done|].
    by rewrite Hsubs, Hb.
  - by destruct Hnone as [_ Hnone]; specialize (Hnone eq_refl).
  - by destruct Hnone as [Hnone _]; specialize (Hnone eq_refl).
  - by apply stopPolling_ahead.
Qed.

Lemma broadcast_ahead n workflowId msg (a b : Server) :
  ahead n workflowId a b -> broadcast workflowId msg a = broadcast workflowId msg b.
Proof.
  intros (_ & _ & Hsubs). unfold broadcast. rewrite Hsubs.
  destruct (subscriptions b !! workflowId) as [subs|]; cbn; [|done].
  by rewrite map_map.
Qed.

Lemma streamLogs_ahead prefix workflowId file (a b : Server) :
  ahead (length prefix) workflowId a b ->
  ahead (length prefix) workflowId
    (fst (streamLogs workflowId (behind prefix <$> file) a))
    (fst (streamLogs workflowId file b))
  /\ snd (streamLogs workflowId (behind prefix <$> file) a)
     = snd (streamLogs workflowId file b).
Proof.
  intros Hab. destruct file as [f|]; cbn; [|done].
  apply for_each_ahead; [|done]. intros sub. apply tail_log_behind.
Qed.

(** A poll of a server whose subscriptions to the run stand [length prefix]
    bytes further, on a log that holds [prefix] before the rest, sends what
    the poll sends without the prefix: what lies behind the offsets has no
    part in it. *)
Lemma poll_ahead prefix workflowId answer now file (a b : Server) :
  ahead (length prefix) workflowId a b ->
  ahead (length prefix) workflowId
    (fst (poll workflowId answer now (behind prefix <$> file) a))
    (fst (poll workflowId answer now file b))
  /\ snd (poll workflowId answer now (behind prefix <$> file) a)
     = snd (poll workflowId answer now file b).
Proof.
  intros Hab. destruct answer as [data|e].
  - rewrite !poll_resolves. cbv zeta. unfold broadcastProgress.
    destruct (for_each_ahead (length prefix) workflowId (send_progress data)
                (send_progress data) a b (fun _ => eq_refl) Hab) as [Hab1 ->].
    destruct (decide (Shared.status data = running)); cbn [fst snd].
    + destruct (streamLogs_ahead prefix workflowId file _ _
                  (schedule_next_ahead _ _ pollInterval _ _ Hab1)) as [Hab2 ->].
      by split.
    + pose proof (stopPolling_ahead _ _ _ _ Hab1) as Hab2.
      destruct (streamLogs_ahead prefix workflowId file _ _ Hab2) as [Hab3 ->].
      by rewrite (broadcast_ahead _ _ _ _ _ Hab2).
  - unfold WsServer.poll.
    assert (ahead (length prefix) workflowId
              (snd (shouldBroadcastPollingError workflowId now
                      ("Failed to query workflow: " +:+ Js.message e) a))
              (snd (shouldBroadcastPollingError workflowId now
                      ("Failed to query workflow: " +:+ Js.message e) b))
            /\ fst (shouldBroadcastPollingError workflowId now
                      ("Failed to query workflow: " +:+ Js.message e) a)
               = fst (shouldBroadcastPollingError workflowId now
                        ("Failed to query workflow: " +:+ Js.message e) b)) as [Hab1 Hshould].
    { destruct Hab as (Hpoll & Herr & Hsubs). unfold shouldBroadcastPollingError.
      rewrite Herr. destruct (lastPollErrors b !! workflowId) as [previous|];
        [destruct (_ || _)|]; cbn; (split; [|done]); split; try split; cbn;
        congruence. }
    destruct (shouldBroadcastPollingError _ _ _ a) as [should_a a1],
             (shouldBroadcastPollingError _ _ _ b) as [should_b b1].
    cbn [fst snd] in *. subst should_b. split.
    + by apply schedule_next_ahead.
    + destruct should_a; [|done]. by apply (broadcast_ahead (length prefix)).
Qed.

Lemma polls_ahead prefix workflowId inputs : forall a b : Server,
  ahead (length prefix) workflowId a b ->
  snd (polls blank chunks workflowId
         (map (fun input => (input.1.1, input.1.2, behind prefix <$> input.2)) inputs) a)
  = snd (polls blank chunks workflowId inputs b).
Proof.
  induction inputs as [|[[answer now] file] inputs IH]; intros a b Hab; [done|].
  cbn [map polls fst snd].
  destruct (poll_ahead prefix workflowId answer now file a b Hab) as [Hab1 Hsent].
  destruct (WsServer.poll blank chunks workflowId answer now (behind prefix <$> file) a)
    as [a1 sent_a],
    (WsServer.poll blank chunks workflowId answer now file b) as [b1 sent_b].
  cbn [fst snd] in *. specialize (IH a1 b1 Hab1).
  destruct (polls blank chunks workflowId _ a1) as [a2 sents_a],
           (polls blank chunks workflowId inputs b1) as [b2 sents_b].
  cbn [fst snd] in *. by subst.
Qed.


End WsServerProperties.

(** * The theorems at concrete runs *)

Section ConcreteRuns.

Import Examples.

(** ** Retry handler *)

(** C2: three attempts that each resolve with [success: false] leave three
    checkpoints, no rollback, and a thrown [undefined]. *)
Lemma reported_failures_are_never_rolled_back_witness :
  (forall attempt, RetryHandler.reports_failure reports_failure_thrice attempt)
  /\ snd (RetryHandler.run_claude_prompt_with_retry
            ErrorPatterns.isRetryableError getRetryDelay reports_failure_thrice)
     = RetryHandler.Throws None
  /\ RetryHandler.count RetryHandler.is_checkpoint
       (fst (RetryHandler.run_claude_prompt_with_retry
               ErrorPatterns.isRetryableError getRetryDelay reports_failure_thrice)) = 3
  /\ RetryHandler.count RetryHandler.is_rollback
       (fst (RetryHandler.run_claude_prompt_with_retry
               ErrorPatterns.isRetryableError getRetryDelay reports_failure_thrice)) = 0.
Proof.
  assert (forall attempt, RetryHandler.reports_failure reports_failure_thrice attempt) as Hall.
  { intros attempt. exists failed_result. split; reflexivity. }
  split; [exact Hall|].
  destruct (reported_failures_are_never_rolled_back
              ErrorPatterns.isRetryableError getRetryDelay reports_failure_thrice Hall)
    as (H1 & H2 & H3 & _).
  repeat split; assumption.
Defined.

(** C5: ["invalid api key"] on attempt 1 of 3. *)
Lemma non_retryable_error_is_rethrown_at_once_witness :
  (1 <= RetryHandler.max_retries throws_invalid_api_key
   /\ RetryHandler.run_single_attempt throws_invalid_api_key 1 = Js.Rejects invalid_api_key
   /\ ErrorPatterns.isRetryableError invalid_api_key = false)
  /\ snd (RetryHandler.run_claude_prompt_with_retry
            ErrorPatterns.isRetryableError getRetryDelay throws_invalid_api_key)
     = RetryHandler.Throws (Some invalid_api_key)
  /\ RetryHandler.count RetryHandler.is_checkpoint
       (fst (RetryHandler.run_claude_prompt_with_retry
               ErrorPatterns.isRetryableError getRetryDelay throws_invalid_api_key)) = 1
  /\ RetryHandler.count RetryHandler.is_rollback
       (fst (RetryHandler.run_claude_prompt_with_retry
               ErrorPatterns.isRetryableError getRetryDelay throws_invalid_api_key)) = 1
  /\ RetryHandler.count RetryHandler.is_run
       (fst (RetryHandler.run_claude_prompt_with_retry
               ErrorPatterns.isRetryableError getRetryDelay throws_invalid_api_key)) = 1.
Proof.
  split; [split; [cbn; lia|split; reflexivity]|].
  destruct (non_retryable_error_is_rethrown_at_once
              ErrorPatterns.isRetryableError getRetryDelay throws_invalid_api_key
              invalid_api_key)
    as (H1 & H2 & H3 & H4 & _); [cbn; lia|reflexivity|reflexivity|].
  repeat split; assumption.
Defined.



(** ** Workflow *)

(** C3: the reconnaissance unit fails with an invalid API key, and the
    notice that the run failed is rejected by the activity worker.  The
    workflow rejects with the error of the notice: the caller does not see
    the error of the phase. *)
Lemma ordered_phase_failure_counterexample :
  exists w1,
    Workflows.run_phases recon_and_notice_reject
      (Workflows.initial_world recon_and_notice_reject)
    = (w1, Js.Rejects invalid_api_key)
    /\ Workflows.ordered_phase (Workflows.currentPhase (Workflows.state w1))
    /\ snd (Workflows.pentestPipelineWorkflow recon_and_notice_reject)
       = Js.Rejects connection_refused
    /\ snd (Workflows.pentestPipelineWorkflow recon_and_notice_reject)
       <> Js.Rejects invalid_api_key.
Proof.
  eexists. split; [vm_compute; reflexivity|].
  split; [right; left; vm_compute; reflexivity|].
  split; [vm_compute; reflexivity|]. vm_compute. discriminate.
Qed.

(** C3: the reconnaissance unit fails after the pre-reconnaissance unit has
    completed, and the notice that the run failed is delivered. *)
Lemma ordered_phase_failure_is_recorded_and_rethrown_witness :
  (Workflows.run_phases recon_rejects (Workflows.initial_world recon_rejects)
   = (fst (Workflows.run_phases recon_rejects (Workflows.initial_world recon_rejects)),
      Js.Rejects invalid_api_key)
   /\ Workflows.ordered_phase
        (Workflows.currentPhase
           (Workflows.state
              (fst (Workflows.run_phases recon_rejects
                      (Workflows.initial_world recon_rejects))))))
  /\ snd (Workflows.pentestPipelineWorkflow recon_rejects) = Js.Rejects invalid_api_key
  /\ Workflows.status (Workflows.state (fst (Workflows.pentestPipelineWorkflow recon_rejects)))
     = Shared.failed
  /\ Workflows.failedAgent
       (Workflows.state (fst (Workflows.pentestPipelineWorkflow recon_rejects)))
     = Some "recon"
  /\ Workflows.error (Workflows.state (fst (Workflows.pentestPipelineWorkflow recon_rejects)))
     = Some "invalid api key"
  /\ Workflows.completedAgents
       (Workflows.state (fst (Workflows.pentestPipelineWorkflow recon_rejects)))
     = ["pre-recon"].
Proof.
  assert (Workflows.run_phases recon_rejects (Workflows.initial_world recon_rejects)
          = (fst (Workflows.run_phases recon_rejects (Workflows.initial_world recon_rejects)),
             Js.Rejects invalid_api_key)) as Hrun by (vm_compute; reflexivity).
  assert (Workflows.ordered_phase
            (Workflows.currentPhase
               (Workflows.state
                  (fst (Workflows.run_phases recon_rejects
                          (Workflows.initial_world recon_rejects)))))) as Hord
    by (right; left; vm_compute; reflexivity).
  split; [split; assumption|].
  destruct (ordered_phase_failure_is_recorded_and_rethrown recon_rejects _ _ Hrun Hord)
    as (ws & e' & Hsnd & Hok & _ & Hstatus & Hunit & _ & _ & Herror & _ & Hdone & _).
  rewrite Hsnd, Hstatus, Hunit, Herror, Hdone.
  rewrite (Hok tt) by reflexivity.
  repeat split; vm_compute; reflexivity.
Defined.


(** C9: in the run above the workflow is suspended twice in a row on the
    same state (first on the log call that opens the pre-reconnaissance
    phase, then on its agent); a query at each of the two moments returns
    different snapshots, because the clock has moved. *)
Lemma query_snapshots_counterexample :
  suspended_twice_on_same_state
  /\ Workflows.getProgress "shannon-1" 1000 first_suspended_state
     <> Workflows.getProgress "shannon-1" 1600 first_suspended_state.
Proof.
  split; [split; [vm_compute; lia|vm_compute; reflexivity]|].
  intros Heq. apply (f_equal Shared.elapsedMs) in Heq. vm_compute in Heq.
  discriminate Heq.
Qed.

(** ** Bridge *)

(** C7: the reconciled snapshot takes its start time from [describe()], and
    its elapsed time from that start, not from the query. *)
Lemma reconciliation_counterexample :
  exists p,
    TemporalBridge.getProgress terminated_out_of_band "shannon-1" = Js.Resolves p
    /\ Shared.status running_progress = Shared.running
    /\ Shared.status p = Shared.failed
    /\ Shared.startTime p <> Shared.startTime running_progress
    /\ Shared.elapsedMs p <> Shared.elapsedMs running_progress.
Proof. eexists. split; [reflexivity|]. repeat split; discriminate. Qed.

Lemma reconciliation_trusts_the_authoritative_status_witness :
  (TemporalBridge.connect terminated_out_of_band = Js.Resolves tt
   /\ TemporalBridge.query terminated_out_of_band = Js.Resolves running_progress
   /\ TemporalBridge.to_progress_status (Some "TERMINATED") <> Shared.running)
  /\ exists p,
       TemporalBridge.getProgress terminated_out_of_band "shannon-1" = Js.Resolves p
       /\ Shared.status p = Shared.failed
       /\ Shared.completedAgents p = ["pre-recon"]
       /\ Shared.error p = Some "Workflow is terminated"
       /\ Shared.startTime p = 990%Z
       /\ Shared.elapsedMs p = 3010%Z.
Proof.
  assert (TemporalBridge.to_progress_status (Some "TERMINATED") <> Shared.running)
    as Hterminal by discriminate.
  split; [repeat split; exact Hterminal|].
  destruct (reconciliation_trusts_the_authoritative_status terminated_out_of_band
              "shannon-1" running_progress
              {| TemporalBridge.status_name := Some "TERMINATED";
                 TemporalBridge.startTime := Some 990%Z |}
              eq_refl eq_refl eq_refl Hterminal)
    as (p & Hp & Hstatus & _ & _ & Hdone & _ & _ & _ & _ & Herr & _ & Hstart & Helapsed).
  exists p. rewrite Hstatus, Hdone, Helapsed, Hstart, (Herr eq_refl).
  repeat split; try reflexivity. exact Hp.
Defined.

(** ** WebSocket server *)

(** C8: three failed polls with the same error, ten seconds apart, the
    first one right after the subscription.  Only the first is broadcast:
    the second and the third, two successive failures with identical text
    within the window, send no [error] message at all.  And with the failures
    at 0, 20 and 35 seconds, the third is broadcast although it follows the
    second by less than the window. *)
Lemma repeated_polling_error_counterexample :
  snd (WsServer.polls blank chunks "shannon-1"
         [ (Js.Rejects connection_refused, 0%Z, None);
           (Js.Rejects connection_refused, 10000%Z, None);
           (Js.Rejects connection_refused, 20000%Z, None) ]
         one_subscriber)
  = [ [(7, WsServer.error "Failed to query workflow: connect ECONNREFUSED")]; []; [] ]
  /\ snd (WsServer.polls blank chunks "shannon-1"
            [ (Js.Rejects connection_refused, 0%Z, None);
              (Js.Rejects connection_refused, 20000%Z, None);
              (Js.Rejects connection_refused, 35000%Z, None) ]
            one_subscriber)
     = [ [(7, WsServer.error "Failed to query workflow: connect ECONNREFUSED")]; [];
         [(7, WsServer.error "Failed to query workflow: connect ECONNREFUSED")] ].
Proof. split; vm_compute; reflexivity. Qed.

Lemma repeated_polling_error_is_sent_at_most_once_witness :
  (Js.message connection_refused = Js.message connection_refused
   /\ (10000 - 0 <= 30000)%Z)
  /\ snd (WsServer.poll blank chunks "shannon-1" (Js.Rejects connection_refused) 0 None
            one_subscriber)
     = [(7, WsServer.error "Failed to query workflow: connect ECONNREFUSED")]
  /\ snd (WsServer.poll blank chunks "shannon-1" (Js.Rejects connection_refused) 10000 None
            (fst (WsServer.poll blank chunks "shannon-1" (Js.Rejects connection_refused)
                    0 None one_subscriber)))
     = [].
Proof.
  split; [split; [reflexivity|lia]|].
  destruct (repeated_polling_error_is_sent_at_most_once blank chunks "shannon-1"
              connection_refused connection_refused 0 10000 None None one_subscriber
              eq_refl ltac:(lia))
    as (Hsent & _ & Hfresh).
  destruct (Hsent (Hfresh eq_refl)) as [H1 H2].
  split; [rewrite H1; reflexivity|exact H2].
Defined.

Lemma example_chunks_concat data : concat (chunks data) = data.
Proof.
  unfold chunks. destruct (length data <=? 4)%nat; cbn; rewrite app_nil_r; [done|].
  apply take_drop.
Qed.



End ConcreteRuns.

(** * Further properties *)

(** ** The retry handler, over whole runs *)

Section RetryHandlerRuns.

Import RetryHandler.

Context {Num : Type} `{Js.Number Num}.
Variable isRetryableError : Js.Error Num -> bool.
Variable getRetryDelay : Js.Error Num -> nat -> Num.
Variable options : @RunWithRetryOptions Num.

Local Abbreviation on_catch := (on_catch isRetryableError getRetryDelay options).
Local Abbreviation attempt_body := (attempt_body isRetryableError getRetryDelay options).
Local Abbreviation for_attempts := (for_attempts isRetryableError getRetryDelay options).
Local Abbreviation run := (run_claude_prompt_with_retry isRetryableError getRetryDelay options).
Local Abbreviation backoff_of := (RetryBackoff.backoff_of getRetryDelay options).

Ltac audit_free :=
  intros ? Hin; simpl in Hin;
  repeat (destruct Hin as [<-|Hin]; [reflexivity|]); destruct Hin.

Ltac count_trace :=
  unfold cat; cbn [fst snd];
  repeat (rewrite ?count_app, ?delays_app, ?count_cons, ?delays_cons,
            ?(count_when_audited options), ?(delays_when_audited options) by audit_free);
  try reflexivity.

(** One iteration of the loop takes one checkpoint and runs the unit once.
    It ends the call with a result only when the runner resolved with that
    result, the result reports success and the validator accepted it; it
    then commits, as its last effect, without rolling back or waiting.
    Otherwise it commits nothing and rolls back at most once. *)
Lemma attempt_body_cases attempt last_error :
  count is_checkpoint (fst (attempt_body attempt last_error)) = 1
  /\ count is_run (fst (attempt_body attempt last_error)) = 1
  /\ match snd (attempt_body attempt last_error) with
     | Finish (Returns r) =>
       run_single_attempt options attempt = Js.Resolves r
       /\ success r = true
       /\ validate_output options attempt r = Js.Resolves true
       /\ count is_rollback (fst (attempt_body attempt last_error)) = 0
       /\ count is_commit (fst (attempt_body attempt last_error)) = 1
       /\ delays (fst (attempt_body attempt last_error)) = []
       /\ last (fst (attempt_body attempt last_error))
            = Some (commitGitSuccess (description options))
     | _ =>
       count is_commit (fst (attempt_body attempt last_error)) = 0
       /\ count is_rollback (fst (attempt_body attempt last_error)) <= 1
     end.
Proof.
  unfold RetryHandler.attempt_body, RetryHandler.on_catch.
  destruct (run_single_attempt options attempt) as [r|err] eqn:Hrun.
  - destruct (success r) eqn:Hr.
    + destruct (validate_output options attempt r) as [[|]|err] eqn:Hval.
      * cbn [cat fst snd]. repeat split; try done; count_trace.
        rewrite !app_assoc. by rewrite last_snoc.
      * destruct (attempt <? max_retries options)%nat;
          [|destruct (negb (isRetryableError (validation_exhausted_error options)))];
          cbn [cat fst snd]; repeat split; count_trace; cbn; lia.
      * destruct (negb (isRetryableError err));
          [|destruct (attempt <? max_retries options)%nat];
          cbn [cat fst snd]; repeat split; count_trace; cbn; lia.
    + cbn [cat fst snd]. repeat split; count_trace; cbn; lia.
  - destruct (negb (isRetryableError err));
      [|destruct (attempt <? max_retries options)%nat];
      cbn [cat fst snd]; repeat split; count_trace; cbn; lia.
Qed.

Lemma for_attempts_safe attempts : forall last_error,
  count is_checkpoint (fst (for_attempts attempts last_error))
    = count is_run (fst (for_attempts attempts last_error))
  /\ count is_run (fst (for_attempts attempts last_error)) <= length attempts
  /\ count is_rollback (fst (for_attempts attempts last_error))
       + count is_commit (fst (for_attempts attempts last_error))
     <= count is_run (fst (for_attempts attempts last_error))
  /\ match snd (for_attempts attempts last_error) with
     | Returns r =>
       count is_commit (fst (for_attempts attempts last_error)) = 1
       /\ last (fst (for_attempts attempts last_error))
            = Some (commitGitSuccess (description options))
       /\ exists attempt,
            In attempt attempts
            /\ run_single_attempt options attempt = Js.Resolves r
            /\ success r = true
            /\ validate_output options attempt r = Js.Resolves true
     | Throws _ => count is_commit (fst (for_attempts attempts last_error)) = 0
     end.
Proof.
  induction attempts as [|attempt rest IH]; intros last_error.
  { cbn. repeat split; lia. }
  cbn [RetryHandler.for_attempts].
  pose proof (attempt_body_cases attempt last_error) as (Hc & Hn & Hstep).
  destruct (attempt_body attempt last_error) as [evs [last_error'|[r|e]]];
    cbn [fst snd] in *.
  - destruct Hstep as (Hm & Hb).
    specialize (IH last_error') as (IH1 & IH2 & IH3 & IH4).
    unfold cat. cbn [fst snd length]. rewrite !count_app, Hc, Hn, Hm.
    repeat split; try lia.
    destruct (snd (for_attempts rest last_error')) as [r|e].
    + destruct IH4 as (IH4 & Hlast & attempt' & Hin & Hrest).
      split; [lia|]. split.
      * rewrite last_app, Hlast. done.
      * exists attempt'. split; [by right|done].
    + lia.
  - destruct Hstep as (Hrun & Hr & Hval & Hb & Hm & _ & Hlast).
    cbn [length]. rewrite Hc, Hn, Hb, Hm. repeat split; try lia; try done.
    exists attempt. split; [by left|done].
  - destruct Hstep as (Hm & Hb). cbn [length]. rewrite Hc, Hn, Hm.
    repeat split; lia.
Qed.

(** X1.  Whatever the runner, the validator and the classifier do, the
    handler takes one checkpoint per attempt it runs and runs at most
    [max_retries] attempts; rollbacks and commits together never exceed the
    attempts run.  It returns a result only if, at one of the attempts, the
    runner resolved with that very result, the result reports success and
    the validator accepted it; the workspace is then committed exactly once,
    as the last effect of the call.  When the call throws, nothing is
    committed. *)
Theorem a_result_is_returned_only_after_validation :
  count is_checkpoint (fst run) = count is_run (fst run)
  /\ count is_run (fst run) <= max_retries options
  /\ count is_rollback (fst run) + count is_commit (fst run) <= count is_run (fst run)
  /\ match snd run with
     | Returns r =>
       count is_commit (fst run) = 1
       /\ last (fst run) = Some (commitGitSuccess (description options))
       /\ exists attempt,
            1 <= attempt <= max_retries options
            /\ run_single_attempt options attempt = Js.Resolves r
            /\ success r = true
            /\ validate_output options attempt r = Js.Resolves true
     | Throws _ => count is_commit (fst run) = 0
     end.
Proof.
  unfold run_claude_prompt_with_retry.
  pose proof (for_attempts_safe (seq 1 (max_retries options)) None) as (H1 & H2 & H3 & H4).
  rewrite length_seq in H2. repeat split; try done.
  destruct (snd (for_attempts (seq 1 (max_retries options)) None)) as [r|e]; [|done].
  destruct H4 as (Hm & Hlast & attempt & Hin & Hrest).
  repeat split; try done. exists attempt. split; [|done].
  apply in_seq in Hin. lia.
Qed.

(** A run of attempts that all fail in a retried way, none of them the last
    of the budget: each takes a checkpoint, rolls back once, and waits for
    the back-off only if the runner threw. *)
Lemma for_attempts_failing_prefix n : forall first last_error rest,
  first + n <= max_retries options ->
  (forall attempt, first <= attempt < first + n ->
     throws_retryable isRetryableError options attempt
     \/ fails_validation options attempt) ->
  exists evs last_error',
    fst (for_attempts (seq first n ++ rest) last_error)
      = evs ++ fst (for_attempts rest last_error')
    /\ snd (for_attempts (seq first n ++ rest) last_error)
        = snd (for_attempts rest last_error')
    /\ count is_checkpoint evs = n /\ count is_run evs = n
    /\ count is_rollback evs = n /\ count is_commit evs = 0
    /\ delays evs = backoff_of (seq first n).
Proof.
  induction n as [|n IH]; intros first last_error rest Hmax Hall.
  { exists [], last_error. by repeat split. }
  assert ((first <? max_retries options)%nat = true) as Hlt by (apply Nat.ltb_lt; lia).
  pose proof (attempt_body_cases first last_error) as (_ & Hn & _).
  cbn [seq app RetryHandler.for_attempts]. unfold RetryBackoff.backoff_of. cbn [omap list_omap].
  destruct (Hall first) as [(err & Hrun & Hre)|(r & Hrun & Hr & Hval)]; [lia| |].
  - destruct (attempt_body_throws_retryable isRetryableError getRetryDelay options
                first last_error err Hrun Hre) as (evs & Hbody & Hc & Hb & Hm & Hd).
    rewrite Hbody in Hn |- *. cbn [fst] in Hn. rewrite Hlt in Hd. rewrite Hrun.
    destruct (IH (S first) (Some err) rest) as (evs' & le' & Hf & Hs & Hc' & Hn' & Hb' & Hm' & Hd');
      [lia|intros; apply Hall; lia|].
    exists (evs ++ evs'), le'. unfold cat. cbn [fst snd].
    rewrite Hf, Hs, !count_app, delays_app, Hc, Hn, Hb, Hm, Hd, Hc', Hn', Hb', Hm', Hd'.
    rewrite <- app_assoc. by repeat split.
  - destruct (attempt_body_fails_validation isRetryableError getRetryDelay options
                first last_error r Hrun Hr Hval Hlt) as (evs & Hbody & Hc & Hb & Hm & Hd & _).
    rewrite Hbody in Hn |- *. cbn [fst] in Hn. rewrite Hrun.
    match goal with
    | |- context [RetryHandler.for_attempts _ _ _ _ (Some ?e)] =>
      destruct (IH (S first) (Some e) rest)
        as (evs' & le' & Hf & Hs & Hc' & Hn' & Hb' & Hm' & Hd');
        [lia|intros; apply Hall; lia|]
    end.
    exists (evs ++ evs'), le'. unfold cat. cbn [fst snd].
    rewrite Hf, Hs, !count_app, delays_app, Hc, Hn, Hb, Hm, Hd, Hc', Hn', Hb', Hm', Hd'.
    rewrite <- app_assoc. by repeat split.
Qed.

(** X2.  If the attempts before the [k]-th all fail in a retried way (the
    runner throws an error classified retryable, or the validator rejects
    the output) and the [k]-th attempt, within the budget, succeeds and is
    accepted, the call returns the result of the [k]-th attempt after [k]
    checkpoints, [k] runs of the unit, [k - 1] rollbacks and one commit, and
    it has waited, in order, for [getRetryDelay err attempt] at each earlier
    attempt whose runner threw [err], and for nothing else. *)
Theorem first_accepted_attempt_ends_the_retries k r :
  1 <= k <= max_retries options ->
  (forall attempt, 1 <= attempt < k ->
     throws_retryable isRetryableError options attempt
     \/ fails_validation options attempt) ->
  run_single_attempt options k = Js.Resolves r ->
  success r = true ->
  validate_output options k r = Js.Resolves true ->
  snd run = Returns r
  /\ count is_checkpoint (fst run) = k
  /\ count is_run (fst run) = k
  /\ count is_rollback (fst run) = k - 1
  /\ count is_commit (fst run) = 1
  /\ delays (fst run) = backoff_of (seq 1 (k - 1)).
Proof.
  intros Hk Hall Hrun Hr Hval. unfold run_claude_prompt_with_retry.
  assert (seq 1 (max_retries options)
          = seq 1 (k - 1) ++ k :: seq (S k) (max_retries options - k)) as ->.
  { replace (max_retries options) with ((k - 1) + S (max_retries options - k)) at 1 by lia.
    rewrite seq_app. cbn [seq]. by replace (1 + (k - 1)) with k by lia. }
  destruct (for_attempts_failing_prefix (k - 1) 1 None
              (k :: seq (S k) (max_retries options - k)))
    as (evs & le' & Hf & Hs & Hc & Hn & Hb & Hm & Hd);
    [lia|intros; apply Hall; lia|].
  rewrite Hf, Hs. cbn [RetryHandler.for_attempts].
  unfold RetryHandler.attempt_body. rewrite Hrun, Hr, Hval.
  cbn [cat fst snd]. rewrite !count_app, delays_app, Hc, Hn, Hb, Hm, Hd.
  repeat split; count_trace; cbn; rewrite ?app_nil_r; try lia; done.
Qed.

(** X3.  If every attempt of a budget of [max_retries >= 1] fails in a
    retried way, the call throws the error of the last attempt after
    [max_retries] checkpoints, runs and rollbacks and no commit; it has
    waited for the back-off after each attempt but the last whose runner
    threw, and not after the last attempt. *)
Theorem exhausted_retries_throw_the_last_error :
  1 <= max_retries options ->
  (forall attempt, 1 <= attempt <= max_retries options ->
     throws_retryable isRetryableError options attempt
     \/ fails_validation options attempt) ->
  snd run = Throws (Some (attempt_error options (max_retries options)))
  /\ count is_checkpoint (fst run) = max_retries options
  /\ count is_run (fst run) = max_retries options
  /\ count is_rollback (fst run) = max_retries options
  /\ count is_commit (fst run) = 0
  /\ delays (fst run) = backoff_of (seq 1 (max_retries options - 1)).
Proof.
  intros Hmax Hall. unfold run_claude_prompt_with_retry.
  set (n := max_retries options) in *.
  assert (seq 1 n = seq 1 (n - 1) ++ [n]) as ->.
  { replace n with ((n - 1) + 1) at 1 by lia.
    rewrite seq_app. cbn [seq]. by replace (1 + (n - 1)) with n by lia. }
  destruct (for_attempts_failing_prefix (n - 1) 1 None [n])
    as (evs & le' & Hf & Hs & Hc & Hn & Hb & Hm & Hd);
    [subst n; lia|intros; apply Hall; lia|].
  rewrite Hf, Hs. cbn [RetryHandler.for_attempts].
  pose proof (attempt_body_cases n le') as (_ & Hn' & _).
  assert ((n <? max_retries options)%nat = false) as Hlt by (apply Nat.ltb_ge; subst n; lia).
  unfold attempt_error. fold n.
  destruct (Hall n) as [(err & Hrun & Hre)|(r & Hrun & Hr & Hval)]; [lia| |].
  - destruct (attempt_body_throws_retryable isRetryableError getRetryDelay options
                n le' err Hrun Hre) as (evs' & Hbody & Hc' & Hb' & Hm' & Hd').
    rewrite Hbody in Hn' |- *. cbn [fst] in Hn'. rewrite Hlt in Hd'. rewrite Hrun.
    cbn [cat fst snd]. rewrite app_nil_r, !count_app, delays_app.
    rewrite Hc, Hn, Hb, Hm, Hd, Hc', Hn', Hb', Hm', Hd', app_nil_r.
    repeat split; try done; lia.
  - destruct (attempt_body_validation_exhausted isRetryableError getRetryDelay options
                n le' r Hrun Hr Hval Hlt)
      as (evs' & step & Hbody & Hstep & Hc' & Hb' & Hm' & Hd').
    rewrite Hbody in Hn' |- *. cbn [fst] in Hn'. rewrite Hrun.
    destruct Hstep as [-> | ->]; cbn [cat fst snd RetryHandler.for_attempts];
      rewrite ?app_nil_r, !count_app, delays_app;
      rewrite Hc, Hn, Hb, Hm, Hd, Hc', Hn', Hb', Hm', Hd', app_nil_r;
      repeat split; try done; lia.
Qed.

End RetryHandlerRuns.

(** ** The executor behind the retry handler *)

Section ClaudeExecutorProperties.

Import RetryHandler ClaudeExecutor.

Context {Num : Type} `{Js.Number Num}.
Variable isRetryableError : Js.Error Num -> bool.
Variable getRetryDelay : Js.Error Num -> nat -> Num.
Variable is_zero : Num -> bool.
Variable error_name : Js.Error Num -> string.
Variables (fullPrompt description : string) (audited : bool).
Variables (commit_hash : option string) (agentTimeoutMs : Z).
Variable a : @Attempts Num.

Local Abbreviation options :=
  (retry_options isRetryableError is_zero error_name fullPrompt description audited
     commit_hash agentTimeoutMs a).
Local Abbreviation attempt_body := (attempt_body isRetryableError getRetryDelay options).
Local Abbreviation for_attempts := (for_attempts isRetryableError getRetryDelay options).
Local Abbreviation wrapper :=
  (runClaudePromptWithRetry isRetryableError getRetryDelay is_zero error_name fullPrompt
     description audited commit_hash agentTimeoutMs a).

Ltac audit_free :=
  intros ? Hin; simpl in Hin;
  repeat (destruct Hin as [<-|Hin]; [reflexivity|]); destruct Hin.

Ltac count_trace :=
  unfold cat; cbn [fst snd];
  repeat (rewrite ?count_app, ?delays_app, ?count_cons, ?delays_cons,
            ?(count_when_audited options), ?(delays_when_audited options) by audit_free);
  try reflexivity.

Local Abbreviation handler_error := (handler_error options).

Lemma wrapper_attempt attempt last_error :
  handler_error last_error ->
  delays (fst (attempt_body attempt last_error)) = []
  /\ match snd (attempt_body attempt last_error) with
     | NextAttempt e | Finish (Throws e) => handler_error e
     | Finish (Returns _) => True
     end.
Proof.
  intros Hle. unfold RetryHandler.attempt_body.
  cbn [run_single_attempt validate_output retry_options].
  match goal with |- context [success ?r] => destruct (success r) end;
    [|by split; [count_trace|]].
  match goal with |- context [validateAgentOutput ?v ?r] =>
    destruct (validateAgentOutput v r) end; [by split; [count_trace|]|].
  destruct (attempt <? max_retries options)%nat eqn:Hlt.
  { split; [count_trace|]. cbn [cat snd]. unfold ClaudeExecutor.handler_error.
    match goal with |- context [if ?b then _ else _] => destruct b end; auto. }
  unfold RetryHandler.on_catch. rewrite Hlt.
  destruct (negb (isRetryableError (validation_exhausted_error options)));
    (split; [count_trace|]); cbn [cat snd]; unfold ClaudeExecutor.handler_error; auto.
Qed.

Lemma wrapper_for_attempts attempts : forall last_error,
  handler_error last_error ->
  delays (fst (for_attempts attempts last_error)) = []
  /\ match snd (for_attempts attempts last_error) with
     | Throws e => handler_error e
     | Returns _ => True
     end.
Proof.
  induction attempts as [|attempt rest IH]; intros last_error Hle; [done|].
  cbn [RetryHandler.for_attempts].
  pose proof (wrapper_attempt attempt last_error Hle) as (Hd & Hstep).
  destruct (attempt_body attempt last_error) as [evs [last_error'|[r|e]]];
    cbn [fst snd] in *; try done.
  destruct (IH last_error' Hstep) as (IHd & IHs).
  unfold cat. cbn [fst snd]. by rewrite delays_app, Hd, IHd.
Qed.

(** X4.  Whatever the SDK conversation and the agent's validator do at each
    of the three attempts, [runClaudePromptWithRetry] never waits for a
    back-off delay, and it never throws the SDK's own error: what it throws
    is [undefined], one of the two validation-failure errors, or the
    validation-exhausted [PentestError].  What it returns is the result of
    an attempt whose conversation completed, with a non-empty result
    text. *)
Theorem the_sdk_error_is_never_rethrown_nor_backed_off :
  delays (fst wrapper) = []
  /\ match snd wrapper with
     | Throws None => True
     | Throws (Some e) =>
       e = Js.new_Error "Output validation failed"
       \/ e = Js.new_Error "API Error: terminated with validation failure"
       \/ e = validation_exhausted_error options
     | Returns r =>
       success r = true
       /\ exists attempt loop text,
            1 <= attempt <= 3
            /\ stream a attempt = Js.Resolves loop
            /\ loop_result loop = Some text /\ text <> ""
            /\ result r = Some text
     end.
Proof.
  unfold runClaudePromptWithRetry, run_claude_prompt_with_retry.
  destruct (wrapper_for_attempts (seq 1 (max_retries options)) None) as (Hd & Hs);
    [by left|].
  split; [done|].
  pose proof (for_attempts_safe isRetryableError getRetryDelay options
                (seq 1 (max_retries options)) None) as (_ & _ & _ & Hr).
  destruct (snd (for_attempts (seq 1 (max_retries options)) None)) as [r|[e|]]; [| |done].
  - destruct Hr as (_ & _ & attempt & Hin & Hrun & Hsucc & Hval).
    split; [done|]. apply in_seq in Hin. cbn [max_retries retry_options] in Hin.
    cbn [run_single_attempt validate_output retry_options] in Hrun, Hval.
    injection Hrun as <-. injection Hval as Hval.
    unfold validateAgentOutput in Hval. rewrite Hsucc in Hval. cbn [negb orb] in Hval.
    unfold runClaudePrompt in *.
    destruct (thrown is_zero (stream a attempt)) as [err|];
      [discriminate Hsucc|].
    destruct (stream a attempt) as [loop|err] eqn:Hstream; [|discriminate Hsucc].
    cbn [base result] in *.
    destruct (loop_result loop) as [text|] eqn:Hres; cbn [Js.nullish] in Hval.
    + exists attempt, loop, text. repeat split; try done; try lia.
      intros ->. by rewrite bool_decide_eq_false_2 in Hval by auto.
    + by rewrite bool_decide_eq_false_2 in Hval by auto.
  - destruct Hs as [Hs | [Hs | [Hs | Hs]]]; try discriminate Hs;
      injection Hs as ->; auto.
Qed.

(** [runClaudePrompt] reports a failed conversation, and one the
    spending-cap safeguard rejects, as a result with [success: false]. *)
Lemma failed_conversation_is_reported attempt :
  thrown is_zero (stream a attempt) <> None ->
  reports_failure options attempt.
Proof.
  intros Hthrown. eexists. split; [reflexivity|].
  unfold runClaudePrompt.
  destruct (thrown is_zero (stream a attempt)) as [err|]; [|done].
  by destruct (stream a attempt).
Qed.

(** X5.  If at each of the three attempts the SDK conversation fails (the
    stream throws, or the spending-cap safeguard rejects its result), then
    whatever the classifier says about the errors, [runClaudePromptWithRetry]
    takes three checkpoints, runs the unit three times, never rolls the
    workspace back, commits nothing, waits for no back-off and throws
    [undefined]. *)
Theorem a_failing_sdk_is_retried_without_rollback :
  (forall attempt, thrown is_zero (stream a attempt) <> None) ->
  snd wrapper = Throws None
  /\ count is_checkpoint (fst wrapper) = 3
  /\ count is_run (fst wrapper) = 3
  /\ count is_rollback (fst wrapper) = 0
  /\ count is_commit (fst wrapper) = 0
  /\ delays (fst wrapper) = [].
Proof.
  intros Hfail. unfold runClaudePromptWithRetry, run_claude_prompt_with_retry.
  destruct (for_attempts_report_failure isRetryableError getRetryDelay options
              (seq 1 (max_retries options)) None)
    as (H1 & H2 & H3 & H4 & H5).
  { intros attempt _. by apply failed_conversation_is_reported. }
  pose proof (for_attempts_safe isRetryableError getRetryDelay options
                (seq 1 (max_retries options)) None) as (Hn & _).
  rewrite H2 in Hn. by repeat split.
Qed.

End ClaudeExecutorProperties.

(** ** The billing detector *)

Section BillingDetectorProperties.

Import BillingDetector.

Lemma append_assoc (a b c : string) : (a +:+ b) +:+ c = a +:+ b +:+ c.
Proof.
  induction a as [|x a IH]; [done|].
  change (String x ((a +:+ b) +:+ c) = String x (a +:+ b +:+ c)). by rewrite IH.
Qed.

Lemma prefix_append (p s : string) :
  String.prefix p s = true <-> exists b, s = p +:+ b.
Proof.
  revert s. induction p as [|x p IH]; intros s.
  { split; [by exists s|by destruct s]. }
  destruct s as [|y s]; cbn.
  { split; [done|by intros (b & Hb)]. }
  destruct (Ascii.ascii_dec x y) as [->|Hxy].
  - rewrite IH. split; intros (b & Hb); exists b; [by rewrite Hb|by injection Hb].
  - split; [done|]. intros (b & Hb). by injection Hb as ->.
Qed.

Lemma includes_append (s p : string) :
  Js.includes s p = true <-> exists a b, s = a +:+ p +:+ b.
Proof.
  split.
  - induction s as [|x s IH]; cbn [Js.includes].
    + destruct (String.prefix p "") eqn:Hp; [|done]. intros _.
      apply prefix_append in Hp as (b & Hb). by exists "", b.
    + destruct (String.prefix p (String x s)) eqn:Hp.
      * intros _. apply prefix_append in Hp as (b & Hb). by exists "", b.
      * intros (a & b & ->)%IH. by exists (String x a), b.
  - intros (a & b & ->). induction a as [|x a IH].
    + assert (String.prefix p (p +:+ b) = true) as Hp by (apply prefix_append; by exists b).
      change ("" +:+ p +:+ b) with (p +:+ b). revert Hp. generalize (p +:+ b).
      intros s Hp. destruct s; cbn [Js.includes]; by rewrite Hp.
    + change (String x a +:+ p +:+ b) with (String x (a +:+ p +:+ b)).
      cbn [Js.includes]. rewrite IH. by destruct (String.prefix _ _).
Qed.

(** A text that includes [p] includes what [p] includes. *)
Lemma includes_trans (s p k : string) :
  Js.includes s p = true -> Js.includes p k = true -> Js.includes s k = true.
Proof.
  intros (a & b & ->)%includes_append (a' & b' & ->)%includes_append.
  apply includes_append. exists (a +:+ a'), (b' +:+ b).
  by rewrite !append_assoc.
Qed.

(** X6.  Every text that includes, in any letter case, one of the phrases of
    [BILLING_PATTERNS] is held a billing error by [is_billing_error], which
    looks for the single words of [BILLING_KEYWORDS]. *)
Theorem billing_phrases_are_detected text phrase :
  In phrase BILLING_PATTERNS ->
  Js.includes (Js.toLowerCase text) phrase = true ->
  is_billing_error text = true.
Proof.
  intros Hin Hinc. unfold is_billing_error.
  destruct (decide (text = "")) as [->|_].
  { cbn in Hin. by repeat (destruct Hin as [<-|Hin]; [discriminate Hinc|]). }
  apply existsb_exists.
  assert (exists keyword, In keyword BILLING_KEYWORDS
                          /\ Js.includes phrase keyword = true) as (keyword & Hk & Hpk).
  { cbn in Hin.
    repeat (destruct Hin as [<-|Hin];
            [first [ by exists "spending"; split; [cbn; auto|]
                   | by exists "cap"; split; [cbn; auto|]
                   | by exists "budget"; split; [cbn; auto|]
                   | by exists "limit"; split; [cbn; auto 10|] ]|]).
    destruct Hin. }
  exists keyword. split; [done|]. by apply includes_trans with phrase.
Qed.

End BillingDetectorProperties.

(** ** The Temporal bridge, when the query fails *)

Section TemporalBridgeFailures.

Import TemporalBridge.

Context {Num : Type}.

(** X7.  [getProgress] rejects in two cases only, and then with the error it
    was given: the connection fails, or the query fails and either its error
    is not of the query-unavailable kind or [describe()] fails too.  An
    error of [describe()] is never what the caller sees. *)
Theorem progress_rejects_with_the_connection_or_the_query_error
  (t : @Temporal Num) (workflowId : string) (e : Js.Error Num) :
  getProgress t workflowId = Js.Rejects e
  <-> connect t = Js.Rejects e
      \/ ((exists u, connect t = Js.Resolves u)
          /\ query t = Js.Rejects e
          /\ (is_query_unavailable_error e = false
              \/ exists e', describe t = Js.Rejects e')).
Proof.
  unfold getProgress. split.
  - destruct (connect t) as [u|e0]; [|by intros [= <-]; left].
    destruct (query t) as [progress|e1].
    + destruct (describe t) as [d|e2]; [|done].
      by destruct (decide (to_progress_status (status_name d) <> running)).
    + destruct (is_query_unavailable_error e1) eqn:Hkind.
      * destruct (describe t) as [d|e2]; [done|].
        intros [= <-]. right. split; [by exists u|]. split; [done|]. right. by exists e2.
      * intros [= <-]. right. split; [by exists u|]. split; [done|]. by left.
  - intros [-> | ((u & ->) & -> & [Hkind | (e' & ->)])]; [done| |].
    + by rewrite Hkind.
    + by destruct (is_query_unavailable_error e).
Qed.

(** X8.  When the query fails with an error of the query-unavailable kind
    and [describe()] answers, [getProgress] resolves with a snapshot made
    from the description alone: the status is the mapped runtime status, the
    run is the requested one, no unit, metric, phase or summary is reported
    whatever the run has done, the error is [null] exactly when the status is
    [running], and the elapsed time is not negative. *)
Theorem unavailable_query_falls_back_to_the_description
  (t : @Temporal Num) (workflowId : string) (e : Js.Error Num) (d : WorkflowDescription) u :
  connect t = Js.Resolves u ->
  query t = Js.Rejects e ->
  is_query_unavailable_error e = true ->
  describe t = Js.Resolves d ->
  exists p,
    getProgress t workflowId = Js.Resolves p
    /\ Shared.status p = to_progress_status (status_name d)
    /\ Shared.workflowId p = workflowId
    /\ Shared.completedAgents p = [] /\ Shared.agentMetrics p = []
    /\ Shared.currentPhase p = None /\ Shared.currentAgent p = None
    /\ Shared.failedAgent p = None /\ Shared.summary p = None
    /\ (Shared.error p = None <-> Shared.status p = running)
    /\ (Shared.status p <> running ->
        Shared.error p = Some ("Workflow query unavailable: " +:+ Js.message e))
    /\ (0 <= Shared.elapsedMs p)%Z.
Proof.
  intros Hconnect Hquery Hkind Hdescribe. unfold getProgress.
  rewrite Hconnect, Hquery, Hkind, Hdescribe. eexists. split; [reflexivity|].
  unfold fallback. cbn.
  destruct (decide (to_progress_status (status_name d) = running)) as [Hs|Hs];
    repeat split; try done; lia.
Qed.

End TemporalBridgeFailures.

(** ** The WebSocket server, over sequences of events *)

Section WsServerEvents.

Import WsServer.

Context {Num : Type}.
Variable blank : list byte -> bool.
Variable chunks : list byte -> list (list byte).

Local Abbreviation Server := (@Server Num).
Local Abbreviation ClientSubscription := (@ClientSubscription Num).
Local Abbreviation poll := (@poll Num blank chunks).
Local Abbreviation tail_log := (@tail_log Num blank chunks).
Local Abbreviation tail_logs := (@tail_logs Num blank chunks).
Local Abbreviation streamLogs := (@streamLogs Num blank chunks).
Local Abbreviation react := (@react Num blank chunks).

(** *** Housekeeping *)

Lemma tidy_stopPolling workflowId (srv : Server) :
  tidy srv -> tidy (stopPolling workflowId srv).
Proof.
  intros (Hsubs & Hpoll & Herr). split; [done|].
  split; intros k Hk; cbn in Hk; apply lookup_delete_is_Some in Hk as [_ Hk]; auto.
Qed.

Lemma tidy_for_each body workflowId (srv : Server) :
  (forall sub : ClientSubscription, WsServer.workflowId (fst (body sub)) = WsServer.workflowId sub) ->
  tidy srv -> tidy (fst (for_each_subscription body workflowId srv)).
Proof.
  intros Hbody (Hsubs & Hpoll & Herr). unfold for_each_subscription.
  destruct (subscriptions srv !! workflowId) as [subs|] eqn:Hlookup; [|done].
  cbn [fst]. split; [|split].
  - intros k subs'. cbn. destruct (decide (k = workflowId)) as [->|Hne].
    + rewrite lookup_insert_eq. intros [= <-].
      destruct (Hsubs _ _ Hlookup) as [Hne Hall]. split.
      * by destruct subs.
      * apply Forall_map. eapply Forall_impl; [exact Hall|].
        intros sub Hsub. cbn. by rewrite Hbody.
    + rewrite lookup_insert_ne by done. apply Hsubs.
  - intros k Hk. cbn in *. apply lookup_insert_is_Some'. right. by apply Hpoll.
  - intros k Hk. cbn in *. apply lookup_insert_is_Some'. right. by apply Herr.
Qed.

Lemma for_each_is_Some body workflowId k (srv : Server) :
  is_Some (subscriptions (fst (for_each_subscription body workflowId srv)) !! k)
  <-> is_Some (subscriptions srv !! k).
Proof.
  unfold for_each_subscription.
  destruct (subscriptions srv !! workflowId) as [subs|] eqn:Hlookup; [|done].
  cbn. rewrite lookup_insert_is_Some'. split; [|by right].
  intros [<- | Hk]; [by eexists|done].
Qed.

Lemma for_each_polling body workflowId (srv : Server) :
  pollIntervals (fst (for_each_subscription body workflowId srv)) = pollIntervals srv
  /\ lastPollErrors (fst (for_each_subscription body workflowId srv)) = lastPollErrors srv.
Proof.
  unfold for_each_subscription. by destruct (subscriptions srv !! workflowId).
Qed.

Lemma tidy_streamLogs workflowId file (srv : Server) :
  tidy srv -> tidy (fst (streamLogs workflowId file srv)).
Proof.
  intros Htidy. destruct file as [f|]; [|done]. cbn.
  apply tidy_for_each; [|done]. intros sub. unfold WsServer.tail_log.
  by destruct (logPosition sub <? size f)%nat.
Qed.

(** Scheduling the next poll tidies up after itself: whatever error was
    just recorded for the run, it is kept only if the run has a
    subscriber. *)
Lemma tidy_schedule_next workflowId delay errors (srv : Server) :
  tidy srv ->
  (errors = lastPollErrors srv
   \/ exists record, errors = <[workflowId := record]> (lastPollErrors srv)) ->
  tidy (schedule_next workflowId delay (with_lastPollErrors errors srv)).
Proof.
  intros (Hsubs & Hpoll & Herr) Herrors. unfold schedule_next. cbn [subscriptions with_lastPollErrors].
  assert (forall k, k <> workflowId -> is_Some (errors !! k) ->
                    is_Some (subscriptions srv !! k)) as Hother.
  { intros k Hne Hk. apply Herr.
    destruct Herrors as [-> | (record & ->)]; [done|]. by rewrite lookup_insert_ne in Hk. }
  destruct (subscriptions srv !! workflowId) as [subs|] eqn:Hlookup.
  - split; [done|]. split; intros k Hk; cbn in *.
    + apply lookup_insert_is_Some' in Hk as [<- | Hk]; [by rewrite Hlookup|auto].
    + destruct (decide (k = workflowId)) as [->|Hne]; [by rewrite Hlookup|auto].
  - split; [done|].
    split; intros k Hk; cbn in *; apply lookup_delete_is_Some in Hk as [Hne Hk]; auto.
Qed.

Lemma tidy_poll workflowId answer now file (srv : Server) :
  tidy srv -> tidy (fst (poll workflowId answer now file srv)).
Proof.
  intros Htidy. unfold WsServer.poll. destruct answer as [data|e].
  - pose proof (tidy_for_each (send_progress data) workflowId srv (fun _ => eq_refl) Htidy)
      as Htidy1.
    unfold broadcastProgress.
    destruct (for_each_subscription (send_progress data) workflowId srv) as [srv1 sent1].
    cbn [fst] in Htidy1.
    destruct (decide (Shared.status data = running)).
    + pose proof (tidy_schedule_next workflowId pollInterval (lastPollErrors srv1) srv1
                    Htidy1 (or_introl eq_refl)) as Htidy2.
      replace (with_lastPollErrors (lastPollErrors srv1) srv1) with srv1 in Htidy2
        by (by destruct srv1).
      pose proof (tidy_streamLogs workflowId file _ Htidy2) as Htidy3.
      by destruct (WsServer.streamLogs _ _ _ _ _).
    + pose proof (tidy_streamLogs workflowId file _ (tidy_stopPolling workflowId _ Htidy1))
        as Htidy3.
      by destruct (WsServer.streamLogs _ _ _ _ _).
  - unfold shouldBroadcastPollingError.
    destruct (lastPollErrors srv !! workflowId) as [previous|]; cbn [fst snd];
      [destruct (_ || _)|]; cbn [fst snd].
    + apply tidy_schedule_next; [done|]. right. by eexists.
    + replace srv with (with_lastPollErrors (lastPollErrors srv) srv) at 1
        by (by destruct srv).
      apply tidy_schedule_next; [done|by left].
    + apply tidy_schedule_next; [done|]. right. by eexists.
Qed.

Lemma tidy_subscribe socket workflowId (srv : Server) :
  tidy srv -> tidy (fst (fst (subscribe socket workflowId srv))).
Proof.
  intros (Hsubs & Hpoll & Herr). unfold subscribe. cbn [fst]. split; [|split].
  - intros k subs'. cbn. destruct (decide (k = workflowId)) as [->|Hne].
    + rewrite lookup_insert_eq. intros [= <-]. split; [by destruct (Js.nullish _ _)|].
      apply Forall_app. split; [|by repeat constructor].
      destruct (subscriptions srv !! workflowId) as [subs|] eqn:Hlookup; [|by constructor].
      by apply (Hsubs _ _ Hlookup).
    + rewrite lookup_insert_ne by done. apply Hsubs.
  - intros k Hk. cbn in *. apply lookup_insert_is_Some'. right. by apply Hpoll.
  - intros k Hk. cbn in *. apply lookup_insert_is_Some'. right. by apply Herr.
Qed.

Lemma Forall_delete_first (P : ClientSubscription -> Prop) socket subs :
  Forall P subs -> Forall P (delete_first socket subs).
Proof.
  induction 1 as [|sub subs Hsub Hall IH]; [done|].
  cbn. destruct (decide (ws sub = socket)); [done|]. by constructor.
Qed.

Lemma tidy_unsubscribe socket workflowId (srv : Server) :
  tidy srv -> tidy (fst (unsubscribe socket workflowId srv)).
Proof.
  intros (Hsubs & Hpoll & Herr). unfold unsubscribe. cbn [fst].
  destruct (subscriptions srv !! workflowId) as [subs|] eqn:Hlookup; [|done].
  destruct (delete_first socket subs) as [|sub' subs'] eqn:Hdel.
  - split; [|split]; cbn.
    + intros k subs0 Hk. apply lookup_delete_Some in Hk as [_ Hk]. by apply Hsubs.
    + intros k Hk. apply lookup_delete_is_Some in Hk as [Hne Hk].
      apply lookup_delete_is_Some. auto.
    + intros k Hk. apply lookup_delete_is_Some in Hk as [Hne Hk].
      apply lookup_delete_is_Some. auto.
  - split; [|split]; cbn.
    + intros k subs0. destruct (decide (k = workflowId)) as [->|Hne].
      * rewrite lookup_insert_eq. intros [= <-]. split; [done|].
        rewrite <- Hdel. apply Forall_delete_first. by apply (Hsubs _ _ Hlookup).
      * rewrite lookup_insert_ne by done. apply Hsubs.
    + intros k Hk. apply lookup_insert_is_Some'. right. by apply Hpoll.
    + intros k Hk. apply lookup_insert_is_Some'. right. by apply Herr.
Qed.

Lemma removeClient_lookup socket workflowId (srv : Server) :
  subscriptions (removeClient socket srv) !! workflowId
  = match subscriptions srv !! workflowId with
    | Some subs =>
      match remaining socket subs with [] => None | subs' => Some subs' end
    | None => None
    end.
Proof.
  unfold removeClient. cbn [subscriptions]. rewrite lookup_omap.
  by destruct (subscriptions srv !! workflowId).
Qed.

Lemma tidy_removeClient socket (srv : Server) :
  tidy srv -> tidy (removeClient socket srv).
Proof.
  intros (Hsubs & Hpoll & Herr).
  assert (forall k, emptied socket srv k = false ->
                    is_Some (subscriptions srv !! k) ->
                    is_Some (subscriptions (removeClient socket srv) !! k)) as Hkept.
  { intros k Hk [subs Hlookup]. rewrite removeClient_lookup.
    unfold emptied in Hk. rewrite Hlookup in *.
    by destruct (remaining socket subs). }
  split; [|split].
  - intros k subs'. rewrite removeClient_lookup.
    destruct (subscriptions srv !! k) as [subs|] eqn:Hlookup; [|done].
    destruct (remaining socket subs) as [|sub0 subs0] eqn:Hrem; [done|].
    intros [= <-]. split; [done|]. rewrite <- Hrem. unfold remaining.
    apply Forall_forall. intros sub Hin. apply list_elem_of_In in Hin.
    apply filter_In in Hin as [Hin _]. apply list_elem_of_In in Hin.
    destruct (Hsubs _ _ Hlookup) as [_ Hall].
    rewrite Forall_forall in Hall. by apply Hall.
  - intros k [delay Hk]. cbn [pollIntervals removeClient] in Hk.
    apply map_lookup_filter_Some in Hk as [Hk Hkeep]. cbn in Hkeep.
    apply Hkept; [done|]. apply Hpoll. by eexists.
  - intros k [record Hk]. cbn [lastPollErrors removeClient] in Hk.
    apply map_lookup_filter_Some in Hk as [Hk Hkeep]. cbn in Hkeep.
    apply Hkept; [done|]. apply Herr. by eexists.
Qed.

(** X9.  From the server as constructed, after any sequence of subscribe
    and unsubscribe messages, closed sockets and answered polls, in any
    order, for any runs and from any poll loops: no run is kept in
    [subscriptions] without a subscriber, every subscription is filed under
    the run it names, and only runs that have a subscriber have an entry in
    [pollIntervals] or in [lastPollErrors].  This is about the three maps of
    the server, which do not leak; a timer whose handle is no longer on
    record is not in them. *)
Theorem no_polling_record_outlives_the_subscribers (events : list ServerEvent) :
  tidy (fold_left react events new_server).
Proof.
  assert (tidy (@new_server Num)) as Hnew.
  { split; [|split]; intros k; cbn; rewrite ?lookup_empty; [done| |];
      by intros [? ?]. }
  revert Hnew. generalize (@new_server Num).
  induction events as [|ev events IH]; intros srv Htidy; [done|].
  cbn [fold_left]. apply IH. destruct ev; cbn [WsServer.react].
  - by apply tidy_subscribe.
  - by apply tidy_unsubscribe.
  - by apply tidy_removeClient.
  - by apply tidy_poll.
Qed.

(** *** Unsubscribing *)

Lemma delete_first_length socket (subs : list ClientSubscription) :
  In socket (map ws subs) -> length (delete_first socket subs) + 1 = length subs.
Proof.
  induction subs as [|sub subs IH]; [done|]. cbn.
  destruct (decide (ws sub = socket)) as [Heq|Hne]; [lia|].
  intros [Hsub | Hin]; [done|]. cbn. rewrite <- IH by done. lia.
Qed.

Lemma delete_first_remaining socket (subs : list ClientSubscription) :
  remaining socket (delete_first socket subs) = remaining socket subs.
Proof.
  induction subs as [|sub subs IH]; [done|]. cbn [delete_first].
  destruct (decide (ws sub = socket)) as [Heq|Hne]; unfold remaining in *;
    cbn [List.filter].
  - by rewrite bool_decide_eq_true_2.
  - rewrite bool_decide_eq_false_2 by done. cbn [negb]. by rewrite IH.
Qed.

(** X10.  [unsubscribe] of a socket that is subscribed to the run removes
    exactly one of its subscriptions, so a socket subscribed twice stays
    subscribed, and leaves the subscriptions of the other sockets as they
    are, in order.  If that was the run's last subscription, the run is
    taken out of [subscriptions], and its entries out of [pollIntervals]
    (the timer handle on record, the one that [stopPolling] clears) and out
    of [lastPollErrors]; otherwise [pollIntervals] and [lastPollErrors] are
    untouched.  Nothing changes in the three maps for any other run. *)
Theorem unsubscribe_removes_one_subscription socket workflowId (srv : Server) subs :
  subscriptions srv !! workflowId = Some subs ->
  In socket (map ws subs) ->
  let srv' := fst (unsubscribe socket workflowId srv) in
  let subs' := Js.nullish (subscriptions srv' !! workflowId) [] in
  length subs' + 1 = length subs
  /\ remaining socket subs' = remaining socket subs
  /\ (subs' = [] ->
      subscriptions srv' !! workflowId = None
      /\ pollIntervals srv' !! workflowId = None
      /\ lastPollErrors srv' !! workflowId = None)
  /\ (subs' <> [] ->
      pollIntervals srv' = pollIntervals srv /\ lastPollErrors srv' = lastPollErrors srv)
  /\ (forall other, other <> workflowId ->
      subscriptions srv' !! other = subscriptions srv !! other
      /\ pollIntervals srv' !! other = pollIntervals srv !! other
      /\ lastPollErrors srv' !! other = lastPollErrors srv !! other).
Proof.
  intros Hlookup Hin. cbn zeta. unfold unsubscribe. cbn [fst]. rewrite Hlookup.
  pose proof (delete_first_length socket subs Hin) as Hlen.
  pose proof (delete_first_remaining socket subs) as Hrem.
  destruct (delete_first socket subs) as [|sub' rest] eqn:Hdel; cbn.
  - rewrite !lookup_delete_eq. cbn. repeat split; try done.
    all: by rewrite lookup_delete_ne.
  - rewrite lookup_insert_eq. cbn. repeat split; try done.
    by rewrite lookup_insert_ne.
Qed.

(** *** Broadcasting progress *)

(** X11.  Once a snapshot has been broadcast to a run, the next broadcast
    sends every subscription a [phase_change] event, before its [progress]
    event, exactly when the phase of the new snapshot differs from the phase
    of the snapshot broadcast before; a change of agent within the phase
    sends none.  A subscription that has not been sent a snapshot yet gets
    the [progress] event alone. *)
Theorem phase_change_follows_the_last_broadcast workflowId data data' (srv : Server) subs :
  subscriptions srv !! workflowId = Some subs ->
  snd (broadcastProgress workflowId data' (fst (broadcastProgress workflowId data srv)))
  = concat (map (fun sub =>
      (if decide (Shared.currentPhase data = Shared.currentPhase data') then []
       else [(ws sub, phase_change (Shared.currentPhase data') (Shared.currentAgent data'))])
      ++ [(ws sub, progress data')]) subs)
  /\ (Forall (fun sub => lastProgress sub = None) subs ->
      snd (broadcastProgress workflowId data srv)
      = map (fun sub => (ws sub, progress data)) subs).
Proof.
  intros Hlookup. unfold broadcastProgress.
  destruct (for_each_lookup (send_progress data) workflowId srv subs Hlookup) as [Hsubs1 Hsent1].
  destruct (for_each_lookup (send_progress data') workflowId _ _ Hsubs1) as [_ Hsent2].
  rewrite Hsent2, Hsent1. split.
  - f_equal. rewrite map_map. apply map_ext. intros sub. cbn.
    by destruct (decide (Shared.currentPhase data = Shared.currentPhase data')).
  - intros Hfresh. clear Hlookup Hsubs1 Hsent1 Hsent2.
    induction Hfresh as [|sub rest Hsub Hrest IH]; [done|].
    cbn [map concat]. rewrite IH. unfold send_progress. cbn [snd]. by rewrite Hsub.
Qed.

(** *** Polling *)

Lemma streamLogs_sends_logs workflowId file (srv : Server) :
  Forall (fun sent : Sent => exists line, snd sent = log line)
    (snd (streamLogs workflowId file srv)).
Proof.
  destruct file as [f|]; [|by constructor]. cbn. unfold for_each_subscription.
  destruct (subscriptions srv !! workflowId) as [subs|]; [|by constructor].
  cbn. apply Forall_concat, Forall_map, Forall_forall. intros sub _.
  unfold WsServer.tail_log. destruct (logPosition sub <? size f)%nat; [|by constructor].
  cbn. apply Forall_map, Forall_forall. intros line _. by exists line.
Qed.

Lemma streamLogs_polling workflowId file (srv : Server) :
  pollIntervals (fst (streamLogs workflowId file srv)) = pollIntervals srv
  /\ lastPollErrors (fst (streamLogs workflowId file srv)) = lastPollErrors srv.
Proof. destruct file as [f|]; [apply for_each_polling|done]. Qed.

Lemma streamLogs_is_Some workflowId file k (srv : Server) :
  is_Some (subscriptions (fst (streamLogs workflowId file srv)) !! k)
  <-> is_Some (subscriptions srv !! k).
Proof. destruct file as [f|]; [apply for_each_is_Some|done]. Qed.

(** X12.  A poll that finds the run completed or failed sends every
    subscription its [progress] event, then one [complete] or [failed] event
    each, carrying the run's status and error, then only log lines.  It
    takes the run's entries out of [pollIntervals] and [lastPollErrors] and
    puts no timer on record, while the subscriptions themselves are kept,
    for the same sockets in the same order: any later poll of the run finds
    them there. *)
Theorem a_terminal_poll_notifies_and_clears_the_record
  workflowId data now file (srv : Server) subs :
  subscriptions srv !! workflowId = Some subs ->
  Shared.status data <> running ->
  let end_of_run :=
    complete_or_failed (Shared.status data) workflowId (Shared.error data) in
  (exists logs,
     snd (poll workflowId (Js.Resolves data) now file srv)
     = snd (broadcastProgress workflowId data srv)
         ++ map (fun sub => (ws sub, end_of_run)) subs ++ logs
     /\ Forall (fun sent : Sent => exists line, snd sent = log line) logs)
  /\ pollIntervals (fst (poll workflowId (Js.Resolves data) now file srv)) !! workflowId = None
  /\ lastPollErrors (fst (poll workflowId (Js.Resolves data) now file srv)) !! workflowId = None
  /\ (exists subs',
        subscriptions (fst (poll workflowId (Js.Resolves data) now file srv)) !! workflowId
        = Some subs'
        /\ map ws subs' = map ws subs).
Proof.
  intros Hlookup Hstatus. cbn zeta. unfold WsServer.poll, broadcastProgress.
  destruct (for_each_lookup (send_progress data) workflowId srv subs Hlookup) as [Hsubs1 _].
  destruct (for_each_subscription (send_progress data) workflowId srv) as [srv1 sent1].
  cbn [fst snd] in *. rewrite decide_False by done.
  pose proof (streamLogs_sends_logs workflowId file (stopPolling workflowId srv1)) as Hlogs.
  pose proof (streamLogs_polling workflowId file (stopPolling workflowId srv1)) as [Hpoll Herr].
  pose proof (streamLogs_lookup blank chunks workflowId file (stopPolling workflowId srv1) _
                Hsubs1) as [Hkept _].
  destruct (WsServer.streamLogs _ _ _ _ _) as [srv3 sent3]. cbn [fst snd] in *.
  split; [|split; [|split]].
  - exists sent3. split; [|done]. do 2 f_equal.
    unfold broadcast. cbn [subscriptions stopPolling]. rewrite Hsubs1.
    by rewrite map_map.
  - rewrite Hpoll. cbn. apply lookup_delete_eq.
  - rewrite Herr. cbn. apply lookup_delete_eq.
  - eexists. split; [exact Hkept|].
    destruct file as [f|]; rewrite !map_map; apply map_ext; intros sub; [|done].
    unfold WsServer.tail_log. by destruct (logPosition _ <? size f)%nat.
Qed.

(** X13.  While the run has a subscriber, a poll ends by putting on record
    the timer it sets for the next poll of its loop: of 5 s after a snapshot
    of a running run, of 10 s after a failed query; after a snapshot of a
    finished run it leaves none on record.  A poll for a run without
    subscriber sends nothing and leaves neither a timer nor a polling error
    on record.  (What is on record is the entry of [pollIntervals]; the
    timer of another poll loop of the run is not.) *)
Theorem the_next_poll_waits_longer_after_an_error workflowId answer now file (srv : Server) :
  match subscriptions srv !! workflowId with
  | Some _ =>
    pollIntervals (fst (poll workflowId answer now file srv)) !! workflowId
    = match answer with
      | Js.Resolves data =>
        if decide (Shared.status data = running) then Some 5000%Z else None
      | Js.Rejects _ => Some 10000%Z
      end
  | None =>
    pollIntervals (fst (poll workflowId answer now file srv)) !! workflowId = None
    /\ lastPollErrors (fst (poll workflowId answer now file srv)) !! workflowId = None
    /\ snd (poll workflowId answer now file srv) = []
  end.
Proof.
  destruct (subscriptions srv !! workflowId) as [subs|] eqn:Hlookup.
  - unfold WsServer.poll. destruct answer as [data|e].
    + unfold broadcastProgress.
      destruct (for_each_lookup (send_progress data) workflowId srv subs Hlookup) as [Hsubs1 _].
      destruct (for_each_subscription (send_progress data) workflowId srv) as [srv1 sent1].
      cbn [fst] in Hsubs1.
      destruct (decide (Shared.status data = running)).
      * pose proof (streamLogs_polling workflowId file
                      (schedule_next workflowId pollInterval srv1)) as [Hpoll _].
        destruct (WsServer.streamLogs _ _ _ _ _) as [srv2 sent2]. cbn [fst] in *.
        rewrite Hpoll. unfold schedule_next. rewrite Hsubs1. cbn.
        by rewrite lookup_insert_eq.
      * pose proof (streamLogs_polling workflowId file (stopPolling workflowId srv1))
          as [Hpoll _].
        destruct (WsServer.streamLogs _ _ _ _ _) as [srv3 sent3]. cbn [fst] in *.
        rewrite Hpoll. cbn. apply lookup_delete_eq.
    + assert (subscriptions (snd (shouldBroadcastPollingError workflowId now
                ("Failed to query workflow: " +:+ Js.message e) srv)) !! workflowId
              = Some subs) as Hsubs1.
      { unfold shouldBroadcastPollingError.
        destruct (lastPollErrors srv !! workflowId); [destruct (_ || _)|]; done. }
      destruct (shouldBroadcastPollingError _ _ _ _) as [should srv1]. cbn [fst snd] in *.
      unfold schedule_next. rewrite Hsubs1. cbn. by rewrite lookup_insert_eq.
  - unfold WsServer.poll. destruct answer as [data|e].
    + unfold broadcastProgress, for_each_subscription. rewrite Hlookup.
      destruct (decide (Shared.status data = running)).
      * unfold schedule_next. rewrite Hlookup.
        destruct file as [f|]; cbn; unfold for_each_subscription; cbn;
          rewrite ?Hlookup; cbn; by rewrite !lookup_delete_eq.
      * unfold broadcast. cbn [subscriptions stopPolling]. rewrite Hlookup.
        destruct file as [f|]; cbn; unfold for_each_subscription; cbn;
          rewrite ?Hlookup; cbn; by rewrite !lookup_delete_eq.
    + assert (subscriptions (snd (shouldBroadcastPollingError workflowId now
                ("Failed to query workflow: " +:+ Js.message e) srv)) !! workflowId
              = None) as Hsubs1.
      { unfold shouldBroadcastPollingError.
        destruct (lastPollErrors srv !! workflowId); [destruct (_ || _)|]; done. }
      destruct (shouldBroadcastPollingError _ _ _ _) as [should srv1]. cbn [fst snd] in *.
      unfold schedule_next, broadcast. rewrite Hsubs1. cbn.
      rewrite !lookup_delete_eq. by destruct should.
Qed.

Lemma poll_running_keeps_errors workflowId data now file (srv : Server) :
  Shared.status data = running ->
  is_Some (subscriptions srv !! workflowId) ->
  lastPollErrors (fst (poll workflowId (Js.Resolves data) now file srv)) = lastPollErrors srv
  /\ is_Some (subscriptions (fst (poll workflowId (Js.Resolves data) now file srv))
                !! workflowId).
Proof.
  intros Hstatus [subs Hlookup]. unfold WsServer.poll, broadcastProgress.
  destruct (for_each_lookup (send_progress data) workflowId srv subs Hlookup) as [Hsubs1 _].
  pose proof (for_each_polling (send_progress data) workflowId srv) as [_ Herr1].
  destruct (for_each_subscription (send_progress data) workflowId srv) as [srv1 sent1].
  cbn [fst] in *. rewrite decide_True by done.
  pose proof (streamLogs_polling workflowId file
                (schedule_next workflowId pollInterval srv1)) as [_ Herr2].
  pose proof (streamLogs_is_Some workflowId file workflowId
                (schedule_next workflowId pollInterval srv1)) as Hkept.
  destruct (WsServer.streamLogs _ _ _ _ _) as [srv2 sent2]. cbn [fst] in *.
  unfold schedule_next in *. rewrite Hsubs1 in *. cbn in *.
  split; [congruence|]. apply Hkept. by rewrite Hsubs1.
Qed.

(** X14.  A successful poll does not clear the recorded polling error.  If
    a first failed poll has told the subscribers of an error, then a poll
    succeeds on the running run, and then the query fails again with the
    same message within 30 s of the first failure, the subscribers are not
    told of the second failure. *)
Theorem a_successful_poll_does_not_reset_the_error_cooldown
  workflowId (e : Js.Error Num) data (now1 now now2 : Z) file1 file file2 (srv : Server) subs :
  subscriptions srv !! workflowId = Some subs ->
  lastPollErrors srv !! workflowId = None ->
  Shared.status data = running ->
  (now2 - now1 <= 30000)%Z ->
  exists sent,
    snd (polls blank chunks workflowId
           [ (Js.Rejects e, now1, file1); (Js.Resolves data, now, file);
             (Js.Rejects e, now2, file2) ] srv)
    = [ map (fun sub => (ws sub, error ("Failed to query workflow: " +:+ Js.message e))) subs;
        sent; [] ].
Proof.
  intros Hlookup Hfresh Hstatus Hclose. cbn [polls].
  set (msg := "Failed to query workflow: " +:+ Js.message e).
  pose proof (poll_failure blank chunks workflowId e now1 file1 srv) as (Hsubs1 & Hsent1 & Hrec1).
  fold msg in Hsent1, Hrec1.
  assert (fst (shouldBroadcastPollingError workflowId now1 msg srv) = true) as Hshould1
    by (unfold shouldBroadcastPollingError; by rewrite Hfresh).
  rewrite Hshould1, Hlookup in Hsent1. cbn [Js.nullish] in Hsent1.
  specialize (Hrec1 Hshould1 (ex_intro _ subs Hlookup)).
  destruct (WsServer.poll blank chunks workflowId (Js.Rejects e) now1 file1 srv)
    as [srv1 sent1]. cbn [fst snd] in *.
  assert (is_Some (subscriptions srv1 !! workflowId)) as Hsome1
    by (rewrite Hsubs1; by eexists).
  pose proof (poll_running_keeps_errors workflowId data now file srv1 Hstatus Hsome1)
    as (Herr2 & Hsome2).
  destruct (WsServer.poll blank chunks workflowId (Js.Resolves data) now file srv1)
    as [srv2 sent2]. cbn [fst snd] in *.
  pose proof (poll_failure blank chunks workflowId e now2 file2 srv2) as (_ & Hsent3 & _).
  fold msg in Hsent3.
  assert (fst (shouldBroadcastPollingError workflowId now2 msg srv2) = false) as Hshould3.
  { unfold shouldBroadcastPollingError. rewrite Herr2, Hrec1. cbn.
    rewrite bool_decide_eq_true_2 by done. cbn.
    by replace (30000 <? now2 - now1)%Z with false by (symmetry; apply Z.ltb_ge; lia). }
  rewrite Hshould3 in Hsent3.
  destruct (WsServer.poll blank chunks workflowId (Js.Rejects e) now2 file2 srv2)
    as [srv3 sent3]. cbn [fst snd] in *.
  exists sent2. by rewrite Hsent1, Hsent3.
Qed.

(** *** Tailing the log over successive polls *)


(** X16.  What a poll sends of the log, and the offset it leaves, do not
    depend on how the read stream cuts the bytes into chunks. *)
Theorem log_lines_do_not_depend_on_the_chunking
  (chunks1 chunks2 : list byte -> list (list byte)) file (sub : ClientSubscription) :
  (forall data, concat (chunks1 data) = data) ->
  (forall data, concat (chunks2 data) = data) ->
  WsServer.tail_log blank chunks1 file sub = WsServer.tail_log blank chunks2 file sub.
Proof.
  intros Hchunks1 Hchunks2. unfold WsServer.tail_log.
  by rewrite (read_stream_lines blank chunks1 Hchunks1),
             (read_stream_lines blank chunks2 Hchunks2).
Qed.

Hypothesis chunks_concat : forall data, concat (chunks data) = data.

Lemma complete_lines_whole a b :
  pending a = [] -> complete_lines (a ++ b) = complete_lines a ++ complete_lines b.
Proof. intros Ha. by rewrite complete_lines_app, Ha. Qed.


End WsServerEvents.

(** ** The bookkeeping of finished units over a whole run *)

Section WorkflowBookkeeping.

Import Workflows.

Context {Num : Type} `{Js.Number Num}.
Variable env : @Env Num.

Local Abbreviation M := (@M Num).
Local Abbreviation World := (@World Num).
Local Abbreviation PipelineState := (@PipelineState Num).
Local Abbreviation kept_as := (kept_as env).
Local Abbreviation kept := (kept env).
Local Abbreviation done_unit := (done_unit env).
Local Abbreviation vuln_done := (vuln_done env).
Local Abbreviation exploit_done := (exploit_done env).
Local Abbreviation pipeline_unit_of := (pipeline_unit_of env).
Local Abbreviation settled_units := (settled_units env).

(** *** Names of units *)

Lemma vuln_unit_inj v v' : vuln_unit v = vuln_unit v' -> v = v'.
Proof. by destruct v, v'. Qed.

Lemma exploit_unit_inj v v' : exploit_unit v = exploit_unit v' -> v = v'.
Proof. by destruct v, v'. Qed.

Lemma vuln_unit_not_exploit v v' : vuln_unit v <> exploit_unit v'.
Proof. by destruct v, v'. Qed.

Lemma pipeline_unit_not_ordered name :
  (exists v, name = vuln_unit v) \/ (exists v, name = exploit_unit v) ->
  ~ In name ["pre-recon"; "recon"; "report"].
Proof.
  intros [[v ->] | [v ->]] Hin; cbn in Hin;
    repeat (destruct Hin as [Hin|Hin]; [by destruct v|]); done.
Qed.

Lemma done_unit_in_units name : done_unit name -> In name units.
Proof.
  unfold units.
  intros [[-> _] | [[-> _] | [[-> _] | [(v & -> & _) | (v & -> & _)]]]];
    cbn; try destruct v; cbn; auto 20.
Qed.

Lemma units_length : length units = 13.
Proof. reflexivity. Qed.

(** *** Steps that keep the books *)

Lemma assign_fresh_keys {V} name (v : V) (o : list (string * V)) :
  ~ In name (map fst o) -> map fst (Shared.assign name v o) = map fst o ++ [name].
Proof.
  induction o as [|[k v'] o IH]; [done|]. cbn. intros Hfresh.
  destruct (decide (k = name)) as [->|Hne]; [by destruct Hfresh; left|].
  cbn. rewrite IH; [done|]. intros Hin. apply Hfresh. by right.
Qed.

Lemma kept_as_state l (w : World) :
  kept_as l w ->
  well_kept (state w) /\ Forall done_unit (completedAgents (state w)).
Proof.
  intros (Hnodup & Hdone & Hlist & Hkeys & _). unfold well_kept.
  rewrite Hlist, Hkeys. repeat split; try done.
  eapply Forall_impl; [exact Hdone|]. apply done_unit_in_units.
Qed.

Lemma kept_with_state (f : PipelineState -> PipelineState) l (w : World) :
  completedAgents (f (state w)) = completedAgents (state w) ->
  agentMetrics (f (state w)) = agentMetrics (state w) ->
  kept_as l w -> kept_as l (with_state f w).
Proof.
  intros Hlist Hmetrics (Hnodup & Hdone & Hl & Hkeys & Hseen).
  unfold Workflows.kept_as. cbn. by rewrite Hlist, Hmetrics.
Qed.

Lemma kept_record name m l (w : World) :
  ~ In name l -> done_unit name -> kept_as l w ->
  kept_as (l ++ [name])
    (with_state (push_completedAgents name) (with_state (set_agentMetrics name m) w)).
Proof.
  intros Hfresh Hname (Hnodup & Hdone & Hl & Hkeys & Hseen).
  unfold Workflows.kept_as. cbn. repeat split; try done.
  - apply NoDup_app. repeat split; try done.
    + intros x Hx [->|[]]%list_elem_of_In. by apply Hfresh, list_elem_of_In.
    + apply NoDup_singleton.
  - apply Forall_app. split; [done|]. by constructor.
  - by rewrite Hl.
  - rewrite assign_fresh_keys by (by rewrite Hkeys). by rewrite Hkeys.
Qed.

Lemma kept_invoke {T} (a : Activity T) l (w : World) :
  kept_as l w -> kept_as l (fst (invoke a w)).
Proof. by intros (? & ? & ? & ? & ?). Qed.

Lemma kept_suspend l (w : World) : kept_as l w -> kept_as l (fst (suspend w)).
Proof.
  intros Hw. pose proof (kept_as_state l w Hw) as Hstate.
  destruct Hw as (Hnodup & Hdone & Hl & Hkeys & Hseen).
  unfold Workflows.kept_as. cbn. repeat split; try done.
  apply Forall_app. split; [done|]. by constructor.
Qed.

Lemma kept_warn failed l (w : World) : kept_as l w -> kept_as l (fst (warn failed w)).
Proof. by intros (? & ? & ? & ? & ?). Qed.

(** *** Rules for [leads] *)

Lemma leads_ret {A} (a : A) (Q : A -> World -> Prop) R :
  leads (Q a) (mret a : M A) Q R.
Proof. by intros w Hw. Qed.

Lemma leads_bind {A B} P (m : M A) Q' (k : A -> M B) Q R :
  leads P m Q' R -> (forall a, leads (Q' a) (k a) Q R) -> leads P (m ≫= k) Q R.
Proof.
  intros Hm Hk w Hw. unfold mbind, M_bind. specialize (Hm w Hw).
  destruct (m w) as [w' [a|e]]; [by apply Hk|done].
Qed.

Lemma leads_conseq {A} (P P' : World -> Prop) (m : M A) (Q Q' : A -> World -> Prop) R :
  (forall w, P' w -> P w) -> (forall a w, Q a w -> Q' a w) ->
  leads P m Q R -> leads P' m Q' R.
Proof.
  intros HP HQ Hm w Hw. specialize (Hm w (HP w Hw)).
  destruct (m w) as [w' [a|e]]; [by apply HQ|done].
Qed.

Lemma leads_exists {A X} (P : X -> World -> Prop) (m : M A) Q R :
  (forall x, leads (P x) m Q R) -> leads (fun w => exists x, P x w) m Q R.
Proof. intros Hm w [x Hw]. by apply (Hm x). Qed.

Lemma leads_assume {A} (F : Prop) (P : World -> Prop) (m : M A) Q R :
  (F -> leads P m Q R) -> leads (fun w => P w /\ F) m Q R.
Proof. intros Hm w [Hw HF]. by apply Hm. Qed.

(** The two assignments that open a phase. *)
Lemma leads_header {A} phase agent l (rest : M A) Q :
  leads (kept_as l) rest Q kept ->
  leads (kept_as l)
    (update (set_currentPhase phase) ;; update (set_currentAgent agent) ;; rest) Q kept.
Proof.
  intros Hrest w Hw.
  apply (Hrest (with_state (set_currentAgent agent) (with_state (set_currentPhase phase) w))).
  by do 2 (apply kept_with_state; [done|done|]).
Qed.

(** An [await]: the continuation runs only if the activity resolved. *)
Lemma leads_await {T A} (a : Activity T) l (k : T -> M A) Q :
  (forall t, outcome env _ a = Js.Resolves t -> leads (kept_as l) (k t) Q kept) ->
  leads (kept_as l) (await env a ≫= k) Q kept.
Proof.
  intros Hk w Hw. unfold await, mbind, M_bind, invoke, suspend, settle. cbn.
  pose proof (kept_suspend l _ (kept_invoke a l w Hw)) as Hw'. cbn in Hw'.
  destruct (outcome env T a) as [t|e] eqn:Ha; [by apply Hk|by exists l].
Qed.

Lemma leads_await_last {T} (a : Activity T) l :
  leads (kept_as l) (await env a) (fun _ => kept_as l) kept.
Proof.
  intros w Hw. unfold await, mbind, M_bind, invoke, suspend, settle. cbn.
  pose proof (kept_suspend l _ (kept_invoke a l w Hw)) as Hw'. cbn in Hw'.
  destruct (outcome env T a) as [t|e]; [done|by exists l].
Qed.

(** Recording a finished unit: its metrics, then its name. *)
Lemma leads_record {A} name m l (rest : M A) Q :
  ~ In name l -> done_unit name ->
  leads (kept_as (l ++ [name])) rest Q kept ->
  leads (kept_as l)
    (update (set_agentMetrics name m) ;; update (push_completedAgents name) ;; rest) Q kept.
Proof.
  intros Hfresh Hname Hrest w Hw.
  apply (Hrest (with_state (push_completedAgents name)
                  (with_state (set_agentMetrics name m) w))).
  by apply (kept_record name m l w).
Qed.

(** *** The ordered phases *)

Lemma pre_recon_kept :
  leads (kept_as []) (execute_pre_recon_phase env) (fun _ => kept_as ["pre-recon"]) kept.
Proof.
  unfold execute_pre_recon_phase. apply leads_header.
  apply leads_await. intros _ _. apply leads_await. intros m Hm.
  apply (leads_record "pre-recon" m []); [by intros []| |].
  { left. split; [done|by exists m]. }
  apply leads_await_last.
Qed.

Lemma recon_kept :
  leads (kept_as ["pre-recon"]) (execute_recon_phase env)
    (fun _ => kept_as ["pre-recon"; "recon"]) kept.
Proof.
  unfold execute_recon_phase. apply leads_header.
  apply leads_await. intros _ _. apply leads_await. intros m Hm.
  apply (leads_record "recon" m ["pre-recon"]); [by intros [|[]]| |].
  { right. left. split; [done|by exists m]. }
  apply leads_await_last.
Qed.

Lemma reporting_kept ls :
  settled_units ls ->
  leads (kept_as (["pre-recon"; "recon"] ++ ls)) (execute_reporting_phase env)
    (fun _ => kept_as (["pre-recon"; "recon"] ++ ls ++ ["report"])) kept.
Proof.
  intros Hls. unfold execute_reporting_phase. apply leads_header.
  apply leads_await. intros _ _. apply leads_await. intros _ _.
  apply leads_await. intros m Hm.
  apply (leads_record "report" m (["pre-recon"; "recon"] ++ ls)).
  - intros [Hin|[Hin|Hin]]; try discriminate Hin.
    apply Hls in Hin. eapply pipeline_unit_not_ordered.
    + destruct Hin as [(v & Hv & _)|(v & Hv & _)]; [left|right]; by exists v.
    + cbn. auto.
  - right. right. left. split; [done|by exists m].
  - rewrite <- app_assoc. apply leads_await. intros _ _. apply leads_await_last.
Qed.

(** *** The parallel phase *)

Lemma unit_of_unchanged v p' (ps : Pipelines) :
  (ps v <> AwaitVuln <-> p' <> AwaitVuln) \/ ~ vuln_done v ->
  (rank (ps v) = 0 <-> rank p' = 0) \/ ~ exploit_done v ->
  forall name, pipeline_unit_of (set_pipeline v p' ps) name <-> pipeline_unit_of ps name.
Proof.
  intros Hvuln Hexploit name. unfold Workflows.pipeline_unit_of, set_pipeline.
  split; (intros [(v' & -> & Hp & Hdone) | (v' & -> & Hp & Hdone)]; [left|right]);
    exists v'; (split; [done|]); (split; [|done]);
    destruct (decide (v' = v)) as [->|Hne]; try done; tauto.
Qed.

Lemma unit_of_vuln_recorded v p' (ps : Pipelines) :
  ps v = AwaitVuln -> p' <> AwaitVuln -> rank p' <> 0 -> vuln_done v ->
  forall name,
    pipeline_unit_of (set_pipeline v p' ps) name
    <-> pipeline_unit_of ps name \/ name = vuln_unit v.
Proof.
  intros Hp Hp' Hrank Hdone name. unfold Workflows.pipeline_unit_of, set_pipeline. split.
  - intros [(v' & -> & Hv' & Hd) | (v' & -> & Hv' & Hd)];
      destruct (decide (v' = v)) as [->|Hne]; try done; [by right| |].
    + left. left. by exists v'.
    + left. right. by exists v'.
  - intros [[(v' & -> & Hv' & Hd) | (v' & -> & Hv' & Hd)] | ->].
    + left. exists v'. split; [done|]. split; [|done].
      destruct (decide (v' = v)) as [->|Hne]; done.
    + right. exists v'. split; [done|]. split; [|done].
      destruct (decide (v' = v)) as [->|Hne]; [|done]. by rewrite Hp in Hv'.
    + left. exists v. split; [done|]. split; [|done]. by rewrite decide_True.
Qed.

Lemma unit_of_exploit_recorded v p' (ps : Pipelines) :
  ps v <> AwaitVuln -> rank (ps v) <> 0 -> rank p' = 0 -> exploit_done v ->
  forall name,
    pipeline_unit_of (set_pipeline v p' ps) name
    <-> pipeline_unit_of ps name \/ name = exploit_unit v.
Proof.
  intros Hp Hrank Hp' Hdone name. unfold Workflows.pipeline_unit_of, set_pipeline. split.
  - intros [(v' & -> & Hv' & Hd) | (v' & -> & Hv' & Hd)];
      destruct (decide (v' = v)) as [->|Hne]; try done; [| |by right|].
    + left. left. by exists v.
    + left. left. by exists v'.
    + left. right. by exists v'.
  - intros [[(v' & -> & Hv' & Hd) | (v' & -> & Hv' & Hd)] | ->].
    + left. exists v'. split; [done|]. split; [|done].
      destruct (decide (v' = v)) as [->|Hne]; [|done]. by destruct p'.
    + right. exists v'. split; [done|]. split; [|done].
      destruct (decide (v' = v)) as [->|Hne]; done.
    + right. exists v. split; [done|]. split; [|done]. by rewrite decide_True.
Qed.

Lemma resume_kept v (ps : Pipelines) (w w' : World) ls p' :
  resume env v (ps v) w = (w', Js.Resolves p') ->
  on_track env v (ps v) ->
  kept_as (["pre-recon"; "recon"] ++ ls) w ->
  (forall name, In name ls <-> pipeline_unit_of ps name) ->
  exists ls',
    kept_as (["pre-recon"; "recon"] ++ ls') w'
    /\ (forall name, In name ls' <-> pipeline_unit_of (set_pipeline v p' ps) name).
Proof.
  intros Hres Htrack Hw Hls.
  assert (ps v = AwaitVuln -> ~ In (vuln_unit v) (["pre-recon"; "recon"] ++ ls)) as Hfresh_v.
  { intros Hp [Hin|[Hin|Hin]]; [by destruct v|by destruct v|].
    apply Hls in Hin as [(v' & Heq & Hv' & _)|(v' & Heq & _)].
    - apply vuln_unit_inj in Heq as <-. done.
    - by apply vuln_unit_not_exploit in Heq. }
  assert (rank (ps v) <> 0 -> ~ In (exploit_unit v) (["pre-recon"; "recon"] ++ ls))
    as Hfresh_e.
  { intros Hp [Hin|[Hin|Hin]]; [by destruct v|by destruct v|].
    apply Hls in Hin as [(v' & Heq & _)|(v' & Heq & Hv' & _)].
    - symmetry in Heq. by apply vuln_unit_not_exploit in Heq.
    - apply exploit_unit_inj in Heq as <-. done. }
  assert (forall name, In name ls <-> pipeline_unit_of (set_pipeline v (ps v) ps) name)
    as Hsame.
  { intros name. rewrite Hls. symmetry. apply unit_of_unchanged; by left. }
  unfold resume in Hres. destruct (ps v) as [|m|m d|r] eqn:Hp; cbn [on_track] in Htrack.
  - destruct (outcome env _ (runVulnAgent v)) as [m|e] eqn:Hv;
      unfold mbind, M_bind, mret, M_ret, update, invoke, suspend in Hres; cbn in Hres;
      injection Hres as <- <-.
    + exists (ls ++ [vuln_unit v]). split.
      * rewrite app_assoc.
        apply (kept_suspend _ _ (kept_invoke (checkExploitationQueue v) _ _
                 (kept_record (vuln_unit v) m _ w (Hfresh_v eq_refl)
                    (or_intror (or_intror (or_intror (or_introl
                       (ex_intro _ v (conj eq_refl (ex_intro _ m Hv))))))) Hw))).
      * intros name. rewrite in_app_iff, Hls.
        rewrite (unit_of_vuln_recorded v (AwaitQueue m) ps Hp) by (done || by exists m).
        cbn. intuition.
    + exists ls. split; [exact (kept_suspend _ _ Hw)|].
      intros name. rewrite Hls. symmetry. apply unit_of_unchanged; right.
      * intros [m Hm]. congruence.
      * intros (m & _ & _ & Hm & _). congruence.
  - destruct (outcome env _ (checkExploitationQueue v)) as [d|e] eqn:Hq;
      [destruct (shouldExploit d) eqn:Hd|];
      unfold mbind, M_bind, mret, M_ret, update, invoke, suspend in Hres; cbn in Hres;
      injection Hres as <- <-.
    + exists ls. split; [exact (kept_suspend _ _ (kept_invoke (runExploitAgent v) _ _ Hw))|].
      intros name. rewrite Hls. symmetry. apply unit_of_unchanged; left; by rewrite Hp.
    + exists ls. split; [exact (kept_suspend _ _ Hw)|].
      intros name. rewrite Hls. symmetry. apply unit_of_unchanged; [left; by rewrite Hp|].
      right. intros (m' & d' & em & _ & Hq' & Hd' & _). congruence.
    + exists ls. split; [exact (kept_suspend _ _ Hw)|].
      intros name. rewrite Hls. symmetry. apply unit_of_unchanged; [left; by rewrite Hp|].
      right. intros (m' & d' & em & _ & Hq' & _). congruence.
  - destruct Htrack as (Hv & Hq & Hd).
    destruct (outcome env _ (runExploitAgent v)) as [em|e] eqn:He;
      unfold mbind, M_bind, mret, M_ret, update, invoke, suspend in Hres; cbn in Hres;
      injection Hres as <- <-.
    + assert (exploit_done v) as Hdone by (by exists m, d, em).
      exists (ls ++ [exploit_unit v]). split.
      * rewrite app_assoc.
        apply (kept_suspend _ _
                 (kept_record (exploit_unit v) em _ w (Hfresh_e ltac:(done))
                    (or_intror (or_intror (or_intror (or_intror
                       (ex_intro _ v (conj eq_refl Hdone)))))) Hw)).
      * intros name. rewrite in_app_iff, Hls.
        rewrite (unit_of_exploit_recorded v (Done _) ps) by (by rewrite ?Hp).
        cbn. intuition.
    + exists ls. split; [exact (kept_suspend _ _ Hw)|].
      intros name. rewrite Hls. symmetry. apply unit_of_unchanged; [left; by rewrite Hp|].
      right. intros (m' & d' & em & _ & _ & _ & He'). congruence.
  - unfold mret, M_ret in Hres. injection Hres as <- <-. exists ls. by split.
Qed.

Lemma resume_each_kept order : forall (ps : Pipelines) (w w' : World) ls ps',
  resume_each env order ps w = (w', Js.Resolves ps') ->
  (forall v, on_track env v (ps v)) ->
  kept_as (["pre-recon"; "recon"] ++ ls) w ->
  (forall name, In name ls <-> pipeline_unit_of ps name) ->
  exists ls',
    kept_as (["pre-recon"; "recon"] ++ ls') w'
    /\ (forall name, In name ls' <-> pipeline_unit_of ps' name).
Proof.
  induction order as [|v order IH]; intros ps w w' ls ps' Heach Htrack Hw Hls.
  - cbn in Heach. injection Heach as <- <-. by exists ls.
  - cbn [resume_each] in Heach. unfold mbind, M_bind in Heach.
    destruct (resume_spec env v (ps v) w (Htrack v)) as (w1 & p1 & Hres & Htrack1 & _).
    rewrite Hres in Heach.
    destruct (resume_kept v ps w w1 ls p1 Hres (Htrack v) Hw Hls) as (ls1 & Hw1 & Hls1).
    apply (IH (set_pipeline v p1 ps) w1 w' ls1 ps' Heach); try done.
    intros v'. unfold set_pipeline. by destruct (decide (v' = v)) as [->|Hne].
Qed.

Lemma settled_pipelines_units (ps : Pipelines) :
  (forall v, rank (ps v) = 0) ->
  forall name, pipeline_unit_of ps name <->
    (exists v, name = vuln_unit v /\ vuln_done v)
    \/ (exists v, name = exploit_unit v /\ exploit_done v).
Proof.
  intros Hrank name. unfold Workflows.pipeline_unit_of.
  split; (intros [(v & -> & Hv) | (v & -> & Hv)]; [left|right]); exists v;
    (split; [done|]); specialize (Hrank v); [tauto|tauto| |done].
  split; [|done]. intros Hp. by rewrite Hp in Hrank.
Qed.

Lemma allSettled_kept (w w' : World) r :
  allSettled env w = (w', r) ->
  kept_as ["pre-recon"; "recon"] w ->
  exists ls, kept_as (["pre-recon"; "recon"] ++ ls) w' /\ settled_units ls.
Proof.
  intros Hall Hw. unfold allSettled, launch in Hall.
  unfold mbind, M_bind, mret, M_ret, invoke, suspend in Hall. cbn in Hall.
  match type of Hall with
  | context [resume_each env _ ?ps0 ?w0] =>
    assert (kept_as (["pre-recon"; "recon"] ++ []) w0) as Hw0;
      [|destruct (resume_each_spec env (settlement_order env) ps0 w0)
          as (w1 & ps1 & Heach & Hps1 & Hrank); [done|];
        destruct (resume_each_kept (settlement_order env) ps0 w0 w1 [] ps1 Heach)
          as (ls & Hw1 & Hls); [done|exact Hw0| |]]
  end.
  - destruct Hw as (Hnodup & Hdone & Hl & Hkeys & Hseen).
    pose proof (kept_as_state _ w (conj Hnodup (conj Hdone (conj Hl (conj Hkeys Hseen)))))
      as Hstate.
    unfold Workflows.kept_as. cbn. repeat split; try done.
    apply Forall_app. split; [done|]. by constructor.
  - intros name. split; [done|].
    by intros [(v & _ & Hv & _) | (v & _ & Hv & _)].
  - rewrite Heach in Hall. injection Hall as <- _. exists ls. split; [done|].
    intros name. rewrite Hls. apply settled_pipelines_units.
    intros v. specialize (Hrank v). pose proof (settlement_order_covers env v). cbn in Hrank.
    lia.
Qed.

Lemma parallel_kept :
  leads (kept_as ["pre-recon"; "recon"]) (execute_vulnerability_exploitation_phase env)
    (fun _ w => exists ls, kept_as (["pre-recon"; "recon"] ++ ls) w /\ settled_units ls)
    kept.
Proof.
  unfold execute_vulnerability_exploitation_phase. apply leads_header.
  apply leads_await. intros _ _.
  apply leads_bind
    with (Q' := fun _ w => exists ls, kept_as (["pre-recon"; "recon"] ++ ls) w
                                      /\ settled_units ls).
  { intros w Hw. destruct (allSettled env w) as [w' r] eqn:Hall.
    destruct (allSettled_kept w w' r Hall Hw) as (ls & Hw' & Hls).
    destruct r; [by exists ls|by eexists]. }
  intros results. apply leads_exists. intros ls. apply leads_assume. intros Hls.
  apply leads_bind with (Q' := fun _ => kept_as (["pre-recon"; "recon"] ++ ls)).
  { destruct (0 <? _)%nat;
      [|exact (leads_ret tt (fun _ => kept_as (["pre-recon"; "recon"] ++ ls)) kept)].
    intros w Hw. by apply kept_warn. }
  intros _. apply leads_header.
  eapply leads_conseq; [done| |apply leads_await_last].
  intros ? w Hw. by exists ls.
Qed.

Lemma run_phases_kept :
  leads (kept_as []) (run_phases env)
    (fun _ w => exists ls, kept_as (["pre-recon"; "recon"] ++ ls ++ ["report"]) w
                           /\ settled_units ls)
    kept.
Proof.
  unfold run_phases.
  eapply leads_bind; [apply pre_recon_kept|intros ?].
  eapply leads_bind; [apply recon_kept|intros ?].
  eapply leads_bind; [apply parallel_kept|intros ?].
  apply leads_exists. intros ls. apply leads_assume. intros Hls.
  eapply leads_conseq; [done| |by apply reporting_kept].
  intros ? w Hw. by exists ls.
Qed.

Lemma initial_world_kept : kept_as [] (initial_world env).
Proof. repeat split; constructor. Qed.

(** *** The end of the run *)

Ltac run_monad :=
  repeat progress
    (unfold mbind, mret, M_bind, M_ret, update, get, throw, build_workflow_summary,
       await, invoke, suspend, settle;
     cbn [state suspended calls warnings summary status set_status set_summary
          set_failedAgent set_error set_currentPhase set_currentAgent fst snd
          completedAgents failedAgent error currentAgent currentPhase]).

(** The end of the [try] block, from any state: what it leaves behind. *)
Lemma complete_run_spec (w : World) :
  let st' :=
    set_summary (Some (computeSummary (now env AtCompleted)
                   (set_currentAgent None (set_currentPhase None
                      (set_status completed (state w))))))
      (set_currentAgent None (set_currentPhase None (set_status completed (state w)))) in
  exists ws,
    complete_run env w
    = (mkWorld st' (suspended w ++ [st']) (calls w ++ [call (logWorkflowComplete ws)])
         (warnings w),
       match outcome env _ (logWorkflowComplete ws) with
       | Js.Resolves _ => Js.Resolves st'
       | Js.Rejects e => Js.Rejects e
       end)
    /\ ws_status ws = completed
    /\ ws_completedAgents ws = completedAgents (state w).
Proof.
  intros st'. unfold complete_run. run_monad.
  match goal with
  | |- context [outcome env _ (logWorkflowComplete ?x)] =>
    exists x; destruct (outcome env _ (logWorkflowComplete x))
  end; done.
Qed.

Lemma kept_terminal l (w : World) st' calls' :
  completedAgents st' = completedAgents (state w) ->
  agentMetrics st' = agentMetrics (state w) ->
  kept_as l w -> kept_as l (mkWorld st' (suspended w ++ [st']) calls' (warnings w)).
Proof.
  intros Hlist Hmetrics Hw.
  apply (kept_suspend l (mkWorld st' (suspended w) calls' (warnings w))).
  destruct Hw as (Hnodup & Hdone & Hl & Hkeys & Hseen).
  unfold Workflows.kept_as. cbn. by rewrite Hlist, Hmetrics.
Qed.

Lemma complete_run_kept l (w : World) :
  kept_as l w -> kept_as l (fst (complete_run env w)).
Proof.
  intros Hw. destruct (complete_run_spec w) as (ws & -> & _). cbn [fst].
  by apply kept_terminal.
Qed.

Lemma fail_run_kept l e (w : World) :
  kept_as l w -> kept_as l (fst (fail_run env e w)).
Proof.
  intros Hw. destruct (fail_run_spec env e w) as (ws & -> & _). cbn [fst].
  by apply kept_terminal.
Qed.

Lemma workflow_kept : kept (fst (pentestPipelineWorkflow env)).
Proof.
  unfold pentestPipelineWorkflow, try_catch, mbind, M_bind.
  pose proof (run_phases_kept (initial_world env) initial_world_kept) as Hrun.
  destruct (run_phases env (initial_world env)) as [w1 [[]|e]].
  - destruct Hrun as (ls & Hw1 & _).
    pose proof (complete_run_kept _ w1 Hw1) as Hw2.
    destruct (complete_run env w1) as [w2 [st|e]]; cbn [fst] in *; [by eexists|].
    eexists. by apply fail_run_kept.
  - destruct Hrun as (l & Hw1). exists l. by apply fail_run_kept.
Qed.

Lemma kept_observable (w : World) :
  kept w ->
  Forall (fun st => well_kept st /\ Forall done_unit (completedAgents st)) (observable w).
Proof.
  intros (l & Hw). unfold observable. apply Forall_app. split.
  - by destruct Hw as (_ & _ & _ & _ & Hseen).
  - constructor; [|done]. by apply (kept_as_state l).
Qed.

(** X18.  Whatever the activities do and in whatever order they settle, in
    every state of the run a query can see and in the state the run ends
    with: no unit is listed twice in [completedAgents], the keys of
    [agentMetrics] are the finished units in the order in which they
    finished, every listed unit is one of the thirteen units of the
    pipeline, and so at most thirteen units are listed. *)
Theorem finished_units_are_listed_once_with_their_metrics :
  Forall (fun st =>
            NoDup (completedAgents st)
            /\ map fst (agentMetrics st) = completedAgents st
            /\ Forall (fun name => In name units) (completedAgents st)
            /\ length (agentMetrics st) = length (completedAgents st)
            /\ length (completedAgents st) <= 13)
    (observable (fst (pentestPipelineWorkflow env))).
Proof.
  eapply Forall_impl; [apply kept_observable, workflow_kept|].
  intros st [(Hnodup & Hkeys & Hunits) _]. repeat split; try done.
  - by rewrite <- Hkeys, length_map.
  - rewrite <- units_length. apply NoDup_incl_length; [by apply NoDup_ListNoDup|].
    intros name Hin. rewrite List.Forall_forall in Hunits. by apply Hunits.
Qed.

(** X19.  A unit is never listed as finished unless its activity resolved:
    in every state a query can see and in the state the run ends with,
    [pre-recon], [recon] and [report] are listed only if their agent
    resolved, the primary unit of a sub-pipeline only if its agent resolved,
    and the conditional unit only if the primary unit resolved, the gating
    decision resolved with [shouldExploit] and the exploit agent
    resolved. *)
Theorem a_unit_is_listed_only_if_its_activities_resolved :
  Forall (fun st => Forall done_unit (completedAgents st))
    (observable (fst (pentestPipelineWorkflow env))).
Proof.
  eapply Forall_impl; [apply kept_observable, workflow_kept|]. by intros st [_ Hdone].
Qed.

Lemma run_phases_keeps_failure_fields :
  keeps (fun w : World => failedAgent (state w) = None /\ error (state w) = None
                          /\ startTime (state w) = now env AtStart)
    (run_phases env).
Proof.
  apply keeps_run_phases.
  1: by intros name m w Hw.
  1: by intros name w Hw.
  1: by intros T a w Hw.
  1: by intros w Hw.
  1: by intros phase agent w _ Hw.
  by intros failed w Hw.
Qed.

(** X20.  A run whose promise resolves ends [completed], with no current
    phase or agent, no failed agent and no error.  Its [completedAgents] are
    [pre-recon], [recon], then the units of the sub-pipelines, then
    [report]; the units of the sub-pipelines listed are exactly the primary
    units whose agent resolved and the conditional units whose primary unit,
    gating decision (with [shouldExploit]) and exploit agent resolved, so a
    sub-pipeline that failed keeps the run from listing its units but not
    from completing.  The summary counts the listed units and spans from
    the start of the run to its completion. *)
Theorem a_completed_run_lists_exactly_the_units_that_resolved st :
  snd (pentestPipelineWorkflow env) = Js.Resolves st ->
  st = state (fst (pentestPipelineWorkflow env))
  /\ status st = completed /\ currentPhase st = None /\ currentAgent st = None
  /\ failedAgent st = None /\ error st = None
  /\ (exists ls,
        completedAgents st = ["pre-recon"; "recon"] ++ ls ++ ["report"]
        /\ forall name, In name ls <->
             (exists v, name = vuln_unit v /\ vuln_done v)
             \/ (exists v, name = exploit_unit v /\ exploit_done v))
  /\ exists sm,
       summary st = Some sm
       /\ Shared.agentCount sm = length (completedAgents st)
       /\ Shared.totalDurationMs sm = (now env AtCompleted - now env AtStart)%Z.
Proof.
  unfold pentestPipelineWorkflow, try_catch, mbind, M_bind.
  pose proof (run_phases_kept (initial_world env) initial_world_kept) as Hrun.
  pose proof (run_phases_keeps_failure_fields (initial_world env)) as Hfields.
  destruct (run_phases env (initial_world env)) as [w1 [[]|e]]; cbn [fst] in *.
  - destruct Hrun as (ls & (_ & _ & Hlist & _) & Hls).
    destruct Hfields as (Hfailed & Herror & Hstart); [done|].
    destruct (complete_run_spec w1) as (ws & -> & _).
    destruct (outcome env _ (logWorkflowComplete ws)) as [u|e].
    + intros [= <-]. cbn. repeat split; try done.
      * by exists ls.
      * eexists. split; [reflexivity|]. cbn. by rewrite Hstart.
    + match goal with
      | |- context [fail_run env e ?w2] =>
        destruct (fail_run_spec env e w2) as (ws' & -> & _)
      end.
      cbn [snd]. by destruct (outcome env _ (logWorkflowComplete ws')).
  - destruct (fail_run_spec env e w1) as (ws' & -> & _).
    cbn [snd]. by destruct (outcome env _ (logWorkflowComplete ws')).
Qed.

(** X21.  If the four phases succeed and the notice of completion fails with
    [e], the run that had finished all its units ends [failed]: a query
    first sees it [completed] while the notice is pending, then [failed]
    with the message of [e] as error, a [null] failed agent and no current
    phase, all units still listed, [report] among them; and the workflow's
    promise rejects. *)
Theorem a_failed_completion_notice_fails_a_finished_run (w1 : World) e :
  run_phases env (initial_world env) = (w1, Js.Resolves tt) ->
  (forall ws, ws_status ws = completed ->
     outcome env _ (logWorkflowComplete ws) = Js.Rejects e) ->
  let final := fst (pentestPipelineWorkflow env) in
  status (state final) = failed
  /\ failedAgent (state final) = None
  /\ error (state final) = Some (Js.message e)
  /\ currentPhase (state final) = None
  /\ completedAgents (state final) = completedAgents (state w1)
  /\ In "report" (completedAgents (state final))
  /\ (exists seen_completed seen_failed,
        suspended final = suspended w1 ++ [seen_completed; seen_failed]
        /\ status seen_completed = completed /\ error seen_completed = None
        /\ seen_failed = state final)
  /\ exists e', snd (pentestPipelineWorkflow env) = Js.Rejects e'.
Proof.
  intros Hrun Hnotice. cbn zeta.
  pose proof (run_phases_kept (initial_world env) initial_world_kept) as Hkept.
  pose proof (run_phases_keeps_failure_fields (initial_world env)) as Hfields.
  unfold pentestPipelineWorkflow, try_catch, mbind, M_bind.
  rewrite Hrun in *. cbn [fst] in *.
  destruct Hkept as (ls & (_ & _ & Hlist & _) & _).
  destruct Hfields as (Hfailed & Herror & _); [done|].
  destruct (complete_run_spec w1) as (ws & -> & Hws & _).
  rewrite (Hnotice ws Hws).
  match goal with
  | |- context [fail_run env e ?w2] =>
    destruct (fail_run_spec env e w2) as (ws' & -> & _)
  end.
  cbn. rewrite Hlist. repeat split; try done.
  - rewrite !in_app_iff. right. right. by left.
  - do 2 eexists. rewrite <- app_assoc. by repeat split.
  - destruct (outcome env _ (logWorkflowComplete ws')); by eexists.
Qed.

(** *** Finished units are never taken back *)

Lemma ascending_snoc_replace (seen : list (list string)) c c' :
  ascending (seen ++ [c]) -> c `prefix_of` c' -> ascending (seen ++ [c']).
Proof.
  intros Hasc Hcc' i j a b Hij Hi Hj.
  destruct (decide (j < length seen)) as [Hlt|Hge].
  - rewrite lookup_app_l in Hi, Hj by lia.
    apply (Hasc i j a b Hij); by rewrite lookup_app_l by lia.
  - apply lookup_lt_Some in Hj as Hj'. rewrite length_app in Hj'. cbn in Hj'.
    assert (j = length seen) as -> by lia.
    rewrite lookup_app_r, Nat.sub_diag in Hj by lia. injection Hj as <-.
    destruct (decide (i < length seen)) as [Hlt|Hge'].
    + rewrite lookup_app_l in Hi by lia. etransitivity; [|exact Hcc'].
      apply (Hasc i (length seen) a c Hij); [by rewrite lookup_app_l by lia|].
      by rewrite lookup_app_r, Nat.sub_diag by lia.
    + assert (i = length seen) as -> by lia.
      rewrite lookup_app_r, Nat.sub_diag in Hi by lia. by injection Hi as <-.
Qed.

Lemma ascending_snoc_again (seen : list (list string)) c :
  ascending (seen ++ [c]) -> ascending ((seen ++ [c]) ++ [c]).
Proof.
  intros Hasc i j a b Hij Hi Hj.
  destruct (decide (j < length (seen ++ [c]))) as [Hlt|Hge].
  - rewrite lookup_app_l in Hi, Hj by lia. by apply (Hasc i j a b Hij).
  - apply lookup_lt_Some in Hj as Hj'. rewrite !length_app in Hj'. cbn in Hj'.
    rewrite length_app in Hge. cbn in Hge.
    assert (j = length (seen ++ [c])) as -> by (rewrite length_app; cbn; lia).
    rewrite lookup_app_r, Nat.sub_diag in Hj by lia. injection Hj as <-.
    destruct (decide (i < length (seen ++ [c]))) as [Hlt|Hge'].
    + rewrite lookup_app_l in Hi by lia.
      apply (Hasc i (length seen) a c); [rewrite length_app in Hlt; cbn in Hlt; lia|done|].
      by rewrite lookup_app_r, Nat.sub_diag by lia.
    + assert (i = length (seen ++ [c])) as -> by lia.
      rewrite lookup_app_r, Nat.sub_diag in Hi by lia. by injection Hi as <-.
Qed.

Lemma run_phases_ascending : keeps (fun w => ascending (history w)) (run_phases env).
Proof.
  apply keeps_run_phases.
  - by intros name m w Hw.
  - intros name w Hw. unfold history in *. cbn.
    apply (ascending_snoc_replace _ (completedAgents (state w))); [done|].
    by apply prefix_app_r.
  - by intros T a w Hw.
  - intros w Hw. unfold history in *. cbn. rewrite map_app. cbn.
    by apply ascending_snoc_again.
  - by intros phase agent w _ Hw.
  - by intros failed w Hw.
Qed.

Lemma terminal_ascending (w : World) st' calls' :
  completedAgents st' = completedAgents (state w) ->
  ascending (history w) ->
  ascending (history (mkWorld st' (suspended w ++ [st']) calls' (warnings w))).
Proof.
  intros Hlist Hw. unfold history in *. cbn. rewrite map_app. cbn. rewrite Hlist.
  by apply ascending_snoc_again.
Qed.

(** X22.  A unit once listed as finished stays listed, at the same place:
    of any two states of a run a query can see, the state the run ends
    with included, the [completedAgents] of the earlier is a prefix of the
    [completedAgents] of the later. *)
Theorem finished_units_are_never_taken_back i j (earlier later : PipelineState) :
  i <= j ->
  observable (fst (pentestPipelineWorkflow env)) !! i = Some earlier ->
  observable (fst (pentestPipelineWorkflow env)) !! j = Some later ->
  completedAgents earlier `prefix_of` completedAgents later.
Proof.
  assert (ascending (history (fst (pentestPipelineWorkflow env)))) as Hasc.
  { unfold pentestPipelineWorkflow, try_catch, mbind, M_bind.
    pose proof (run_phases_ascending (initial_world env)) as Hrun.
    destruct (run_phases env (initial_world env)) as [w1 [[]|e]]; cbn [fst] in *.
    - assert (ascending (history (fst (complete_run env w1)))) as Hdone.
      { destruct (complete_run_spec w1) as (ws & -> & _). cbn [fst].
        apply terminal_ascending; [done|]. apply Hrun.
        intros i' j' a b Hij. by destruct i', j'; intros [= <-] [= <-]. }
      destruct (complete_run env w1) as [w2 [st|e]]; cbn [fst] in *; [done|].
      destruct (fail_run_spec env e w2) as (ws & -> & _). cbn [fst].
      by apply terminal_ascending.
    - destruct (fail_run_spec env e w1) as (ws & -> & _). cbn [fst].
      apply terminal_ascending; [done|]. apply Hrun.
      intros i' j' a b Hij. by destruct i', j'; intros [= <-] [= <-]. }
  intros Hij Hi Hj.
  assert (forall k st, observable (fst (pentestPipelineWorkflow env)) !! k = Some st ->
            history (fst (pentestPipelineWorkflow env)) !! k = Some (completedAgents st))
    as Hlookup.
  { intros k st Hk. unfold history.
    replace (map completedAgents (suspended (fst (pentestPipelineWorkflow env)))
               ++ [completedAgents (state (fst (pentestPipelineWorkflow env)))])
      with (completedAgents <$> observable (fst (pentestPipelineWorkflow env)))
      by (unfold observable; by rewrite fmap_app).
    by rewrite list_lookup_fmap, Hk. }
  apply (Hasc i j _ _ Hij); by apply Hlookup.
Qed.

(** *** Who a failure is put down to *)

Lemma run_phases_current_agent :
  keeps (fun w : World => In (currentAgent (state w)) phase_units
                          /\ failedAgent (state w) = None /\ error (state w) = None)
    (run_phases env).
Proof.
  apply keeps_run_phases.
  1: by intros name m w Hw.
  1: by intros name w Hw.
  1: by intros T a w Hw.
  1: by intros w Hw.
  2: by intros failed w Hw.
  intros phase agent w Hin (_ & Hfailed & Herror). cbn. split; [|done].
  unfold phase_units.
  repeat (destruct Hin as [[= <- <-]|Hin]; [cbn; auto 10|]). destruct Hin.
Qed.

(** X23.  Whatever happens in a run, the failed agent it ends with is
    [null], [pre-recon], [recon], [pipelines] or [report]: never the name of
    a vulnerability or exploit agent, whose failures do not fail the run.  A
    run that ends [completed] has no failed agent and no error, and a run
    that ends [failed] has an error message. *)
Theorem a_failure_is_put_down_to_a_phase_unit_or_to_nobody :
  In (failedAgent (state (fst (pentestPipelineWorkflow env)))) phase_units
  /\ (forall v,
        failedAgent (state (fst (pentestPipelineWorkflow env))) <> Some (vuln_unit v)
        /\ failedAgent (state (fst (pentestPipelineWorkflow env))) <> Some (exploit_unit v))
  /\ (status (state (fst (pentestPipelineWorkflow env))) = completed ->
      failedAgent (state (fst (pentestPipelineWorkflow env))) = None
      /\ error (state (fst (pentestPipelineWorkflow env))) = None)
  /\ (status (state (fst (pentestPipelineWorkflow env))) = failed ->
      is_Some (error (state (fst (pentestPipelineWorkflow env))))).
Proof.
  assert (In (failedAgent (state (fst (pentestPipelineWorkflow env)))) phase_units
          /\ (status (state (fst (pentestPipelineWorkflow env))) = completed ->
              failedAgent (state (fst (pentestPipelineWorkflow env))) = None
              /\ error (state (fst (pentestPipelineWorkflow env))) = None)
          /\ (status (state (fst (pentestPipelineWorkflow env))) = failed ->
              is_Some (error (state (fst (pentestPipelineWorkflow env))))))
    as (Hunit & Hcompleted & Hfailed).
  { unfold pentestPipelineWorkflow, try_catch, mbind, M_bind.
    pose proof (run_phases_current_agent (initial_world env)) as Hrun.
    destruct (run_phases env (initial_world env)) as [w1 [[]|e]]; cbn [fst] in *.
    - destruct Hrun as (_ & Hf & He); [by split; [left|]|].
      destruct (complete_run_spec w1) as (ws & -> & _).
      destruct (outcome env _ (logWorkflowComplete ws)) as [u|e].
      + cbn. rewrite Hf, He. repeat split; first [done | by left].
      + match goal with
        | |- context [fail_run env e ?w2] =>
          destruct (fail_run_spec env e w2) as (ws' & -> & _)
        end.
        cbn. repeat split; first [done | by left | by eexists].
    - destruct Hrun as (Ha & _ & _); [by split; [left|]|].
      destruct (fail_run_spec env e w1) as (ws' & -> & _).
      cbn. repeat split; first [done | by eexists]. }
  split; [done|]. split; [|by split].
  intros v. split; intros Heq; rewrite Heq in Hunit; cbn in Hunit;
    repeat (destruct Hunit as [Hunit|Hunit]; [by destruct v|]); done.
Qed.

(** *** Activities are started in their turn *)

Lemma gated_invoke {T} (a : Activity T) (w : World) :
  justified env (call a) -> gated env w -> gated env (fst (invoke a w)).
Proof.
  intros Ha Hw. unfold gated. cbn. apply Forall_app. split; [done|]. by constructor.
Qed.

Lemma gated_header {A} phase agent (rest : M A) Q :
  leads (gated env) rest Q (gated env) ->
  leads (gated env)
    (update (set_currentPhase phase) ;; update (set_currentAgent agent) ;; rest) Q
    (gated env).
Proof.
  intros Hrest w Hw.
  by apply (Hrest (with_state (set_currentAgent agent) (with_state (set_currentPhase phase) w))).
Qed.

Lemma gated_record {A} name m (rest : M A) Q :
  leads (gated env) rest Q (gated env) ->
  leads (gated env)
    (update (set_agentMetrics name m) ;; update (push_completedAgents name) ;; rest) Q
    (gated env).
Proof.
  intros Hrest w Hw.
  by apply (Hrest (with_state (push_completedAgents name)
                     (with_state (set_agentMetrics name m) w))).
Qed.

Lemma gated_await {T A} (a : Activity T) (k : T -> M A) Q :
  justified env (call a) ->
  (forall t, outcome env _ a = Js.Resolves t -> leads (gated env) (k t) Q (gated env)) ->
  leads (gated env) (await env a ≫= k) Q (gated env).
Proof.
  intros Ha Hk w Hw. unfold await, mbind, M_bind, invoke, suspend, settle. cbn.
  pose proof (gated_invoke a w Ha Hw) as Hw'. cbn in Hw'.
  destruct (outcome env T a) as [t|e] eqn:Hout; [|done].
  by apply (Hk t eq_refl (mkWorld (state w) (suspended w ++ [state w])
                            (calls w ++ [call a]) (warnings w))).
Qed.

Lemma gated_await_last {T} (a : Activity T) :
  justified env (call a) -> leads (gated env) (await env a) (fun _ => gated env) (gated env).
Proof.
  intros Ha w Hw. unfold await, mbind, M_bind, invoke, suspend, settle. cbn.
  pose proof (gated_invoke a w Ha Hw) as Hw'. cbn in Hw'.
  by destruct (outcome env T a).
Qed.

Lemma resume_gated v p (w : World) :
  on_track env v p -> gated env w -> gated env (fst (resume env v p w)).
Proof.
  intros Htrack Hw. unfold resume.
  destruct p as [|m|m d|r]; cbn [on_track] in Htrack.
  - destruct (outcome env _ (runVulnAgent v)) as [m|e] eqn:Hv; [|done].
    apply (gated_invoke (checkExploitationQueue v)
             (with_state (push_completedAgents (vuln_unit v))
                (with_state (set_agentMetrics (vuln_unit v) m) w))); [|done].
    by exists m.
  - destruct (outcome env _ (checkExploitationQueue v)) as [d|e] eqn:Hq; [|done].
    destruct (shouldExploit d) eqn:Hd; [|done].
    apply (gated_invoke (runExploitAgent v) w); [|done]. by exists m, d.
  - by destruct (outcome env _ (runExploitAgent v)).
  - done.
Qed.

Lemma resume_each_gated order : forall (ps : Pipelines) (w : World),
  (forall v, on_track env v (ps v)) -> gated env w ->
  gated env (fst (resume_each env order ps w)).
Proof.
  induction order as [|v order IH]; intros ps w Htrack Hw; [done|].
  cbn [resume_each]. unfold mbind, M_bind.
  pose proof (resume_gated v (ps v) w (Htrack v) Hw) as Hw1.
  destruct (resume_spec env v (ps v) w (Htrack v)) as (w1 & p1 & Hres & Htrack1 & _).
  rewrite Hres in *. cbn [fst] in Hw1. apply IH; [|done].
  intros v'. unfold set_pipeline. by destruct (decide (v' = v)) as [->|Hne].
Qed.

Lemma allSettled_gated (w : World) :
  (exists m, outcome env _ runPreReconAgent = Js.Resolves m) ->
  (exists m, outcome env _ runReconAgent = Js.Resolves m) ->
  gated env w -> gated env (fst (allSettled env w)).
Proof.
  intros Hpre Hrecon Hw. unfold allSettled, launch.
  unfold mbind, M_bind, mret, M_ret, invoke, suspend. cbn.
  match goal with
  | |- context [resume_each env _ ?ps0 ?w0] =>
    pose proof (resume_each_gated (settlement_order env) ps0 w0) as Heach;
      destruct (resume_each env (settlement_order env) ps0 w0) as [w1 [ps1|e]]
  end; cbn [fst] in *; apply Heach; try done;
    unfold gated; cbn; rewrite <- !app_assoc; (apply Forall_app; split; [done|]);
    by repeat constructor.
Qed.

Lemma run_phases_gated : leads (gated env) (run_phases env) (fun _ => gated env) (gated env).
Proof.
  unfold run_phases.
  apply leads_bind
    with (Q' := fun _ w => gated env w
                           /\ exists m, outcome env _ runPreReconAgent = Js.Resolves m).
  { unfold execute_pre_recon_phase. apply gated_header.
    apply gated_await; [done|intros _ _]. apply gated_await; [done|intros m Hm].
    apply gated_record.
    eapply leads_conseq; [done| |by apply gated_await_last].
    intros ? w Hw. split; [done|by exists m]. }
  intros ?. apply leads_assume. intros Hpre.
  apply leads_bind
    with (Q' := fun _ w => gated env w
                           /\ exists m, outcome env _ runReconAgent = Js.Resolves m).
  { unfold execute_recon_phase. apply gated_header.
    apply gated_await; [done|intros _ _]. apply gated_await; [done|intros m Hm].
    apply gated_record.
    eapply leads_conseq; [done| |by apply gated_await_last].
    intros ? w Hw. split; [done|by exists m]. }
  intros ?. apply leads_assume. intros Hrecon.
  apply leads_bind with (Q' := fun _ => gated env).
  { unfold execute_vulnerability_exploitation_phase. apply gated_header.
    apply gated_await; [done|intros _ _].
    apply leads_bind with (Q' := fun _ => gated env).
    { intros w Hw. pose proof (allSettled_gated w Hpre Hrecon Hw) as Hw'.
      by destruct (allSettled env w) as [w' [r|e]]. }
    intros results. apply leads_bind with (Q' := fun _ => gated env).
    { destruct (0 <? _)%nat; by intros w Hw. }
    intros ?. apply gated_header. by apply gated_await_last. }
  intros ?. unfold execute_reporting_phase. apply gated_header.
  apply gated_await; [done|intros _ _].
  apply gated_await; [done|intros u Hu].
  apply gated_await; [by exists u|intros m Hm]. apply gated_record.
  apply gated_await; [by exists m|intros _ _]. by apply gated_await_last.
Qed.

Lemma workflow_gated : gated env (fst (pentestPipelineWorkflow env)).
Proof.
  assert (forall (w : World) st' ws,
            gated env w ->
            gated env (mkWorld st' (suspended w ++ [st'])
                         (calls w ++ [call (logWorkflowComplete ws)]) (warnings w)))
    as Hnotice.
  { intros w st' ws Hw. unfold gated. cbn. apply Forall_app. split; [done|]. by constructor. }
  unfold pentestPipelineWorkflow, try_catch, mbind, M_bind.
  pose proof (run_phases_gated (initial_world env) ltac:(constructor)) as Hrun.
  destruct (run_phases env (initial_world env)) as [w1 [[]|e]]; cbn [fst] in *.
  - destruct (complete_run_spec w1) as (ws & -> & _).
    destruct (outcome env _ (logWorkflowComplete ws)) as [u|e]; cbn [fst];
      [by apply Hnotice|].
    match goal with
    | |- context [fail_run env e ?w2] =>
      destruct (fail_run_spec env e w2) as (ws' & -> & _)
    end.
    cbn [fst]. by apply Hnotice, Hnotice.
  - destruct (fail_run_spec env e w1) as (ws' & -> & _). cbn [fst]. by apply Hnotice.
Qed.

(** X24.  An activity is started only in its turn, in every run and
    whatever the order in which the parallel activities settle: the recon
    agent only after the pre-recon agent resolved; a vulnerability agent and
    the report assembly only after both resolved; the queue check of a
    sub-pipeline only after its vulnerability agent resolved; an exploit
    agent only after its vulnerability agent resolved and its queue check
    resolved with [shouldExploit]; the report agent only after the assembly
    resolved, and the metadata injection only after the report agent
    resolved. *)
Theorem activities_are_started_in_their_turn :
  let final := fst (pentestPipelineWorkflow env) in
  (started final runReconAgent -> resolved env runPreReconAgent)
  /\ (forall v, started final (runVulnAgent v) ->
        resolved env runPreReconAgent /\ resolved env runReconAgent)
  /\ (forall v, started final (checkExploitationQueue v) -> resolved env (runVulnAgent v))
  /\ (forall v, started final (runExploitAgent v) ->
        resolved env (runVulnAgent v)
        /\ exists d, outcome env _ (checkExploitationQueue v) = Js.Resolves d
                     /\ shouldExploit d = true)
  /\ (started final assembleReportActivity ->
        resolved env runPreReconAgent /\ resolved env runReconAgent)
  /\ (started final runReportAgent -> resolved env assembleReportActivity)
  /\ (started final injectReportMetadataActivity -> resolved env runReportAgent).
Proof.
  cbn zeta. pose proof workflow_gated as Hgated. unfold gated in Hgated.
  rewrite List.Forall_forall in Hgated. unfold started, resolved.
  split; [intros Hin; exact (Hgated _ Hin)|].
  split; [intros v Hin; exact (Hgated _ Hin)|].
  split; [intros v Hin; exact (Hgated _ Hin)|].
  split.
  { intros v Hin. destruct (Hgated _ Hin) as (m & d & Hm & Hd & Hs).
    split; [by exists m|by exists d]. }
  split; [intros Hin; exact (Hgated _ Hin)|].
  split; intros Hin; exact (Hgated _ Hin).
Qed.

End WorkflowBookkeeping.

(** ** Listing workflows and starting a run *)

Section ServerProperties.

Import TemporalBridge Server.

Context {Num : Type}.

Local Abbreviation WorkflowInfo := TemporalBridge.WorkflowInfo.

Lemma collect_no_limit (rest : list WorkflowInfo) : forall results (failure : option (Js.Error Num)),
  collect None results rest failure
  = match failure with
    | Some e => Js.Rejects e
    | None => Js.Resolves (results ++ rest)
    end.
Proof.
  induction rest as [|workflow rest IH]; intros results failure; cbn.
  - by rewrite app_nil_r.
  - rewrite IH. by rewrite <- app_assoc.
Qed.

Lemma collect_limit n (rest : list WorkflowInfo) :
  forall results (failure : option (Js.Error Num)),
    length results < Z.to_nat (Z.max 1 n) ->
    collect (Some n) results rest failure
    = if (Z.to_nat (Z.max 1 n) - length results <=? length rest)%nat
      then Js.Resolves (results ++ take (Z.to_nat (Z.max 1 n) - length results) rest)
      else match failure with
           | Some e => Js.Rejects e
           | None => Js.Resolves (results ++ rest)
           end.
Proof.
  induction rest as [|workflow rest IH]; intros results failure Hlen; cbn [collect].
  - rewrite app_nil_r. cbn [length].
    by replace (_ <=? 0)%nat with false by (symmetry; apply Nat.leb_gt; lia).
  - rewrite length_app. cbn [length].
    destruct (n <=? Z.of_nat (length results + 1))%Z eqn:Hn.
    + apply Z.leb_le in Hn.
      replace (Z.to_nat (Z.max 1 n) - length results) with 1 by lia.
      cbn. by rewrite take_0.
    + apply Z.leb_gt in Hn. rewrite IH by (rewrite length_app; cbn; lia).
      rewrite length_app. cbn [length].
      replace (Z.to_nat (Z.max 1 n) - length results)
        with (S (Z.to_nat (Z.max 1 n) - (length results + 1))) by lia.
      cbn [Nat.leb take]. by rewrite <- !app_assoc.
Qed.

(** X25.  Once connected, [listWorkflows(limit)] resolves with the first
    [max(1, limit)] workflows the cluster yields when there are that many:
    with a limit of zero or less it still returns one workflow.  When there
    are fewer, or when the limit is [NaN], it returns all of them, and it
    rejects if the listing breaks off; an error of the listing that would
    come after the limit is reached is never seen. *)
Theorem the_list_of_workflows_is_cut_at_the_limit connect (listing : @Listing Num) limit u :
  connect = Js.Resolves u ->
  listWorkflows connect listing limit
  = match limit with
    | Some n =>
      if (Z.to_nat (Z.max 1 n) <=? length (yielded listing))%nat
      then Js.Resolves (take (Z.to_nat (Z.max 1 n)) (yielded listing))
      else all_or_error listing
    | None => all_or_error listing
    end.
Proof.
  intros ->. unfold listWorkflows, TemporalBridge.all_or_error. destruct limit as [n|].
  - rewrite collect_limit by (cbn; lia). cbn [length app]. by rewrite Nat.sub_0_r.
  - by rewrite collect_no_limit.
Qed.

Lemma running_ids_empty (workflows : list WorkflowInfo) :
  (0 <? length (map info_workflowId
                  (List.filter (fun workflow =>
                     bool_decide (info_status workflow = "RUNNING")) workflows)))%nat
  = false
  <-> Forall (fun workflow => info_status workflow <> "RUNNING") workflows.
Proof.
  induction workflows as [|workflow workflows IH]; cbn; [by split|].
  destruct (decide (info_status workflow = "RUNNING")) as [Heq|Hne].
  - rewrite bool_decide_eq_true_2 by done. cbn. split; [done|].
    intros Hall. by apply Forall_cons in Hall as [? _].
  - rewrite bool_decide_eq_false_2 by done. rewrite IH. split.
    + intros Hall. by constructor.
    + intros Hall. by apply Forall_cons in Hall as [_ ?].
Qed.

(** X26.  For a request that names a target and does not pass
    [allowParallel: true], on a connected bridge, the handler goes on to
    start a workflow exactly when none of the first fifty workflows the
    cluster yields is [RUNNING] and the listing of fewer than fifty does not
    break off.  A workflow that is [RUNNING] but listed after fifty others
    does not hold a new run back. *)
Theorem the_single_run_guard_sees_fifty_workflows
  field target (bridge : @Bridge Num) active environment u :
  field "url" = Some (JString target) ->
  target <> "" ->
  field "allowParallel" <> Some (JBool true) ->
  connect bridge = Js.Resolves u ->
  is_Some (started_with (start_pentest (Fields field) bridge active environment))
  <-> Forall (fun workflow => info_status workflow <> "RUNNING")
        (take 50 (yielded (listing bridge)))
      /\ (length (yielded (listing bridge)) < 50 -> breaks_off (listing bridge) = None).
Proof.
  intros Hurl Htarget Hallow Hconnect. unfold start_pentest, string_field.
  rewrite Hurl. cbn [Js.nullish]. rewrite decide_False by done.
  replace (match field "allowParallel" with Some (JBool true) => true | _ => false end)
    with false by (by destruct (field "allowParallel") as [[|[|]| | |]|]).
  unfold listWorkflows. rewrite Hconnect, collect_limit by (cbn; lia).
  cbn [length app]. rewrite Nat.sub_0_r. change (Z.to_nat (Z.max 1 50)) with 50.
  destruct (50 <=? length (yielded (listing bridge)))%nat eqn:Hlen.
  - apply Nat.leb_le in Hlen.
    destruct (0 <? _)%nat eqn:Hrunning.
    + split; [by intros [? ?]|]. intros [Hquiet _].
      apply running_ids_empty in Hquiet. congruence.
    + apply running_ids_empty in Hrunning. split.
      * intros _. split; [done|lia].
      * intros _. by destruct (startPentest bridge _).
  - apply Nat.leb_gt in Hlen. rewrite take_ge by lia.
    destruct (breaks_off (listing bridge)) as [e|].
    + split; [by intros [? ?]|]. intros [_ Hnone]. by specialize (Hnone Hlen).
    + destruct (0 <? _)%nat eqn:Hrunning.
      * split; [by intros [? ?]|]. intros [Hquiet _].
        apply running_ids_empty in Hquiet. congruence.
      * apply running_ids_empty in Hrunning. split; [done|].
        intros _. by destruct (startPentest bridge _).
Qed.

(** X27.  For a duration that is not negative, [formatDuration] shows whole
    seconds below one minute, minutes and seconds (below sixty) below one
    hour, and hours and minutes (below sixty) from one hour on, dropping the
    seconds.  A negative duration is shown as a negative number of seconds,
    rounded down. *)
Theorem durations_show_their_two_largest_units (ms : Z) :
  formatDuration ms
  = if (ms <? 60000)%Z then pretty (ms / 1000)%Z +:+ "s"
    else if (ms <? 3600000)%Z
    then pretty (ms / 60000)%Z +:+ "m " +:+ pretty ((ms / 1000) mod 60)%Z +:+ "s"
    else pretty (ms / 3600000)%Z +:+ "h " +:+ pretty ((ms / 60000) mod 60)%Z +:+ "m".
Proof.
  unfold formatDuration. cbn zeta.
  rewrite !Z.div_div by lia. change (1000 * (60 * 60))%Z with 3600000%Z.
  change (1000 * 60)%Z with 60000%Z.
  destruct (ms <? 60000)%Z eqn:Hminute.
  - apply Z.ltb_lt in Hminute.
    assert (ms / 3600000 < 1)%Z by (apply Z.div_lt_upper_bound; lia).
    assert (ms / 60000 < 1)%Z by (apply Z.div_lt_upper_bound; lia).
    by rewrite !(proj2 (Z.ltb_ge _ _)) by lia.
  - apply Z.ltb_ge in Hminute.
    assert (0 < ms / 60000)%Z by (apply Z.div_str_pos; lia).
    destruct (ms <? 3600000)%Z eqn:Hhour.
    + apply Z.ltb_lt in Hhour. rewrite Z.div_small by lia. cbn [Z.ltb Z.compare].
      rewrite (proj2 (Z.ltb_lt _ _)) by lia.
      rewrite Z.rem_mod_nonneg by (try apply Z.div_pos; lia). done.
    + apply Z.ltb_ge in Hhour.
      assert (0 < ms / 3600000)%Z by (apply Z.div_str_pos; lia).
      rewrite (proj2 (Z.ltb_lt _ _)) by lia.
      rewrite Z.rem_mod_nonneg by lia. done.
Qed.

End ServerProperties.

(** ** Closing the WebSocket server *)

Section WsServerClose.

Import WsServer.

Context {Num : Type}.
Variable blank : list byte -> bool.
Variable chunks : list byte -> list (list byte).

Lemma stop_all (srv : @Server Num) (timers : gmap string Z) :
  subscriptions (map_fold (fun workflowId (_ : Z) srv' => stopPolling workflowId srv')
                   srv timers) = subscriptions srv
  /\ forall k,
       pollIntervals (map_fold (fun workflowId (_ : Z) srv' => stopPolling workflowId srv')
                        srv timers) !! k
       = match timers !! k with
         | Some _ => None
         | None => pollIntervals srv !! k
         end.
Proof.
  apply (map_fold_weak_ind
           (fun (r : @Server Num) (m : gmap string Z) =>
              subscriptions r = subscriptions srv
              /\ forall k, pollIntervals r !! k
                           = match m !! k with
                             | Some _ => None
                             | None => pollIntervals srv !! k
                             end)).
  - split; [done|]. intros k. by rewrite lookup_empty.
  - intros i x m r Hi [Hs Hp]. split; [done|]. intros k. cbn.
    destruct (decide (k = i)) as [->|Hne].
    + by rewrite lookup_delete_eq, lookup_insert_eq.
    + by rewrite lookup_delete_ne, lookup_insert_ne, Hp by done.
Qed.

Lemma close_spec (srv : @Server Num) :
  subscriptions (close srv) = subscriptions srv
  /\ pollIntervals (close srv) = ∅.
Proof.
  unfold close. destruct (stop_all srv (pollIntervals srv)) as [Hsubs Hpoll].
  split; [done|]. apply map_eq. intros k. rewrite Hpoll, lookup_empty.
  by destruct (pollIntervals srv !! k).
Qed.


End WsServerClose.

(** * The further properties at concrete runs *)

Section FurtherConcreteRuns.

Import Examples.

(** ** Retry handler and executor *)

(** X2: two network time-outs, then an accepted result. *)
Lemma first_accepted_attempt_ends_the_retries_witness :
  (1 <= 3 <= RetryHandler.max_retries succeeds_on_third_attempt
   /\ RetryHandler.run_single_attempt succeeds_on_third_attempt 3
      = Js.Resolves successful_result)
  /\ snd (RetryHandler.run_claude_prompt_with_retry
            ErrorPatterns.isRetryableError getRetryDelay succeeds_on_third_attempt)
     = RetryHandler.Returns successful_result
  /\ RetryHandler.count RetryHandler.is_rollback
       (fst (RetryHandler.run_claude_prompt_with_retry
               ErrorPatterns.isRetryableError getRetryDelay succeeds_on_third_attempt)) = 2
  /\ RetryHandler.delays
       (fst (RetryHandler.run_claude_prompt_with_retry
               ErrorPatterns.isRetryableError getRetryDelay succeeds_on_third_attempt))
     = [1000%Z; 2000%Z].
Proof.
  split; [split; [cbn; lia|reflexivity]|].
  destruct (first_accepted_attempt_ends_the_retries
              ErrorPatterns.isRetryableError getRetryDelay succeeds_on_third_attempt
              3 successful_result)
    as (H1 & _ & _ & H4 & _ & H6); [cbn; lia| |reflexivity|reflexivity|reflexivity|].
  { intros attempt Hattempt. left. exists network_timeout.
    assert (attempt = 1 \/ attempt = 2) as [-> | ->] by lia; split; reflexivity. }
  split; [exact H1|]. split; [exact H4|]. rewrite H6. reflexivity.
Defined.

(** X3: three network time-outs. *)
Lemma exhausted_retries_throw_the_last_error_witness :
  1 <= RetryHandler.max_retries always_times_out
  /\ snd (RetryHandler.run_claude_prompt_with_retry
            ErrorPatterns.isRetryableError getRetryDelay always_times_out)
     = RetryHandler.Throws (Some network_timeout)
  /\ RetryHandler.count RetryHandler.is_rollback
       (fst (RetryHandler.run_claude_prompt_with_retry
               ErrorPatterns.isRetryableError getRetryDelay always_times_out)) = 3
  /\ RetryHandler.delays
       (fst (RetryHandler.run_claude_prompt_with_retry
               ErrorPatterns.isRetryableError getRetryDelay always_times_out))
     = [1000%Z; 2000%Z].
Proof.
  split; [cbn; lia|].
  destruct (exhausted_retries_throw_the_last_error
              ErrorPatterns.isRetryableError getRetryDelay always_times_out)
    as (H1 & _ & _ & H4 & _ & H6); [cbn; lia| |].
  { intros attempt _. left. exists network_timeout. split; reflexivity. }
  split; [exact H1|]. split; [exact H4|]. rewrite H6. reflexivity.
Defined.

(** X5: the SDK times out at each of the three attempts; the classifier
    holds the error retryable. *)
Lemma a_failing_sdk_is_retried_without_rollback_witness :
  (ErrorPatterns.isRetryableError network_timeout = true
   /\ forall attempt,
        ClaudeExecutor.thrown is_zero (ClaudeExecutor.stream sdk_always_fails attempt) <> None)
  /\ snd (ClaudeExecutor.runClaudePromptWithRetry ErrorPatterns.isRetryableError
            getRetryDelay is_zero error_name "Map the attack surface" "Recon agent" true
            (Some "4f2a9c1") 1200000 sdk_always_fails)
     = RetryHandler.Throws None
  /\ RetryHandler.count RetryHandler.is_rollback
       (fst (ClaudeExecutor.runClaudePromptWithRetry ErrorPatterns.isRetryableError
               getRetryDelay is_zero error_name "Map the attack surface" "Recon agent" true
               (Some "4f2a9c1") 1200000 sdk_always_fails)) = 0.
Proof.
  assert (forall attempt,
            ClaudeExecutor.thrown is_zero (ClaudeExecutor.stream sdk_always_fails attempt)
            <> None) as Hfail by (intros attempt; discriminate).
  split; [split; [reflexivity|exact Hfail]|].
  destruct (a_failing_sdk_is_retried_without_rollback ErrorPatterns.isRetryableError
              getRetryDelay is_zero error_name "Map the attack surface" "Recon agent" true
              (Some "4f2a9c1") 1200000 sdk_always_fails Hfail)
    as (H1 & _ & _ & H4 & _).
  split; assumption.
Defined.

(** X6: a message in capitals. *)
Lemma billing_phrases_are_detected_witness :
  (In "usage limit" BillingDetector.BILLING_PATTERNS
   /\ Js.includes (Js.toLowerCase "Claude AI USAGE LIMIT reached") "usage limit" = true)
  /\ BillingDetector.is_billing_error "Claude AI USAGE LIMIT reached" = true.
Proof.
  assert (In "usage limit" BillingDetector.BILLING_PATTERNS) as Hin by (cbn; auto 10).
  split; [split; [exact Hin|reflexivity]|].
  exact (billing_phrases_are_detected "Claude AI USAGE LIMIT reached" "usage limit"
           Hin eq_refl).
Defined.

(** ** Bridge *)

(** X8: the query finds no worker; [describe()] says the workflow
    completed. *)
Lemma unavailable_query_falls_back_to_the_description_witness :
  (TemporalBridge.is_query_unavailable_error
     (Js.new_Error (Num := Z)
        "9 FAILED_PRECONDITION: no poller seen for task queue recently") = true)
  /\ exists p,
       TemporalBridge.getProgress query_unavailable "shannon-1" = Js.Resolves p
       /\ Shared.status p = Shared.completed
       /\ Shared.completedAgents p = []
       /\ Shared.error p
          = Some "Workflow query unavailable: 9 FAILED_PRECONDITION: no poller seen for task queue recently".
Proof.
  split; [reflexivity|].
  destruct (unavailable_query_falls_back_to_the_description query_unavailable "shannon-1"
              _ _ tt eq_refl eq_refl eq_refl eq_refl)
    as (p & Hp & Hstatus & _ & Hagents & _ & _ & _ & _ & _ & _ & Herror & _).
  exists p. split; [exact Hp|]. split; [exact Hstatus|]. split; [exact Hagents|].
  apply Herror. rewrite Hstatus. discriminate.
Defined.

(** ** WebSocket server *)

(** X10: socket 7 has subscribed twice to the run and unsubscribes once. *)
Lemma unsubscribe_removes_one_subscription_witness :
  (WsServer.subscriptions (fst (fst (WsServer.subscribe 7 "shannon-1" one_subscriber)))
     !! "shannon-1" = Some [fresh_subscription; fresh_subscription]
   /\ In 7 (map WsServer.ws [fresh_subscription; fresh_subscription]))
  /\ length (Js.nullish
       (WsServer.subscriptions
          (fst (WsServer.unsubscribe 7 "shannon-1"
                  (fst (fst (WsServer.subscribe 7 "shannon-1" one_subscriber)))))
          !! "shannon-1") []) + 1 = 2.
Proof.
  assert (WsServer.subscriptions
            (fst (fst (WsServer.subscribe 7 "shannon-1" one_subscriber)))
            !! "shannon-1" = Some [fresh_subscription; fresh_subscription]) as Hlookup
    by (vm_compute; reflexivity).
  assert (In 7 (map WsServer.ws [fresh_subscription; fresh_subscription])) as Hin
    by (cbn; auto).
  split; [split; assumption|].
  destruct (unsubscribe_removes_one_subscription 7 "shannon-1" _ _ Hlookup Hin)
    as (Hlen & _).
  exact Hlen.
Defined.

(** X11: the run moves from the recon phase to the reporting phase between
    two broadcasts. *)
Lemma phase_change_follows_the_last_broadcast_witness :
  WsServer.subscriptions one_subscriber !! "shannon-1" = Some [fresh_subscription]
  /\ snd (WsServer.broadcastProgress "shannon-1" reporting_progress
            (fst (WsServer.broadcastProgress "shannon-1" running_progress one_subscriber)))
     = [ (7, WsServer.phase_change (Some "reporting") (Some "report"));
         (7, WsServer.progress reporting_progress) ].
Proof.
  assert (WsServer.subscriptions one_subscriber !! "shannon-1" = Some [fresh_subscription])
    as Hlookup by (vm_compute; reflexivity).
  split; [exact Hlookup|].
  destruct (phase_change_follows_the_last_broadcast "shannon-1" running_progress
              reporting_progress one_subscriber _ Hlookup) as [Hsent _].
  rewrite Hsent. reflexivity.
Defined.

(** X12: the poll finds the run failed. *)
Lemma a_terminal_poll_notifies_and_clears_the_record_witness :
  (WsServer.subscriptions one_subscriber !! "shannon-1" = Some [fresh_subscription]
   /\ Shared.status failed_progress <> Shared.running)
  /\ WsServer.pollIntervals
       (fst (WsServer.poll blank chunks "shannon-1" (Js.Resolves failed_progress) 0 None
               one_subscriber)) !! "shannon-1" = None
  /\ exists logs,
       snd (WsServer.poll blank chunks "shannon-1" (Js.Resolves failed_progress) 0 None
              one_subscriber)
       = [ (7, WsServer.progress failed_progress) ]
           ++ [ (7, WsServer.complete_or_failed Shared.failed "shannon-1"
                      (Some "invalid api key")) ]
           ++ logs.
Proof.
  assert (WsServer.subscriptions one_subscriber !! "shannon-1" = Some [fresh_subscription])
    as Hlookup by (vm_compute; reflexivity).
  assert (Shared.status failed_progress <> Shared.running) as Hstatus by discriminate.
  split; [split; assumption|].
  destruct (a_terminal_poll_notifies_and_clears_the_record blank chunks "shannon-1" failed_progress
              0 None one_subscriber _ Hlookup Hstatus)
    as ((logs & Hsent & _) & Hpoll & _).
  split; [exact Hpoll|]. exists logs. rewrite Hsent. reflexivity.
Defined.

(** X14: the query fails, succeeds five seconds later and fails again with
    the same error twenty seconds after the first failure. *)
Lemma a_successful_poll_does_not_reset_the_error_cooldown_witness :
  (WsServer.subscriptions one_subscriber !! "shannon-1" = Some [fresh_subscription]
   /\ WsServer.lastPollErrors one_subscriber !! "shannon-1" = None
   /\ Shared.status running_progress = Shared.running
   /\ (20000 - 0 <= 30000)%Z)
  /\ exists sent,
       snd (WsServer.polls blank chunks "shannon-1"
              [ (Js.Rejects connection_refused, 0%Z, None);
                (Js.Resolves running_progress, 5000%Z, None);
                (Js.Rejects connection_refused, 20000%Z, None) ] one_subscriber)
       = [ [(7, WsServer.error "Failed to query workflow: connect ECONNREFUSED")];
           sent; [] ].
Proof.
  assert (WsServer.subscriptions one_subscriber !! "shannon-1" = Some [fresh_subscription])
    as Hlookup by (vm_compute; reflexivity).
  assert (WsServer.lastPollErrors one_subscriber !! "shannon-1" = None) as Hfresh
    by (vm_compute; reflexivity).
  split; [repeat split; try assumption; lia|].
  destruct (a_successful_poll_does_not_reset_the_error_cooldown blank chunks "shannon-1"
              connection_refused running_progress 0 5000 20000 None None None
              one_subscriber _ Hlookup Hfresh eq_refl ltac:(lia)) as (sent & Hsent).
  exists sent. rewrite Hsent. reflexivity.
Defined.

(** X16: a stream that cuts after four bytes and a stream that delivers
    everything at once. *)
Lemma log_lines_do_not_depend_on_the_chunking_witness :
  ((forall data, concat (chunks data) = data)
   /\ (forall data : list byte, concat [data] = data))
  /\ WsServer.tail_log blank chunks
       (WsServer.at_rest (list_byte_of_string "recon started
inje")) fresh_subscription
     = WsServer.tail_log blank (fun data => [data])
         (WsServer.at_rest (list_byte_of_string "recon started
inje")) fresh_subscription.
Proof.
  assert (forall data : list byte, concat [data] = data) as Hwhole
    by (intros data; cbn; apply app_nil_r).
  split; [split; [exact example_chunks_concat|exact Hwhole]|].
  exact (log_lines_do_not_depend_on_the_chunking blank chunks (fun data => [data]) _
           fresh_subscription example_chunks_concat Hwhole).
Defined.


(** ** Workflow *)

(** X20: every activity resolves and four of the five sub-pipelines
    exploit. *)
Lemma a_completed_run_lists_exactly_the_units_that_resolved_witness :
  snd (Workflows.pentestPipelineWorkflow all_resolve)
  = Js.Resolves (Workflows.state (fst (Workflows.pentestPipelineWorkflow all_resolve)))
  /\ Workflows.status (Workflows.state (fst (Workflows.pentestPipelineWorkflow all_resolve)))
     = Shared.completed
  /\ Workflows.failedAgent
       (Workflows.state (fst (Workflows.pentestPipelineWorkflow all_resolve))) = None
  /\ length (Workflows.completedAgents
               (Workflows.state (fst (Workflows.pentestPipelineWorkflow all_resolve))))
     = 12.
Proof.
  assert (snd (Workflows.pentestPipelineWorkflow all_resolve)
          = Js.Resolves (Workflows.state (fst (Workflows.pentestPipelineWorkflow all_resolve))))
    as Hrun by (vm_compute; reflexivity).
  split; [exact Hrun|].
  destruct (a_completed_run_lists_exactly_the_units_that_resolved all_resolve _ Hrun)
    as (_ & Hstatus & _ & _ & Hfailed & _).
  split; [exact Hstatus|]. split; [exact Hfailed|]. vm_compute. reflexivity.
Defined.

(** X21: the notice that the run completed is rejected. *)
Lemma a_failed_completion_notice_fails_a_finished_run_witness :
  (Workflows.run_phases completion_notice_rejects
     (Workflows.initial_world completion_notice_rejects)
   = (fst (Workflows.run_phases completion_notice_rejects
             (Workflows.initial_world completion_notice_rejects)), Js.Resolves tt)
   /\ forall ws, Workflows.ws_status ws = Shared.completed ->
        Workflows.outcome completion_notice_rejects _ (Workflows.logWorkflowComplete ws)
        = Js.Rejects connection_refused)
  /\ Workflows.status
       (Workflows.state (fst (Workflows.pentestPipelineWorkflow completion_notice_rejects)))
     = Shared.failed
  /\ Workflows.failedAgent
       (Workflows.state (fst (Workflows.pentestPipelineWorkflow completion_notice_rejects)))
     = None
  /\ Workflows.error
       (Workflows.state (fst (Workflows.pentestPipelineWorkflow completion_notice_rejects)))
     = Some "connect ECONNREFUSED".
Proof.
  assert (Workflows.run_phases completion_notice_rejects
            (Workflows.initial_world completion_notice_rejects)
          = (fst (Workflows.run_phases completion_notice_rejects
                    (Workflows.initial_world completion_notice_rejects)), Js.Resolves tt))
    as Hrun by (vm_compute; reflexivity).
  assert (forall ws, Workflows.ws_status ws = Shared.completed ->
            Workflows.outcome completion_notice_rejects _ (Workflows.logWorkflowComplete ws)
            = Js.Rejects connection_refused) as Hnotice.
  { intros ws Hws. cbn. rewrite Hws. reflexivity. }
  split; [split; assumption|].
  destruct (a_failed_completion_notice_fails_a_finished_run completion_notice_rejects
              _ connection_refused Hrun Hnotice) as (Hstatus & Hfailed & Herror & _).
  repeat split; assumption.
Defined.

(** X22: the first and the last but one of the states a query can see of
    the run in which the XSS agent fails. *)
Lemma finished_units_are_never_taken_back_witness :
  (0 <= 9
   /\ Workflows.observable (fst (Workflows.pentestPipelineWorkflow xss_rejects)) !! 0
      = Some first_suspended_state
   /\ Workflows.observable (fst (Workflows.pentestPipelineWorkflow xss_rejects)) !! 9
      = Some (default first_suspended_state
                (Workflows.observable (fst (Workflows.pentestPipelineWorkflow xss_rejects))
                   !! 9)))
  /\ Workflows.completedAgents first_suspended_state
     `prefix_of`
     Workflows.completedAgents
       (default first_suspended_state
          (Workflows.observable (fst (Workflows.pentestPipelineWorkflow xss_rejects)) !! 9)).
Proof.
  assert (Workflows.observable (fst (Workflows.pentestPipelineWorkflow xss_rejects)) !! 0
          = Some first_suspended_state) as H0 by (vm_compute; reflexivity).
  assert (Workflows.observable (fst (Workflows.pentestPipelineWorkflow xss_rejects)) !! 9
          = Some (default first_suspended_state
                    (Workflows.observable
                       (fst (Workflows.pentestPipelineWorkflow xss_rejects)) !! 9))) as H9
    by (vm_compute; reflexivity).
  split; [split; [lia|split; assumption]|].
  exact (finished_units_are_never_taken_back xss_rejects 0 9 _ _ ltac:(lia) H0 H9).
Defined.

(** ** Bridge and server *)

(** X25: a limit of zero still lists one workflow. *)
Lemma the_list_of_workflows_is_cut_at_the_limit_witness :
  Server.connect busy_cluster = Js.Resolves tt
  /\ TemporalBridge.listWorkflows (Server.connect busy_cluster) (Server.listing busy_cluster)
       (Some 0%Z)
     = Js.Resolves [finished_workflow 1].
Proof.
  split; [reflexivity|].
  rewrite (the_list_of_workflows_is_cut_at_the_limit (Server.connect busy_cluster)
             (Server.listing busy_cluster) (Some 0%Z) tt eq_refl).
  reflexivity.
Defined.

(** X26: a run is started although a workflow is running, because fifty
    finished workflows are listed before it. *)
Lemma the_single_run_guard_sees_fifty_workflows_witness :
  (url_only "url" = Some (Server.JString "https://target.example")
   /\ "https://target.example" <> ""
   /\ url_only "allowParallel" <> Some (Server.JBool true)
   /\ Server.connect busy_cluster = Js.Resolves tt)
  /\ In running_workflow (TemporalBridge.yielded (Server.listing busy_cluster))
  /\ is_Some (Server.started_with
                (Server.start_pentest (Server.Fields url_only) busy_cluster [] None)).
Proof.
  split; [repeat split; try reflexivity; discriminate|].
  split; [apply in_app_iff; right; by left|].
  apply (the_single_run_guard_sees_fifty_workflows url_only "https://target.example"
           busy_cluster [] None tt eq_refl ltac:(discriminate) ltac:(discriminate) eq_refl).
  split.
  - vm_compute. repeat (constructor; [discriminate|]). constructor.
  - intros Hshort. vm_compute in Hshort. lia.
Defined.


End FurtherConcreteRuns.
